(** * create_opengl_project.py: the project generator, embedded and verified

    The script turns a display name into a slug, renders nine text files from
    fixed templates and writes them under [base/slug].  This development
    follows the script function by function:

    - Python strings are lists of Unicode code points ([pystr]);
    - [slugify], [safe_write], the [build_*] renderers and [main] are
      translated from the source, the library calls they make
      ([str.strip], [str.lower], [re.sub], [textwrap.dedent],
      [Path.mkdir], [Path.write_text], ...) are modelled beside them;
    - the file system, the standard streams and raised exceptions are threaded
      through a small state-and-exception monad. *)

From Stdlib Require Import NArith Ascii String List Lia Bool.
From stdpp Require Import base option list gmap.
Import ListNotations.

Local Open Scope N_scope.
Local Open Scope list_scope.

(** ** Strings *)

(** A Python [str]: a sequence of code points. *)
Abbreviation pystr := (list N).

(** Source literals are written as Rocq strings (bytes of UTF-8 text) and
    decoded into code points. *)
Fixpoint utf8_go (pending : nat) (acc : N) (bs : list N) : pystr :=
  match bs with
  | [] => []
  | b :: t =>
      match pending with
      | O =>
          if b <? 0x80 then b :: utf8_go 0 0 t
          else if b <? 0xE0 then utf8_go 1 (N.land b 0x1F) t
          else if b <? 0xF0 then utf8_go 2 (N.land b 0x0F) t
          else utf8_go 3 (N.land b 0x07) t
      | S O => (acc * 64 + N.land b 0x3F) :: utf8_go 0 0 t
      | S n => utf8_go n (acc * 64 + N.land b 0x3F) t
      end
  end.

Definition utf8_decode (s : string) : pystr :=
  utf8_go 0 0 (map N_of_ascii (list_ascii_of_string s)).

Definition underscore : N := 0x5F.
Definition newline : N := 0x0A.
Definition dquote : N := 0x22.
Definition backslash : N := 0x5C.

Definition hex_digit (c : N) : option N :=
  if (0x30 <=? c) && (c <=? 0x39) then Some (c - 0x30)
  else if (0x41 <=? c) && (c <=? 0x46) then Some (c - 0x41 + 10)
  else if (0x61 <=? c) && (c <=? 0x66) then Some (c - 0x61 + 10)
  else None.

(** The escape sequences of a Python string literal that the script uses:
    backslash-newline (line continuation), [\\], [\n] and [\xhh]; any other
    backslash stays. *)
Fixpoint py_unescape (s : pystr) : pystr :=
  match s with
  | [] => []
  | c :: t =>
      if c =? backslash then
        match t with
        | [] => [c]
        | e :: t1 =>
            if e =? newline then py_unescape t1
            else if e =? backslash then backslash :: py_unescape t1
            else if e =? 0x6E then newline :: py_unescape t1
            else if e =? 0x78 then
              match t1 with
              | h1 :: h2 :: t2 =>
                  match hex_digit h1, hex_digit h2 with
                  | Some a, Some b => (16 * a + b) :: py_unescape t2
                  | _, _ => c :: e :: py_unescape t1
                  end
              | _ => c :: e :: py_unescape t1
              end
            else c :: e :: py_unescape t1
        end
      else c :: py_unescape t
  end.

(** [py "..."] is the Python string whose literal has the body [...].  A Rocq
    string cannot hold a double quote, so the literals below spell the double
    quotes of the source as the escape [\x22]; everything else is the text of
    the source. *)
Definition py (s : string) : pystr := py_unescape (utf8_decode s).

(* Literals stay folded under [simpl]; evaluate them with [vm_compute]. *)
Arguments py : simpl never.

(** [Py_UNICODE_ISSPACE]: the code points [str.strip()] removes. *)
Definition is_space (c : N) : bool :=
  ((0x09 <=? c) && (c <=? 0x0D)) || ((0x1C <=? c) && (c <=? 0x20))
  || (c =? 0x85) || (c =? 0xA0) || (c =? 0x1680)
  || ((0x2000 <=? c) && (c <=? 0x200A))
  || (c =? 0x2028) || (c =? 0x2029) || (c =? 0x202F) || (c =? 0x205F)
  || (c =? 0x3000).

Fixpoint lstrip_by (f : N -> bool) (s : pystr) : pystr :=
  match s with
  | [] => []
  | c :: t => if f c then lstrip_by f t else s
  end.

Fixpoint rstrip_by (f : N -> bool) (s : pystr) : pystr :=
  match s with
  | [] => []
  | c :: t =>
      match rstrip_by f t with
      | [] => if f c then [] else [c]
      | t' => c :: t'
      end
  end.

Definition strip_by (f : N -> bool) (s : pystr) : pystr :=
  rstrip_by f (lstrip_by f s).

(** [s.strip()] *)
Definition str_strip (s : pystr) : pystr := strip_by is_space s.

(** [s.strip(chars)] *)
Definition str_strip_chars (chars : pystr) (s : pystr) : pystr :=
  strip_by (fun c => existsb (N.eqb c) chars) s.

Definition is_upper_ascii (c : N) : bool := (0x41 <=? c) && (c <=? 0x5A).
Definition is_lower_ascii (c : N) : bool := (0x61 <=? c) && (c <=? 0x7A).
Definition is_digit_ascii (c : N) : bool := (0x30 <=? c) && (c <=? 0x39).

(** An ASCII letter or digit. *)
Definition is_ascii_alnum (c : N) : bool :=
  is_upper_ascii c || is_lower_ascii c || is_digit_ascii c.

(** The character class [[a-z0-9]] of the slug pattern. *)
Definition is_slug_char (c : N) : bool := is_lower_ascii c || is_digit_ascii c.

(** [str.lower()] on one code point, as far as ASCII can tell: the lower-case
    form of every code point whose form contains an ASCII character is exact
    (A-Z, and in the Unicode character database U+0130, which becomes
    "i" followed by U+0307, and U+212A KELVIN SIGN, which becomes "k");
    every other code point has a lower-case form made of non-ASCII code
    points only and is kept as it is.  [slugify] only asks of a lower-cased
    code point whether it lies in [[a-z0-9]], so its result does not depend
    on which non-ASCII code points stand there. *)
Definition lower_cp (c : N) : pystr :=
  if is_upper_ascii c then [c + 0x20]
  else if c =? 0x130 then [0x69; 0x307]
  else if c =? 0x212A then [0x6B]
  else [c].

(** [s.lower()] *)
Definition str_lower (s : pystr) : pystr := flat_map lower_cp s.

(** [re.sub(cls+, repl, s)] for a character class [cls]: every maximal run of
    characters of the class is replaced by one [repl].  [in_match] tells that
    the character before belonged to a run already replaced. *)
Fixpoint re_sub_runs (cls : N -> bool) (repl : pystr) (in_match : bool)
    (s : pystr) : pystr :=
  match s with
  | [] => []
  | c :: t =>
      if cls c then
        if in_match then re_sub_runs cls repl true t
        else repl ++ re_sub_runs cls repl true t
      else c :: re_sub_runs cls repl false t
  end.

Definition re_sub_class_plus (cls : N -> bool) (repl s : pystr) : pystr :=
  re_sub_runs cls repl false s.

(** ** Exceptions *)

Inductive exn_kind :=
  | ValueError | EOFError
  | FileExistsError | FileNotFoundError | NotADirectoryError
  | IsADirectoryError | OSError
  | SystemExit.

(** An exception object: its class and [str(exc)]. *)
Record exn := Exn { exn_class : exn_kind; exn_str : pystr }.

(** ** slugify (source lines 15-19) *)

Definition slugify (name : pystr) : exn + pystr :=
  let slug :=
    str_strip_chars (py "_")
      (re_sub_class_plus (fun c => negb (is_slug_char c)) (py "_")
         (str_lower (str_strip name))) in
  match slug with
  | [] => inl (Exn ValueError
             (py "Project name must contain at least one alphanumeric character."))
  | _ => inr slug
  end.


(** ** textwrap.dedent *)

(** The class [[ \t]] of the module's regular expressions. *)
Definition is_blank (c : N) : bool := (c =? 0x20) || (c =? 0x09).

(** [text.split("\n")] *)
Fixpoint split_lines (s : pystr) : list pystr :=
  match s with
  | [] => [[]]
  | c :: t =>
      if c =? newline then [] :: split_lines t
      else match split_lines t with
           | l :: ls => (c :: l) :: ls
           | [] => [[c]]
           end
  end.

(** ["\n".join(lines)] *)
Fixpoint join_lines (ls : list pystr) : pystr :=
  match ls with
  | [] => []
  | l :: ls' =>
      match ls' with
      | [] => l
      | _ :: _ => l ++ newline :: join_lines ls'
      end
  end.

Fixpoint take_blanks (l : pystr) : pystr :=
  match l with
  | [] => []
  | c :: t => if is_blank c then c :: take_blanks t else []
  end.

(** [s.startswith(p)] *)
Fixpoint starts_with (p s : pystr) : bool :=
  match p, s with
  | [], _ => true
  | _ :: _, [] => false
  | a :: p', b :: s' => (a =? b) && starts_with p' s'
  end.

Fixpoint common_prefix (a b : pystr) : pystr :=
  match a, b with
  | x :: a', y :: b' => if x =? y then x :: common_prefix a' b' else []
  | _, _ => []
  end.

(** [_whitespace_only_re.sub('', text)], pattern [^[ \t]+$] in multi-line
    mode: a line made of blanks only becomes empty. *)
Definition blank_line (l : pystr) : pystr :=
  if forallb is_blank l then [] else l.

(** [_leading_whitespace_re.findall(text)] in multi-line mode (the pattern
    asks for the blanks at the start of a line, followed by one character that
    is neither a blank nor a line feed): the leading blanks of every line that
    has another character. *)
Definition line_indent (l : pystr) : option pystr :=
  if forallb is_blank l then None else Some (take_blanks l).

(** One turn of the loop over the indents that narrows the margin. *)
Definition margin_step (margin : option pystr) (indent : pystr) : option pystr :=
  match margin with
  | None => Some indent
  | Some m =>
      if starts_with m indent then Some m
      else if starts_with indent m then Some indent
      else Some (common_prefix m indent)
  end.

Definition margin_of (ls : list pystr) : option pystr :=
  fold_left margin_step (omap line_indent ls) None.

(** [re.sub(r'(?m)^' + margin, '', text)] on one line. *)
Definition cut_margin (m : pystr) (l : pystr) : pystr :=
  if starts_with m l then drop (length m) l else l.

(** [textwrap.dedent(text)] (the implementation of CPython 3.11), line by
    line. *)
Definition textwrap_dedent (text : pystr) : pystr :=
  let ls := map blank_line (split_lines text) in
  match margin_of ls with
  | Some (c :: m) => join_lines (map (cut_margin (c :: m)) ls)
  | _ => join_lines ls
  end.

(** ** The renderers

    Each [build_*] function of the script returns
    [textwrap.dedent(template).strip() + "\n"].  The templates are the text
    of the source; in the f-string templates the doubled braces of the source
    stand as single braces and a replacement field is a concatenation. *)

(** [build_cmakelists], source lines 28-119. *)
Definition build_cmakelists (project_name : pystr) : pystr :=
  str_strip (textwrap_dedent (py "\
        cmake_minimum_required(VERSION 3.21)

        project(" ++ project_name ++ py " VERSION 0.1.0 LANGUAGES CXX)

        set(CMAKE_CXX_STANDARD 20)
        set(CMAKE_CXX_STANDARD_REQUIRED ON)
        set(CMAKE_EXPORT_COMPILE_COMMANDS ON)

        include(FetchContent)

        if(POLICY CMP0169)
            cmake_policy(SET CMP0169 OLD)
        endif()

        set(GLFW_BUILD_DOCS OFF CACHE INTERNAL \x22\x22)
        set(GLFW_BUILD_TESTS OFF CACHE INTERNAL \x22\x22)
        set(GLFW_BUILD_EXAMPLES OFF CACHE INTERNAL \x22\x22)
        set(GLFW_INSTALL OFF CACHE INTERNAL \x22\x22)

        FetchContent_Declare(
            glfw
            GIT_REPOSITORY https://github.com/glfw/glfw.git
            GIT_TAG 3.4
        )

        FetchContent_Declare(
            glm
            GIT_REPOSITORY https://github.com/g-truc/glm.git
            GIT_TAG 1.0.1
        )
        set(GLM_TEST_ENABLE OFF CACHE INTERNAL \x22\x22)

        FetchContent_Declare(
            glad
            GIT_REPOSITORY https://github.com/Dav1dde/glad.git
            GIT_TAG v0.1.36
            PATCH_COMMAND ${CMAKE_COMMAND} -DGLAD_SOURCE=<SOURCE_DIR> -P ${CMAKE_CURRENT_LIST_DIR}/cmake/patch_glad.cmake
        )

        set(GLAD_PROFILE \x22core\x22 CACHE STRING \x22\x22 FORCE)
        set(GLAD_API \x22gl=4.1\x22 CACHE STRING \x22\x22 FORCE)
        set(GLAD_GENERATOR \x22c\x22 CACHE STRING \x22\x22 FORCE)
        set(GLAD_EXTENSIONS \x22\x22 CACHE STRING \x22\x22 FORCE)

        FetchContent_Declare(
            imgui
            GIT_REPOSITORY https://github.com/ocornut/imgui.git
            GIT_TAG v1.90.4
        )

        FetchContent_MakeAvailable(glfw glm glad)

        FetchContent_GetProperties(imgui)
        if(NOT imgui_POPULATED)
            FetchContent_Populate(imgui)
        endif()

        set(IMGUI_SOURCES
            ${imgui_SOURCE_DIR}/imgui.cpp
            ${imgui_SOURCE_DIR}/imgui_demo.cpp
            ${imgui_SOURCE_DIR}/imgui_draw.cpp
            ${imgui_SOURCE_DIR}/imgui_tables.cpp
            ${imgui_SOURCE_DIR}/imgui_widgets.cpp
            ${imgui_SOURCE_DIR}/backends/imgui_impl_glfw.cpp
            ${imgui_SOURCE_DIR}/backends/imgui_impl_opengl3.cpp
        )

        add_library(imgui_backend STATIC ${IMGUI_SOURCES})
        target_include_directories(imgui_backend PUBLIC
            ${imgui_SOURCE_DIR}
            ${imgui_SOURCE_DIR}/backends
        )
        target_link_libraries(imgui_backend PUBLIC glfw glad)
        target_compile_definitions(imgui_backend PUBLIC IMGUI_DISABLE_OBSOLETE_FUNCTIONS)

        add_executable(${PROJECT_NAME}
            src/main.cpp
            src/Application.cpp
        )

        target_include_directories(${PROJECT_NAME} PRIVATE src)
        target_link_libraries(${PROJECT_NAME} PRIVATE glfw glad imgui_backend glm::glm)
        target_compile_definitions(${PROJECT_NAME} PRIVATE IMGUI_IMPL_OPENGL_LOADER_GLAD)

        if (APPLE)
            target_link_libraries(${PROJECT_NAME} PRIVATE \x22-framework Cocoa\x22 \x22-framework IOKit\x22 \x22-framework CoreVideo\x22)
        endif()
        ")) ++ py "\n".

(** [build_main_cpp], source lines 122-142. *)
Definition build_main_cpp (display_name : pystr) : pystr :=
  str_strip (textwrap_dedent (py "\
        #include \x22Application.hpp\x22

        #include <cstdio>
        #include <cstdlib>
        #include <exception>

        int main() {
            try {
                Application app(\x22" ++ display_name ++ py "\x22, 1280, 720);
                app.run();
            } catch (const std::exception& e) {
                std::fprintf(stderr, \x22Fatal error: %s\\n\x22, e.what());
                return EXIT_FAILURE;
            }
            return EXIT_SUCCESS;
        }
        ")) ++ py "\n".

(** [build_application_hpp], source lines 145-176. *)
Definition build_application_hpp : pystr :=
  str_strip (textwrap_dedent (py "\
        #pragma once

        #include <string>

        struct GLFWwindow;

        class Application {
        public:
            Application(std::string title, int width, int height);
            ~Application();

            Application(const Application&) = delete;
            Application& operator=(const Application&) = delete;

            void run();

        private:
            void init();
            void shutdown();

            std::string title_;
            int width_;
            int height_;
            GLFWwindow* window_{nullptr};
            bool glfw_initialized_{false};
            bool imgui_initialized_{false};
        };
        ")) ++ py "\n".

(** [build_application_cpp], source lines 179-320. *)
Definition build_application_cpp : pystr :=
  str_strip (textwrap_dedent (py "\
        #include \x22Application.hpp\x22

        #include <stdexcept>
        #include <utility>

        #ifndef GLFW_INCLUDE_NONE
        #define GLFW_INCLUDE_NONE
        #endif
        #include <GLFW/glfw3.h>
        #include <glad/glad.h>

        #include <imgui.h>
        #include <imgui_impl_glfw.h>
        #include <imgui_impl_opengl3.h>

        #include <glm/glm.hpp>
        #include <glm/gtc/type_ptr.hpp>

        #include <cstdio>

        namespace {
        void glfw_error_callback(int error, const char* description) {
            std::fprintf(stderr, \x22GLFW error (%d): %s\\n\x22, error, description ? description : \x22no message\x22);
        }
        } // namespace

        Application::Application(std::string title, int width, int height)
            : title_(std::move(title)), width_(width), height_(height) {
            init();
        }

        Application::~Application() {
            shutdown();
        }

        void Application::init() {
            glfwSetErrorCallback(glfw_error_callback);
            if (!glfwInit()) {
                throw std::runtime_error(\x22Failed to initialize GLFW.\x22);
            }
            glfw_initialized_ = true;

            glfwWindowHint(GLFW_CONTEXT_VERSION_MAJOR, 4);
            glfwWindowHint(GLFW_CONTEXT_VERSION_MINOR, 1);
            glfwWindowHint(GLFW_OPENGL_PROFILE, GLFW_OPENGL_CORE_PROFILE);
        #if defined(__APPLE__)
            glfwWindowHint(GLFW_OPENGL_FORWARD_COMPAT, GL_TRUE);
        #endif

            window_ = glfwCreateWindow(width_, height_, title_.c_str(), nullptr, nullptr);
            if (!window_) {
                throw std::runtime_error(\x22Failed to create GLFW window.\x22);
            }

            glfwMakeContextCurrent(window_);
            glfwSwapInterval(1);

            if (!gladLoadGLLoader(reinterpret_cast<GLADloadproc>(glfwGetProcAddress))) {
                throw std::runtime_error(\x22Failed to initialize GLAD.\x22);
            }

            glfwSetFramebufferSizeCallback(
                window_, [](GLFWwindow*, int width, int height) { glViewport(0, 0, width, height); });

            int framebuffer_width = 0;
            int framebuffer_height = 0;
            glfwGetFramebufferSize(window_, &framebuffer_width, &framebuffer_height);
            glViewport(0, 0, framebuffer_width, framebuffer_height);

            IMGUI_CHECKVERSION();
            ImGui::CreateContext();
            ImGuiIO& io = ImGui::GetIO();
            io.ConfigFlags |= ImGuiConfigFlags_NavEnableKeyboard;
            ImGui::StyleColorsDark();

            if (!ImGui_ImplGlfw_InitForOpenGL(window_, true)) {
                throw std::runtime_error(\x22Failed to initialize Dear ImGui GLFW backend.\x22);
            }
            if (!ImGui_ImplOpenGL3_Init(\x22#version 410\x22)) {
                throw std::runtime_error(\x22Failed to initialize Dear ImGui OpenGL backend.\x22);
            }

            imgui_initialized_ = true;
        }

        void Application::run() {
            if (!window_) {
                throw std::runtime_error(\x22Application window is not available.\x22);
            }

            glm::vec3 clear_color{0.10f, 0.13f, 0.17f};

            while (!glfwWindowShouldClose(window_)) {
                glfwPollEvents();

                ImGui_ImplOpenGL3_NewFrame();
                ImGui_ImplGlfw_NewFrame();
                ImGui::NewFrame();

                ImGui::Begin(\x22Hello, ImGui\x22);
                ImGui::Text(\x22Welcome to %s\x22, title_.c_str());
                ImGui::ColorEdit3(\x22Clear Color\x22, glm::value_ptr(clear_color));
                ImGui::Text(\x22Renderer: %s\x22, reinterpret_cast<const char*>(glGetString(GL_RENDERER)));
                ImGui::Text(\x22OpenGL: %s\x22, reinterpret_cast<const char*>(glGetString(GL_VERSION)));
                ImGui::End();

                ImGui::Render();

                glClearColor(clear_color.r, clear_color.g, clear_color.b, 1.0f);
                glClear(GL_COLOR_BUFFER_BIT);

                ImGui_ImplOpenGL3_RenderDrawData(ImGui::GetDrawData());

                glfwSwapBuffers(window_);
            }
        }

        void Application::shutdown() {
            if (imgui_initialized_) {
                ImGui_ImplOpenGL3_Shutdown();
                ImGui_ImplGlfw_Shutdown();
                ImGui::DestroyContext();
                imgui_initialized_ = false;
            } else if (ImGui::GetCurrentContext()) {
                ImGui::DestroyContext();
            }

            if (window_) {
                glfwDestroyWindow(window_);
                window_ = nullptr;
            }

            if (glfw_initialized_) {
                glfwTerminate();
                glfw_initialized_ = false;
            }
        }
        ")) ++ py "\n".

(** [build_readme], source lines 323-355. *)
Definition build_readme (display_name : pystr) (slug : pystr) : pystr :=
  str_strip (textwrap_dedent (py "\
        # " ++ display_name ++ py "

        Generated OpenGL starter project using GLFW, GLAD, GLM, and Dear ImGui.

        ## Build

        ```bash
        cmake -S . -B build
        cmake --build build
        ```

        Or use the provided helper script:

        ```bash
        ./build.sh [Debug|Release|RelWithDebInfo|MinSizeRel] [-r|--run] [-fmt|--format]
        ```

        Flags (all optional):

        - `Debug|Release|RelWithDebInfo|MinSizeRel` — choose the CMake build type (default: `Debug`)
        - `-r`, `--run` — run the built binary after a successful build
        - `-fmt`, `--format` — run `./scripts/format-all.sh` before configuring (requires that script)

        ## Run

        ```bash
        ./build/" ++ slug ++ py "
        ```
        ")) ++ py "\n".

(** [build_build_script], source lines 358-524. *)
Definition build_build_script (slug : pystr) : pystr :=
  str_strip (textwrap_dedent (py "\
        #!/usr/bin/env bash

        set -Eeuo pipefail

        trap 'echo \x22✖ error: ${BASH_SOURCE[0]}:$LINENO: ${BASH_COMMAND}\x22 >&2' ERR

        BUILD_DIR=\x22${BUILD_DIR:-build}\x22
        RUN_AFTER_BUILD=0
        TYPE=\x22Debug\x22
        APP_PATH=\x22${APP_PATH:-bin/${TYPE}/" ++ slug ++ py "}\x22
        FORMAT_AFTER_BUILD=0

        SCRIPT_DIR=\x22$(cd \x22$(dirname \x22${BASH_SOURCE[0]}\x22)\x22 >/dev/null 2>&1 && pwd)\x22

        cd \x22$SCRIPT_DIR\x22

        usage() {
          cat <<USAGE
        Usage: ${BASH_SOURCE[0]} [Debug|Release|RelWithDebInfo|MinSizeRel] [-r|--run]

        Arguments are optional and order-independent:
          Debug|Release|RelWithDebInfo|MinSizeRel  Build type (default: Debug)
          -r, --run                                Run the application after build
          -fmt, --format                           Run ./scripts/format-all.sh before configuring
          -h, --help                               Show this help message
        USAGE
        }

        while [[ $# -gt 0 ]]; do
          case \x22$1\x22 in
          Debug | Release | RelWithDebInfo | MinSizeRel)
            TYPE=\x22$1\x22
            ;;
          -r | --run)
            RUN_AFTER_BUILD=1
            ;;
          -fmt | --format)
            FORMAT_AFTER_BUILD=1
            ;;
          -h | --help)
            usage
            exit 0
            ;;
          *)
            echo \x22Unknown option: $1\x22 >&2
            usage
            exit 1
            ;;
          esac
          shift
        done

        APP_PATH=\x22${APP_PATH:-bin/${TYPE}/" ++ slug ++ py "}\x22
        SHOULD_RUN=$([[ $RUN_AFTER_BUILD -eq 1 ]] && echo \x22run\x22 || echo \x22norun\x22)

        resolve_executable() {
          local slug=\x22" ++ slug ++ py "\x22
          local base=\x22$BUILD_DIR\x22
          local declared=\x22$APP_PATH\x22
          local candidates=()

          if [[ -n \x22$declared\x22 ]]; then
            if [[ \x22$declared\x22 = /* ]]; then
              candidates+=(\x22$declared\x22)
            else
              candidates+=(\x22$base/$declared\x22)
              candidates+=(\x22$declared\x22)
            fi
          fi

          candidates+=(\x22$base/bin/${TYPE}/$slug\x22 \x22$base/$slug\x22 \x22$base/bin/$slug\x22 \x22$base/${TYPE}/$slug\x22)

          for candidate in \x22${candidates[@]}\x22; do
            [[ -n \x22$candidate\x22 ]] || continue
            if [[ -x \x22$candidate\x22 ]]; then
              echo \x22$candidate\x22
              return 0
            fi
          done
          return 1
        }

        source_oneapi_env() {
          # Candidate roots (user first), honor ONEAPI_ROOT if set
          local roots=()
          [[ -n \x22${ONEAPI_ROOT:-}\x22 ]] && roots+=(\x22$ONEAPI_ROOT\x22)
          roots+=(\x22$HOME/intel/oneapi\x22 \x22/opt/intel/oneapi\x22)
          local r path
          local candidates=()
          shopt -s nullglob
          for r in \x22${roots[@]}\x22; do
            candidates+=(\x22$r/oneapi-vars.sh\x22 \x22$r/setvars.sh\x22)
            candidates+=(\x22$r\x22/*/oneapi-vars.sh \x22$r\x22/*/setvars.sh)
          done
          local _saved_opts
          _saved_opts=\x22$(set +o)\x22
          local _saved_errtrap
          _saved_errtrap=\x22$(trap -p ERR || true)\x22
          trap - ERR

          for path in \x22${candidates[@]}\x22; do
            [[ -r \x22$path\x22 ]] || continue
            set +e +u
            set +o pipefail
            source \x22$path\x22 intel64 >/dev/null 2>&1 || source \x22$path\x22 >/dev/null 2>&1
            local rc=$?
            eval \x22$_saved_opts\x22
            [[ -n \x22$_saved_errtrap\x22 ]] && eval \x22$_saved_errtrap\x22

            if ((rc == 0)); then
              echo \x22✓ oneAPI environment sourced: $path\x22
              if [[ -n \x22${IPPROOT:-}\x22 || -n \x22${ONEAPI_ROOT:-}\x22 ]]; then
                return 0
              fi
              _saved_errtrap=\x22$(trap -p ERR || true)\x22
              trap - ERR
            else
              _saved_errtrap=\x22$(trap -p ERR || true)\x22
              trap - ERR
            fi
          done

          # Final restore (nothing found)
          eval \x22$_saved_opts\x22
          [[ -n \x22$_saved_errtrap\x22 ]] && eval \x22$_saved_errtrap\x22
          echo \x22⚠ Could not find a working oneAPI env script under $ONEAPI_ROOT, $HOME/intel/oneapi, or /opt/intel/oneapi.\x22 >&2
          echo \x22   (Unified layout: <root>/<version>/oneapi-vars.sh; component layout: <root>/setvars.sh)\x22 >&2
          return 1
        }

        if [[ $FORMAT_AFTER_BUILD -eq 1 ]]; then
          echo \x22Formatting code before build...\x22
          ./scripts/format-all.sh
        fi

        cmake -B \x22$BUILD_DIR\x22 \\
          -DCMAKE_BUILD_TYPE=\x22$TYPE\x22 \\
          -DCMAKE_EXPORT_COMPILE_COMMANDS=ON
        cmake --build \x22$BUILD_DIR\x22 --parallel

        source_oneapi_env

        echo \x22Build completed.\x22

        case \x22$SHOULD_RUN\x22 in
        run)
          if executable_path=\x22$(resolve_executable)\x22; then
            echo \x22Running application: $executable_path\x22
            \x22$executable_path\x22
          else
            echo \x22Build finished, but executable was not found (checked $APP_PATH and common defaults).\x22 >&2
            exit 1
          fi
          ;;
        norun)
          echo \x22Done.\x22
          ;;
        *)
          echo \x22Build finished — unknown run command: $SHOULD_RUN\x22
          exit 2
          ;;
        esac
        ")) ++ py "\n".

(** [build_glad_patch_script], source lines 527-543. *)
Definition build_glad_patch_script : pystr :=
  str_strip (textwrap_dedent (py "\
        if(NOT DEFINED GLAD_SOURCE)
          message(FATAL_ERROR \x22GLAD_SOURCE not provided to patch_glad.cmake\x22)
        endif()

        set(_glad_cmake \x22${GLAD_SOURCE}/CMakeLists.txt\x22)
        if(NOT EXISTS \x22${_glad_cmake}\x22)
          message(FATAL_ERROR \x22Cannot find glad CMakeLists.txt at ${_glad_cmake}\x22)
        endif()

        file(READ \x22${_glad_cmake}\x22 _glad_contents)
        string(REPLACE \x22cmake_minimum_required(VERSION 3.0)\x22 \x22cmake_minimum_required(VERSION 3.21)\x22 _glad_contents \x22${_glad_contents}\x22)
        file(WRITE \x22${_glad_cmake}\x22 \x22${_glad_contents}\x22)
        ")) ++ py "\n".

(** [build_gitignore], source lines 546-585. *)
Definition build_gitignore : pystr :=
  str_strip (textwrap_dedent (py "\
        # Build artifacts
        /build/
        /cmake-build-*/
        /CMakeFiles/
        /Testing/
        CMakeCache.txt
        CMakeScripts/
        Makefile
        cmake_install.cmake
        install_manifest.txt
        compile_commands.json
        build.ninja
        *.ninja
        *.o
        *.obj
        *.lo
        *.la
        *.a
        *.so
        *.dylib
        *.dll
        *.exe
        *.pdb

        # External deps fetched by CMake
        /_deps/

        # IDE / editor metadata
        /.idea/
        /.vscode/
        *.code-workspace

        # Misc
        .DS_Store
        Thumbs.db
        ")) ++ py "\n".

(** [build_ignore_file], source lines 588-596. *)
Definition build_ignore_file : pystr :=
  str_strip (textwrap_dedent (py "\
        # Ignore bulky build output when searching (used by ripgrep / Telescope)
        build/
        cmake-build-*/
        _deps/
        ")) ++ py "\n".

(** ** The process: file system, standard streams, exceptions *)

(** A resolved absolute path: its components below the root. *)
Abbreviation path := (list pystr).

(** [path.parent]; the root is its own parent. *)
Definition parent (p : path) : path := removelast p.

(** [str(path)] *)
Definition path_str (p : path) : pystr :=
  match p with
  | [] => py "/"
  | _ => flat_map (fun c => py "/" ++ c) p
  end.

Inductive node :=
  | Dir
  | File (contents : pystr) (mode : N).

(** The calls that changed the file system, in the order they completed. *)
Inductive fs_event :=
  | EvMkdir (p : path)
  | EvWrite (p : path)
  | EvChmod (p : path) (mode : N).

Record world := World {
  w_fs : gmap path node;
  w_stdin : list pystr;     (* the lines input() has yet to read *)
  w_stdout : list pystr;    (* what was printed, oldest first *)
  w_trace : list fs_event;
}.

(** What the run takes from its environment. *)
Record env := Env {
  (* Path(s).expanduser().resolve(): depends on the working directory, the
     home directory and symbolic links *)
  env_resolve : pystr -> path;
  env_umask : N;
  (* the operating system refusing to open a path for writing (permissions,
     read-only or full device), with the text of the OSError *)
  env_write_fault : path -> option pystr;
}.

(** A computation that may raise: the world is kept as it is at the raise. *)
Definition M (A : Type) : Type := world -> (exn + A) * world.

Definition M_ret {A} (x : A) : M A := fun w => (inr x, w).

Definition M_bind {A B} (m : M A) (k : A -> M B) : M B :=
  fun w => match m w with
           | (inr x, w') => k x w'
           | (inl ex, w') => (inl ex, w')
           end.

Notation "x <- m ;; k" := (M_bind m (fun x => k))
  (at level 100, m at next level, right associativity).
Notation "m ;;; k" := (M_bind m (fun _ => k))
  (at level 100, right associativity).

Definition raise {A} (ex : exn) : M A := fun w => (inl ex, w).

(** [try: m except <classes>: h]; an exception outside [catches] passes. *)
Definition try_except {A} (m : M A) (catches : exn_kind -> bool)
    (h : exn -> M A) : M A :=
  fun w => match m w with
           | (inr x, w') => (inr x, w')
           | (inl ex, w') =>
               if catches (exn_class ex) then h ex w' else (inl ex, w')
           end.

Definition exn_kind_eqb (a b : exn_kind) : bool :=
  match a, b with
  | ValueError, ValueError | EOFError, EOFError
  | FileExistsError, FileExistsError | FileNotFoundError, FileNotFoundError
  | NotADirectoryError, NotADirectoryError
  | IsADirectoryError, IsADirectoryError | OSError, OSError
  | SystemExit, SystemExit => true
  | _, _ => false
  end.

(** [except Exception]: everything but SystemExit. *)
Definition is_Exception (k : exn_kind) : bool := negb (exn_kind_eqb k SystemExit).

(** [except OSError]: the class and its subclasses. *)
Definition is_OSError (k : exn_kind) : bool :=
  match k with
  | FileExistsError | FileNotFoundError | NotADirectoryError
  | IsADirectoryError | OSError => true
  | _ => false
  end.

Definition lift {A} (r : exn + A) : M A := fun w => (r, w).

(** [sys.exit(msg)] *)
Definition sys_exit {A} (msg : pystr) : M A := raise (Exn SystemExit msg).

(** [input(prompt)] *)
Definition input (prompt : pystr) : M pystr :=
  fun w =>
    let w' := World (w_fs w) (tl (w_stdin w)) (w_stdout w ++ [prompt]) (w_trace w) in
    match w_stdin w with
    | [] => (inl (Exn EOFError (py "EOF when reading a line")), w')
    | l :: _ => (inr l, w')
    end.

(** [print(s)] *)
Definition print (s : pystr) : M unit :=
  fun w => (inr tt, World (w_fs w) (w_stdin w) (w_stdout w ++ [s ++ py "\n"]) (w_trace w)).

Definition set_fs (w : world) (fs : gmap path node) (ev : fs_event) : world :=
  World fs (w_stdin w) (w_stdout w) (w_trace w ++ [ev]).

(** An OSError raised for a path, with the text Python gives it. *)
Definition os_error (k : exn_kind) (errno strerror : pystr) (p : path) : exn :=
  Exn k (py "[Errno " ++ errno ++ py "] " ++ strerror ++ py ": '" ++ path_str p ++ py "'").

(** [path.exists()] *)
Definition path_exists (p : path) : M bool :=
  fun w => (inr (bool_decide (is_Some (w_fs w !! p))), w).

(** [path.is_dir()] *)
Definition path_is_dir (p : path) : M bool :=
  fun w => (inr (match w_fs w !! p with Some Dir => true | _ => false end), w).

(** [os.mkdir(p)] *)
Definition os_mkdir (p : path) : M unit :=
  fun w =>
    match w_fs w !! p with
    | Some _ => (inl (os_error FileExistsError (py "17") (py "File exists") p), w)
    | None =>
        match w_fs w !! parent p with
        | None => (inl (os_error FileNotFoundError (py "2") (py "No such file or directory") p), w)
        | Some (File _ _) => (inl (os_error NotADirectoryError (py "20") (py "Not a directory") p), w)
        | Some Dir => (inr tt, set_fs w (<[p := Dir]> (w_fs w)) (EvMkdir p))
        end
    end.

(** [Path.mkdir(parents=False, exist_ok=exist_ok)] (pathlib of CPython 3.11) *)
Definition mkdir_no_parents (p : path) (exist_ok : bool) : M unit :=
  try_except (os_mkdir p) is_OSError (fun ex =>
    if exn_kind_eqb (exn_class ex) FileNotFoundError then raise ex
    else
      d <- path_is_dir p ;;
      if negb exist_ok || negb d then raise ex else M_ret tt).

(** [Path.mkdir(parents=True, exist_ok=exist_ok)]: when a parent is missing
    it is made first, with its own parents.  The recursion is on the number
    of components that are left. *)
Fixpoint mkdir_parents (depth : nat) (p : path) (exist_ok : bool) : M unit :=
  try_except (os_mkdir p) is_OSError (fun ex =>
    if exn_kind_eqb (exn_class ex) FileNotFoundError then
      match depth with
      | O => raise ex
      | S n =>
          if bool_decide (parent p = p) then raise ex
          else mkdir_parents n (parent p) true ;;; mkdir_no_parents p exist_ok
      end
    else
      d <- path_is_dir p ;;
      if negb exist_ok || negb d then raise ex else M_ret tt).

Definition Path_mkdir (p : path) (parents exist_ok : bool) : M unit :=
  if parents then mkdir_parents (length p) p exist_ok
  else mkdir_no_parents p exist_ok.

Definition mode_0o666 : N := 0x1B6.
Definition mode_0o755 : N := 0x1ED.
(** The three execute bits, [0o111]. *)
Definition mode_exec_bits : N := 0x49.

(** [path.write_text(contents, encoding="utf-8")]: an existing file keeps its
    mode, a new one gets [0o666 & ~umask]. *)
Definition write_text (e : env) (p : path) (contents : pystr) : M unit :=
  fun w =>
    match env_write_fault e p with
    | Some msg => (inl (Exn OSError msg), w)
    | None =>
        match w_fs w !! p with
        | Some Dir => (inl (os_error IsADirectoryError (py "21") (py "Is a directory") p), w)
        | Some (File _ mode) =>
            (inr tt, set_fs w (<[p := File contents mode]> (w_fs w)) (EvWrite p))
        | None =>
            match w_fs w !! parent p with
            | None => (inl (os_error FileNotFoundError (py "2") (py "No such file or directory") p), w)
            | Some (File _ _) => (inl (os_error NotADirectoryError (py "20") (py "Not a directory") p), w)
            | Some Dir =>
                (inr tt, set_fs w (<[p := File contents (N.ldiff mode_0o666 (env_umask e))]> (w_fs w))
                           (EvWrite p))
            end
        end
    end.

(** [path.chmod(mode)] *)
Definition chmod (p : path) (mode : N) : M unit :=
  fun w =>
    match w_fs w !! p with
    | None => (inl (os_error FileNotFoundError (py "2") (py "No such file or directory") p), w)
    | Some Dir => (inr tt, set_fs w (w_fs w) (EvChmod p mode))
    | Some (File c _) => (inr tt, set_fs w (<[p := File c mode]> (w_fs w)) (EvChmod p mode))
    end.

(** ** safe_write (source lines 22-25) *)

Definition safe_write (e : env) (p : path) (contents : pystr) (force : bool) : M unit :=
  ex <- path_exists p ;;
  if ex && negb force then
    raise (Exn FileExistsError (path_str p ++ py " already exists. Use --force to overwrite."))
  else write_text e p contents.

(** ** main (source lines 607-655) *)

(** The namespace [parse_args()] returns. *)
Record args := Args {
  args_name : option pystr;
  args_location : option pystr;
  args_force : bool;
}.

(** [x or y] for an optional string [x]: [None] and the empty string are
    false. *)
Definition or_else (x : option pystr) (y : M pystr) : M pystr :=
  match x with
  | Some (c :: s) => M_ret (c :: s)
  | _ => y
  end.

(** Lines 610-622: the display name and the base directory. *)
Definition main_inputs (e : env) (a : args) : M (pystr * path) :=
  project_display_name <-
    or_else (args_name a) (s <- input (py "Project name: ") ;; M_ret (str_strip s)) ;;
  match project_display_name with
  | [] => sys_exit (py "A project name is required.")
  | _ =>
      base_dir_input <-
        or_else (args_location a)
          (s <- input (py "Base directory (leave empty for current directory): ") ;;
           M_ret (match str_strip s with [] => py "." | s' => s' end)) ;;
      let base_dir := env_resolve e base_dir_input in
      ex <- path_exists base_dir ;;
      if negb ex then sys_exit (py "Base directory does not exist: " ++ path_str base_dir)
      else M_ret (project_display_name, base_dir)
  end.

(** Lines 627-635: the project directory and its two subdirectories. *)
Definition main_directories (force : bool) (project_dir : path) : M unit :=
  try_except (Path_mkdir project_dir true false)
    (fun k => exn_kind_eqb k FileExistsError)
    (fun _ =>
       if negb force then
         sys_exit (py "Project directory already exists: " ++ path_str project_dir
                   ++ py " (use --force to reuse it)")
       else M_ret tt) ;;;
  Path_mkdir (project_dir ++ [py "src"]) false true ;;;
  Path_mkdir (project_dir ++ [py "cmake"]) false true.

(** Lines 638-648: the body of the [try]. *)
Definition main_files (e : env) (force : bool) (project_display_name slug : pystr)
    (project_dir : path) : M unit :=
  let src_dir := project_dir ++ [py "src"] in
  let cmake_dir := project_dir ++ [py "cmake"] in
  safe_write e (project_dir ++ [py "CMakeLists.txt"]) (build_cmakelists slug) force ;;;
  safe_write e (src_dir ++ [py "main.cpp"]) (build_main_cpp project_display_name) force ;;;
  safe_write e (src_dir ++ [py "Application.hpp"]) build_application_hpp force ;;;
  safe_write e (src_dir ++ [py "Application.cpp"]) build_application_cpp force ;;;
  safe_write e (project_dir ++ [py "README.md"])
    (build_readme project_display_name slug) force ;;;
  let build_sh_path := project_dir ++ [py "build.sh"] in
  safe_write e build_sh_path (build_build_script slug) force ;;;
  chmod build_sh_path mode_0o755 ;;;
  safe_write e (cmake_dir ++ [py "patch_glad.cmake"]) build_glad_patch_script force ;;;
  safe_write e (project_dir ++ [py ".gitignore"]) build_gitignore force ;;;
  safe_write e (project_dir ++ [py ".ignore"]) build_ignore_file force.

Definition main (e : env) (a : args) : M unit :=
  inputs <- main_inputs e a ;;
  let project_display_name := fst inputs in
  let base_dir := snd inputs in
  slug <- lift (slugify project_display_name) ;;
  let project_dir := base_dir ++ [slug] in
  main_directories (args_force a) project_dir ;;;
  try_except (main_files e (args_force a) project_display_name slug project_dir)
    is_Exception
    (fun exc => sys_exit (py "Failed to write project files: " ++ exn_str exc)) ;;;
  print (py "✅ Created project at " ++ path_str project_dir) ;;;
  print (py "Next steps:") ;;;
  print (py "  cd " ++ path_str project_dir) ;;;
  print (py "  cmake -S . -B build") ;;;
  print (py "  cmake --build build") ;;;
  print (py "  ./build/" ++ slug).

(** How the interpreter ends the process: status 0 when [main] returns;
    [sys.exit] with a message and an exception nobody caught both print to
    standard error and end with status 1. *)
Definition exit_status (r : exn + unit) : N :=
  match r with
  | inr _ => 0
  | inl _ => 1
  end.

Definition class_name (k : exn_kind) : pystr :=
  match k with
  | ValueError => py "ValueError"
  | EOFError => py "EOFError"
  | FileExistsError => py "FileExistsError"
  | FileNotFoundError => py "FileNotFoundError"
  | NotADirectoryError => py "NotADirectoryError"
  | IsADirectoryError => py "IsADirectoryError"
  | OSError => py "OSError"
  | SystemExit => py "SystemExit"
  end.

(** The last line on standard error: the message of [sys.exit], or, after
    the traceback of an exception nobody caught, its class and text. *)
Definition stderr_last_line (ex : exn) : pystr :=
  match exn_class ex with
  | SystemExit => exn_str ex
  | k => class_name k ++ py ": " ++ exn_str ex
  end.

(** ** Vocabulary of the statements *)

(** No two separators side by side. *)
Fixpoint no_double_sep (s : pystr) : Prop :=
  match s with
  | [] => True
  | a :: t => (a = underscore -> head t <> Some underscore) /\ no_double_sep t
  end.

(** The shape of a slug: not empty, over [[a-z0-9]] and the separator, no
    separator at either end, no two separators side by side. *)
Record slug_shape (s : pystr) : Prop := SlugShape {
  slug_nonempty : s <> [];
  slug_alphabet : Forall (fun c => is_slug_char c = true \/ c = underscore) s;
  slug_no_leading : head s <> Some underscore;
  slug_no_trailing : last s <> Some underscore;
  slug_no_double : no_double_sep s;
}.

(** The exception [slugify] raises. *)
Definition slug_error : exn :=
  Exn ValueError (py "Project name must contain at least one alphanumeric character.").

(** The class of the pattern of [slugify], and the characters its last
    [strip] removes. *)
Definition nonslug (c : N) : bool := negb (is_slug_char c).
Definition is_sep (c : N) : bool := existsb (N.eqb c) (py "_").

(** [needle] occurs in [hay] as a block of consecutive characters. *)
Definition contains (needle hay : pystr) : Prop :=
  exists a b, hay = a ++ needle ++ b.

Fixpoint containsb (needle hay : pystr) : bool :=
  starts_with needle hay
  || match hay with
     | [] => false
     | _ :: t => containsb needle t
     end.

(** No line feed in the string. *)
Definition single_line (s : pystr) : bool :=
  forallb (fun c => negb (c =? newline)) s.

(** No line feed of the string is followed by a space or a tab. *)
Fixpoint no_blank_after_newline (s : pystr) : bool :=
  match s with
  | [] => true
  | c :: t =>
      negb ((c =? newline) && match t with c2 :: _ => is_blank c2 | [] => false end)
      && no_blank_after_newline t
  end.

(** A template with one replacement field is [pre ++ x ++ post].  What
    [textwrap.dedent] makes of the text before and after the field, when the
    field does not change the margin: *)
Definition init_lines (pre : pystr) : list pystr := removelast (split_lines pre).
Definition last_line (pre : pystr) : pystr := List.last (split_lines pre) [].
Definition first_line (post : pystr) : pystr := hd [] (split_lines post).
Definition rest_lines (post : pystr) : list pystr := tl (split_lines post).

Definition join_rest (ls : list pystr) : pystr :=
  flat_map (fun l => newline :: l) ls.

Definition hole_margin (pre post : pystr) : pystr :=
  match margin_of (map blank_line (init_lines pre) ++ last_line pre
                     :: map blank_line (rest_lines post)) with
  | Some m => m
  | None => []
  end.

Definition hole_before (m pre : pystr) : pystr :=
  join_lines (map (cut_margin m) (map blank_line (init_lines pre))
              ++ [cut_margin m (last_line pre)]).

Definition hole_after (m post : pystr) : pystr :=
  first_line post ++ join_rest (map (cut_margin m) (map blank_line (rest_lines post))).

(** The two constant parts of the entry-point source. *)
Definition main_cpp_head : pystr := py "#include \x22Application.hpp\x22

#include <cstdio>
#include <cstdlib>
#include <exception>

int main() {
    try {
        Application app(\x22".

Definition main_cpp_tail : pystr := py "\x22, 1280, 720);
        app.run();
    } catch (const std::exception& e) {
        std::fprintf(stderr, \x22Fatal error: %s\\n\x22, e.what());
        return EXIT_FAILURE;
    }
    return EXIT_SUCCESS;
}
".

(** The constructor call of the entry-point source for a title. *)
Definition app_constructor_call (title : pystr) : pystr :=
  py "Application app(\x22" ++ title ++ py "\x22, 1280, 720);".

(** The two constant parts of the build descriptor: the text up to the
    project name, and the text after it (read off the descriptor of the
    empty name). *)
Definition cmakelists_head : pystr :=
  py "cmake_minimum_required(VERSION 3.21)

project(".

Definition cmakelists_tail : pystr :=
  drop (length cmakelists_head) (build_cmakelists []).

(** A line that is empty or starts with a character other than a blank. *)
Definition starts_nonblank (l : pystr) : bool :=
  match l with
  | [] => false
  | c :: _ => negb (is_blank c)
  end.

Definition stable_line (l : pystr) : Prop := l = [] \/ starts_nonblank l = true.


(** ** Vocabulary of the statements about the file system *)

(** Every entry but the root lies in a directory. *)
Definition fs_wf (fs : gmap path node) : Prop :=
  forall p, p <> [] -> is_Some (fs !! p) -> fs !! parent p = Some Dir.

Definition is_file (o : option node) : Prop :=
  exists c m, o = Some (File c m).

(** A file with one of the execute bits. *)
Definition is_executable (o : option node) : bool :=
  match o with
  | Some (File _ m) => negb (N.land m mode_exec_bits =? 0)
  | _ => false
  end.

(** The exception [safe_write] raises for a path in a file system, if any;
    [safe_write_spec] below proves it of the code. *)
Definition write_refusal (e : env) (force : bool) (fs : gmap path node) (p : path)
    : option exn :=
  if bool_decide (is_Some (fs !! p)) && negb force then
    Some (Exn FileExistsError (path_str p ++ py " already exists. Use --force to overwrite."))
  else
    match env_write_fault e p with
    | Some msg => Some (Exn OSError msg)
    | None =>
        match fs !! p with
        | Some Dir => Some (os_error IsADirectoryError (py "21") (py "Is a directory") p)
        | Some (File _ _) => None
        | None =>
            match fs !! parent p with
            | None => Some (os_error FileNotFoundError (py "2") (py "No such file or directory") p)
            | Some (File _ _) => Some (os_error NotADirectoryError (py "20") (py "Not a directory") p)
            | Some Dir => None
            end
        end
    end.

(** The mode of a file after [write_text]. *)
Definition write_mode (e : env) (fs : gmap path node) (p : path) : N :=
  match fs !! p with
  | Some (File _ m) => m
  | _ => N.ldiff mode_0o666 (env_umask e)
  end.

(** One line of the [try] block of [main]: a [safe_write], and the [chmod]
    that follows it for the build script. *)
Record entry := Entry {
  e_path : path;
  e_contents : pystr;
  e_chmod : option N;
}.

Definition run_entry (e : env) (force : bool) (en : entry) : M unit :=
  safe_write e (e_path en) (e_contents en) force ;;;
  match e_chmod en with
  | Some m => chmod (e_path en) m
  | None => M_ret tt
  end.

Fixpoint run_entries (e : env) (force : bool) (ens : list entry) : M unit :=
  match ens with
  | [] => M_ret tt
  | en :: rest => run_entry e force en ;;; run_entries e force rest
  end.

(** The lines of the [try] block, in the order of the source. *)
Definition file_plan (project_display_name slug : pystr) (project_dir : path)
    : list entry :=
  let src_dir := project_dir ++ [py "src"] in
  let cmake_dir := project_dir ++ [py "cmake"] in
  [ Entry (project_dir ++ [py "CMakeLists.txt"]) (build_cmakelists slug) None;
    Entry (src_dir ++ [py "main.cpp"]) (build_main_cpp project_display_name) None;
    Entry (src_dir ++ [py "Application.hpp"]) build_application_hpp None;
    Entry (src_dir ++ [py "Application.cpp"]) build_application_cpp None;
    Entry (project_dir ++ [py "README.md"]) (build_readme project_display_name slug) None;
    Entry (project_dir ++ [py "build.sh"]) (build_build_script slug) (Some mode_0o755);
    Entry (cmake_dir ++ [py "patch_glad.cmake"]) build_glad_patch_script None;
    Entry (project_dir ++ [py ".gitignore"]) build_gitignore None;
    Entry (project_dir ++ [py ".ignore"]) build_ignore_file None ].

(** The nine files of a project, in the order they are written. *)
Definition write_order (project_dir : path) : list path :=
  [ project_dir ++ [py "CMakeLists.txt"];
    project_dir ++ [py "src"; py "main.cpp"];
    project_dir ++ [py "src"; py "Application.hpp"];
    project_dir ++ [py "src"; py "Application.cpp"];
    project_dir ++ [py "README.md"];
    project_dir ++ [py "build.sh"];
    project_dir ++ [py "cmake"; py "patch_glad.cmake"];
    project_dir ++ [py ".gitignore"];
    project_dir ++ [py ".ignore"] ].

(** The world after an entry ran. *)
Definition entry_mode (e : env) (fs : gmap path node) (en : entry) : N :=
  match e_chmod en with
  | Some m => m
  | None => write_mode e fs (e_path en)
  end.

Definition entry_events (en : entry) : list fs_event :=
  EvWrite (e_path en)
  :: match e_chmod en with
     | Some m => [EvChmod (e_path en) m]
     | None => []
     end.

Definition after_entry (e : env) (w : world) (en : entry) : world :=
  World (<[e_path en := File (e_contents en) (entry_mode e (w_fs w) en)]> (w_fs w))
    (w_stdin w) (w_stdout w) (w_trace w ++ entry_events en).

Definition after_entries (e : env) (w : world) (ens : list entry) : world :=
  fold_left (after_entry e) ens w.

(** The first entry whose write the file system refuses: its position and
    the exception. *)
Fixpoint first_refused (e : env) (force : bool) (fs : gmap path node)
    (ens : list entry) : option (nat * exn) :=
  match ens with
  | [] => None
  | en :: rest =>
      match write_refusal e force fs (e_path en) with
      | Some ex => Some (O, ex)
      | None =>
          match first_refused e force fs rest with
          | Some (k, ex) => Some (S k, ex)
          | None => None
          end
      end
  end.

(** No path is written twice, and none is the directory of a later one. *)
Fixpoint plan_sep (ps : list path) : Prop :=
  match ps with
  | [] => True
  | p :: rest => Forall (fun q => q <> p /\ parent q <> p) rest /\ plan_sep rest
  end.

(** The paths written, as the trace has them. *)
Definition written (tr : list fs_event) : list path :=
  omap (fun ev => match ev with EvWrite p => Some p | _ => None end) tr.

(** A small world for the examples: an empty [/tmp], which every base
    directory argument resolves to, and a umask of [0o022]. *)
Definition demo_env : env := Env (fun _ => [py "tmp"]) 0x12 (fun _ => None).

Definition demo_args (name : pystr) (force : bool) : args :=
  Args (Some name) (Some (py "/tmp")) force.

Definition demo_world (extra : list (path * node)) : world :=
  World (list_to_map (([], Dir) :: ([py "tmp"], Dir) :: extra)) [] [] [].

Definition demo_root : path := [py "tmp"; py "my_game"].


(** The same world with a project directory that holds a file of its own. *)
Definition demo_used_world : world :=
  demo_world [(demo_root, Dir); (demo_root ++ [py "notes.txt"], File (py "mine") 0x1A4)].

(** ** Vocabulary of the further properties *)

(** The characters of [[a-z0-9]] of a string, in order. *)
Definition slug_chars (s : pystr) : pystr := List.filter is_slug_char s.

(** ASCII lower-casing of one code point. *)
Definition ascii_lower (c : N) : N := if is_upper_ascii c then c + 0x20 else c.

(** The maximal runs of characters of [[a-z0-9]] in a string. *)
Definition starts_slug (s : pystr) : bool :=
  match s with
  | c :: _ => is_slug_char c
  | [] => false
  end.

Definition push_char (c : N) (ws : list pystr) : list pystr :=
  match ws with
  | w :: ws' => (c :: w) :: ws'
  | [] => [[c]]
  end.

Fixpoint slug_words (s : pystr) : list pystr :=
  match s with
  | [] => []
  | c :: t =>
      if is_slug_char c then
        if starts_slug t then push_char c (slug_words t) else [c] :: slug_words t
      else slug_words t
  end.

(** ["_".join(words)] *)
Fixpoint join_sep (ws : list pystr) : pystr :=
  match ws with
  | [] => []
  | w :: ws' =>
      match ws' with
      | [] => w
      | _ :: _ => w ++ underscore :: join_sep ws'
      end
  end.

(** Whether the substitution of [slugify] leaves a separator before the first
    word and after the last one. *)
Definition starts_nonslug (s : pystr) : bool :=
  match s with
  | c :: _ => nonslug c
  | [] => false
  end.

Fixpoint ends_nonslug (s : pystr) : bool :=
  match s with
  | [] => false
  | c :: t =>
      match t with
      | [] => nonslug c
      | _ :: _ => ends_nonslug t
      end
  end.

Definition has_word (s : pystr) : bool := existsb is_slug_char s.

Definition sub_lead (in_match : bool) (s : pystr) : pystr :=
  if negb in_match && starts_nonslug s then [underscore] else [].

Definition sub_trail (s : pystr) : pystr :=
  if ends_nonslug s && has_word s then [underscore] else [].

(** One change of a file system at a path that satisfies [P]: a new entry in
    an existing directory, or an existing file rewritten (text or mode). *)
Inductive fs_step (P : path -> Prop) (fs fs' : gmap path node) : Prop :=
  | step_new q n :
      P q -> fs !! q = None -> fs !! parent q = Some Dir ->
      fs' = <[q := n]> fs -> fs_step P fs fs'
  | step_rewrite q c m c' m' :
      P q -> fs !! q = Some (File c m) ->
      fs' = <[q := File c' m']> fs -> fs_step P fs fs'.

(** Any number of such changes. *)
Definition fs_grows (P : path -> Prop) : relation (gmap path node) :=
  rtc (fs_step P).

(** The twelve paths of a project: its directory, [src], [cmake] and the
    nine files. *)
Definition project_paths (root : path) : list path :=
  root :: (root ++ [py "src"]) :: (root ++ [py "cmake"]) :: write_order root.

(** The path is one of the project's. *)
Definition in_project (root q : path) : Prop := q ∈ project_paths root.

(** The project directory a run works on ([project_dir], line 625): none when
    the run ends before that line. *)
Definition project_dir_of (e : env) (a : args) (w : world) : option path :=
  match main_inputs e a w with
  | (inr (d, base), _) =>
      match slugify d with
      | inr s => Some (base ++ [s])
      | inl _ => None
      end
  | (inl _, _) => None
  end.

(** The six lines [main] prints at the end (lines 650-655). *)
Definition report (project_dir : path) (slug : pystr) : list pystr :=
  [ py "✅ Created project at " ++ path_str project_dir ++ py "\n";
    py "Next steps:" ++ py "\n";
    py "  cd " ++ path_str project_dir ++ py "\n";
    py "  cmake -S . -B build" ++ py "\n";
    py "  cmake --build build" ++ py "\n";
    py "  ./build/" ++ slug ++ py "\n" ].

(** The characters of a text other than spaces and tabs, in order. *)
Definition visible (s : pystr) : pystr :=
  List.filter (fun c => negb (is_blank c)) s.

(** The constant parts of the README: before the display name, between the
    name and the slug, and after the slug. *)
Definition readme_head : pystr := py "# ".

Definition readme_mid : pystr := py "

Generated OpenGL starter project using GLFW, GLAD, GLM, and Dear ImGui.

## Build

```bash
cmake -S . -B build
cmake --build build
```

Or use the provided helper script:

```bash
./build.sh [Debug|Release|RelWithDebInfo|MinSizeRel] [-r|--run] [-fmt|--format]
```

Flags (all optional):

- `Debug|Release|RelWithDebInfo|MinSizeRel` — choose the CMake build type (default: `Debug`)
- `-r`, `--run` — run the built binary after a successful build
- `-fmt`, `--format` — run `./scripts/format-all.sh` before configuring (requires that script)

## Run

```bash
./build/".

Definition readme_tail : pystr := py "
```
".

(** The constant parts of the build script, between the three places where
    the slug stands. *)
Definition build_script_head : pystr := py "#!/usr/bin/env bash

set -Eeuo pipefail

trap 'echo \x22✖ error: ${BASH_SOURCE[0]}:$LINENO: ${BASH_COMMAND}\x22 >&2' ERR

BUILD_DIR=\x22${BUILD_DIR:-build}\x22
RUN_AFTER_BUILD=0
TYPE=\x22Debug\x22
APP_PATH=\x22${APP_PATH:-bin/${TYPE}/".

Definition build_script_mid1 : pystr := py "}\x22
FORMAT_AFTER_BUILD=0

SCRIPT_DIR=\x22$(cd \x22$(dirname \x22${BASH_SOURCE[0]}\x22)\x22 >/dev/null 2>&1 && pwd)\x22

cd \x22$SCRIPT_DIR\x22

usage() {
  cat <<USAGE
Usage: ${BASH_SOURCE[0]} [Debug|Release|RelWithDebInfo|MinSizeRel] [-r|--run]

Arguments are optional and order-independent:
  Debug|Release|RelWithDebInfo|MinSizeRel  Build type (default: Debug)
  -r, --run                                Run the application after build
  -fmt, --format                           Run ./scripts/format-all.sh before configuring
  -h, --help                               Show this help message
USAGE
}

while [[ $# -gt 0 ]]; do
  case \x22$1\x22 in
  Debug | Release | RelWithDebInfo | MinSizeRel)
    TYPE=\x22$1\x22
    ;;
  -r | --run)
    RUN_AFTER_BUILD=1
    ;;
  -fmt | --format)
    FORMAT_AFTER_BUILD=1
    ;;
  -h | --help)
    usage
    exit 0
    ;;
  *)
    echo \x22Unknown option: $1\x22 >&2
    usage
    exit 1
    ;;
  esac
  shift
done

APP_PATH=\x22${APP_PATH:-bin/${TYPE}/".

Definition build_script_mid2 : pystr := py "}\x22
SHOULD_RUN=$([[ $RUN_AFTER_BUILD -eq 1 ]] && echo \x22run\x22 || echo \x22norun\x22)

resolve_executable() {
  local slug=\x22".

Definition build_script_tail : pystr := py "\x22
  local base=\x22$BUILD_DIR\x22
  local declared=\x22$APP_PATH\x22
  local candidates=()

  if [[ -n \x22$declared\x22 ]]; then
    if [[ \x22$declared\x22 = /* ]]; then
      candidates+=(\x22$declared\x22)
    else
      candidates+=(\x22$base/$declared\x22)
      candidates+=(\x22$declared\x22)
    fi
  fi

  candidates+=(\x22$base/bin/${TYPE}/$slug\x22 \x22$base/$slug\x22 \x22$base/bin/$slug\x22 \x22$base/${TYPE}/$slug\x22)

  for candidate in \x22${candidates[@]}\x22; do
    [[ -n \x22$candidate\x22 ]] || continue
    if [[ -x \x22$candidate\x22 ]]; then
      echo \x22$candidate\x22
      return 0
    fi
  done
  return 1
}

source_oneapi_env() {
  # Candidate roots (user first), honor ONEAPI_ROOT if set
  local roots=()
  [[ -n \x22${ONEAPI_ROOT:-}\x22 ]] && roots+=(\x22$ONEAPI_ROOT\x22)
  roots+=(\x22$HOME/intel/oneapi\x22 \x22/opt/intel/oneapi\x22)
  local r path
  local candidates=()
  shopt -s nullglob
  for r in \x22${roots[@]}\x22; do
    candidates+=(\x22$r/oneapi-vars.sh\x22 \x22$r/setvars.sh\x22)
    candidates+=(\x22$r\x22/*/oneapi-vars.sh \x22$r\x22/*/setvars.sh)
  done
  local _saved_opts
  _saved_opts=\x22$(set +o)\x22
  local _saved_errtrap
  _saved_errtrap=\x22$(trap -p ERR || true)\x22
  trap - ERR

  for path in \x22${candidates[@]}\x22; do
    [[ -r \x22$path\x22 ]] || continue
    set +e +u
    set +o pipefail
    source \x22$path\x22 intel64 >/dev/null 2>&1 || source \x22$path\x22 >/dev/null 2>&1
    local rc=$?
    eval \x22$_saved_opts\x22
    [[ -n \x22$_saved_errtrap\x22 ]] && eval \x22$_saved_errtrap\x22

    if ((rc == 0)); then
      echo \x22✓ oneAPI environment sourced: $path\x22
      if [[ -n \x22${IPPROOT:-}\x22 || -n \x22${ONEAPI_ROOT:-}\x22 ]]; then
        return 0
      fi
      _saved_errtrap=\x22$(trap -p ERR || true)\x22
      trap - ERR
    else
      _saved_errtrap=\x22$(trap -p ERR || true)\x22
      trap - ERR
    fi
  done

  # Final restore (nothing found)
  eval \x22$_saved_opts\x22
  [[ -n \x22$_saved_errtrap\x22 ]] && eval \x22$_saved_errtrap\x22
  echo \x22⚠ Could not find a working oneAPI env script under $ONEAPI_ROOT, $HOME/intel/oneapi, or /opt/intel/oneapi.\x22 >&2
  echo \x22   (Unified layout: <root>/<version>/oneapi-vars.sh; component layout: <root>/setvars.sh)\x22 >&2
  return 1
}

if [[ $FORMAT_AFTER_BUILD -eq 1 ]]; then
  echo \x22Formatting code before build...\x22
  ./scripts/format-all.sh
fi

cmake -B \x22$BUILD_DIR\x22 \\
  -DCMAKE_BUILD_TYPE=\x22$TYPE\x22 \\
  -DCMAKE_EXPORT_COMPILE_COMMANDS=ON
cmake --build \x22$BUILD_DIR\x22 --parallel

source_oneapi_env

echo \x22Build completed.\x22

case \x22$SHOULD_RUN\x22 in
run)
  if executable_path=\x22$(resolve_executable)\x22; then
    echo \x22Running application: $executable_path\x22
    \x22$executable_path\x22
  else
    echo \x22Build finished, but executable was not found (checked $APP_PATH and common defaults).\x22 >&2
    exit 1
  fi
  ;;
norun)
  echo \x22Done.\x22
  ;;
*)
  echo \x22Build finished — unknown run command: $SHOULD_RUN\x22
  exit 2
  ;;
esac
".

(** After its leading blanks the text has a character that [str.strip] keeps. *)
Fixpoint starts_visible (s : pystr) : bool :=
  match s with
  | [] => false
  | c :: t => if is_blank c then starts_visible t else negb (is_space c)
  end.

(** The text ends with a character that [str.strip] keeps, a line feed and
    blanks. *)
Definition ends_visible_line (s : pystr) : bool :=
  match lstrip_by is_blank (rev s) with
  | n :: c :: _ => (n =? newline) && negb (is_space c)
  | _ => false
  end.

(** Nothing is at the path. *)
Definition absent (fs : gmap path node) (p : path) : bool :=
  match fs !! p with
  | None => true
  | Some _ => false
  end.

(** * Properties of slugify *)

Example slugify_my_game : slugify (py "My Game!!") = inr (py "my_game").
Proof. reflexivity. Qed.

Section Strip.
Variable f : N -> bool.

Lemma lstrip_by_suffix s : suffix (lstrip_by f s) s.
Proof.
  induction s as [|c t IH]; simpl; [done|].
  destruct (f c); [by apply suffix_cons_r | done].
Qed.

Lemma lstrip_by_head s c : head (lstrip_by f s) = Some c -> f c = false.
Proof.
  induction s as [|a t IH]; simpl; [done|].
  destruct (f a) eqn:E; [done|]. simpl. congruence.
Qed.

Lemma lstrip_by_keeps s c : c ∈ s -> f c = false -> c ∈ lstrip_by f s.
Proof.
  induction s as [|a t IH]; simpl; [done|]. intros Hin Hc.
  destruct (f a) eqn:E; [|done].
  apply elem_of_cons in Hin as [->|Hin]; [congruence | auto].
Qed.

Lemma lstrip_by_id s :
  (forall c, head s = Some c -> f c = false) -> lstrip_by f s = s.
Proof. destruct s as [|a t]; simpl; [done|]. intros H. by rewrite (H a). Qed.

Lemma lstrip_by_all s : Forall (fun c => f c = true) s -> lstrip_by f s = [].
Proof. induction 1 as [|a t Ha _ IH]; simpl; [done|]. by rewrite Ha. Qed.

Lemma rstrip_by_prefix s : prefix (rstrip_by f s) s.
Proof.
  induction s as [|c t IH]; simpl; [done|].
  destruct (rstrip_by f t) as [|a r] eqn:E.
  - destruct (f c); [apply prefix_nil | apply prefix_cons, prefix_nil].
  - by apply prefix_cons.
Qed.

Lemma rstrip_by_last s c : last (rstrip_by f s) = Some c -> f c = false.
Proof.
  induction s as [|a t IH]; simpl; [done|].
  destruct (rstrip_by f t) as [|b r] eqn:E.
  - destruct (f a) eqn:Ea; simpl; [done | congruence].
  - rewrite last_cons. destruct (last (b :: r)) eqn:El.
    + intros [= ->]. by apply IH.
    + by apply last_None in El.
Qed.

Lemma rstrip_by_keeps s c : c ∈ s -> f c = false -> c ∈ rstrip_by f s.
Proof.
  induction s as [|a t IH]; simpl; [done|]. intros Hin Hc.
  apply elem_of_cons in Hin as [->|Hin].
  - destruct (rstrip_by f t); [rewrite Hc|]; apply elem_of_cons; by left.
  - specialize (IH Hin Hc). destruct (rstrip_by f t) as [|b r]; [by inversion IH|].
    apply elem_of_cons; by right.
Qed.

Lemma rstrip_by_id s :
  (forall c, last s = Some c -> f c = false) -> rstrip_by f s = s.
Proof.
  induction s as [|a t IH]; simpl; [done|]. intros H.
  destruct t as [|b r].
  - simpl. by rewrite (H a).
  - rewrite IH; [done|]. intros c Hc. apply H. by rewrite last_cons, Hc.
Qed.

Lemma rstrip_by_all s : Forall (fun c => f c = true) s -> rstrip_by f s = [].
Proof. induction 1 as [|a t Ha _ IH]; simpl; [done|]. by rewrite IH, Ha. Qed.

Lemma rstrip_by_head s c :
  head (rstrip_by f s) = Some c -> head s = Some c.
Proof.
  intros H. destruct (rstrip_by_prefix s) as [k Hk].
  destruct (rstrip_by f s); [done|]. by rewrite Hk.
Qed.

Lemma strip_by_sublist s : exists a b, s = a ++ strip_by f s ++ b.
Proof.
  unfold strip_by.
  destruct (lstrip_by_suffix s) as [a Ha].
  destruct (rstrip_by_prefix (lstrip_by f s)) as [b Hb].
  exists a, b. by rewrite <- Hb.
Qed.

Lemma strip_by_head s c : head (strip_by f s) = Some c -> f c = false.
Proof. intros H. by apply rstrip_by_head, lstrip_by_head in H. Qed.

Lemma strip_by_last s c : last (strip_by f s) = Some c -> f c = false.
Proof. apply rstrip_by_last. Qed.

Lemma strip_by_keeps s c : c ∈ s -> f c = false -> c ∈ strip_by f s.
Proof. intros. by apply rstrip_by_keeps; [apply lstrip_by_keeps|]. Qed.

Lemma strip_by_id s :
  (forall c, head s = Some c -> f c = false) ->
  (forall c, last s = Some c -> f c = false) -> strip_by f s = s.
Proof. intros Hh Hl. unfold strip_by. rewrite lstrip_by_id by done. by apply rstrip_by_id. Qed.

Lemma strip_by_all s : Forall (fun c => f c = true) s -> strip_by f s = [].
Proof. intros H. unfold strip_by. by rewrite lstrip_by_all. Qed.
End Strip.

(** Character classes are comparisons of code points: unfold and decide. *)
Ltac charclass :=
  unfold is_ascii_alnum, is_slug_char, is_upper_ascii, is_lower_ascii,
    is_digit_ascii, is_space, is_blank, underscore, newline in *;
  rewrite ?orb_true_iff, ?andb_true_iff, ?orb_false_iff, ?andb_false_iff,
    ?negb_true_iff, ?negb_false_iff,
    ?N.leb_le, ?N.leb_gt, ?N.eqb_eq, ?N.eqb_neq in *;
  lia.

Lemma is_sep_true c : is_sep c = true <-> c = underscore.
Proof.
  unfold is_sep. change (py "_") with [underscore]. simpl.
  rewrite orb_false_r. apply N.eqb_eq.
Qed.

Lemma is_sep_false c : is_sep c = false <-> c <> underscore.
Proof. rewrite <- is_sep_true. destruct (is_sep c); split; congruence. Qed.

Lemma slug_char_not_sep c : is_slug_char c = true -> c <> underscore.
Proof. intros H ->. charclass. Qed.

Lemma slug_char_not_space c :
  is_slug_char c = true \/ c = underscore -> is_space c = false.
Proof.
  intros H. destruct (is_space c) eqn:E; [exfalso|done].
  destruct H as [H| ->]; charclass.
Qed.

Lemma lower_cp_fixed c :
  is_slug_char c = true \/ c = underscore -> lower_cp c = [c].
Proof.
  intros H. unfold lower_cp.
  assert (is_upper_ascii c = false) as -> by (destruct H as [H| ->]; charclass).
  assert ((c =? 0x130) = false) as -> by (destruct H as [H| ->]; charclass).
  assert ((c =? 0x212A) = false) as -> by (destruct H as [H| ->]; charclass).
  done.
Qed.

Lemma lower_cp_space c : is_space c = true -> lower_cp c = [c].
Proof.
  intros H. unfold lower_cp.
  assert (is_upper_ascii c = false) as -> by charclass.
  assert ((c =? 0x130) = false) as -> by charclass.
  assert ((c =? 0x212A) = false) as -> by charclass.
  done.
Qed.

(** Lower-casing never leaves an upper-case ASCII letter behind. *)
Lemma lower_cp_alnum_slug c d :
  d ∈ lower_cp c -> is_ascii_alnum d = true -> is_slug_char d = true.
Proof.
  unfold lower_cp. intros Hd Ha.
  destruct (is_upper_ascii c) eqn:Eu.
  { apply list_elem_of_singleton in Hd as ->. charclass. }
  destruct (c =? 0x130) eqn:E1.
  { apply elem_of_cons in Hd as [->|Hd]; [done|].
    apply list_elem_of_singleton in Hd as ->. done. }
  destruct (c =? 0x212A) eqn:E2.
  { apply list_elem_of_singleton in Hd as ->. done. }
  apply list_elem_of_singleton in Hd as ->. charclass.
Qed.

Lemma lower_cp_of_alnum c :
  is_ascii_alnum c = true -> exists d, d ∈ lower_cp c /\ is_slug_char d = true.
Proof.
  intros H. unfold lower_cp.
  destruct (is_upper_ascii c) eqn:Eu.
  { exists (c + 0x20). split; [apply list_elem_of_singleton; done | charclass]. }
  assert ((c =? 0x130) = false) as -> by charclass.
  assert ((c =? 0x212A) = false) as -> by charclass.
  exists c. split; [apply list_elem_of_singleton; done | charclass].
Qed.

Lemma elem_of_str_lower d s :
  d ∈ str_lower s <-> exists c, c ∈ s /\ d ∈ lower_cp c.
Proof.
  unfold str_lower. rewrite list_elem_of_In, in_flat_map.
  split; intros (c & H1 & H2); exists c; by rewrite ?list_elem_of_In in *.
Qed.

Lemma str_lower_fixed s :
  Forall (fun c => is_slug_char c = true \/ c = underscore) s -> str_lower s = s.
Proof.
  induction 1 as [|c t Hc _ IH]; [done|].
  unfold str_lower in *. simpl. by rewrite lower_cp_fixed, IH.
Qed.

Lemma nonslug_false c : nonslug c = false <-> is_slug_char c = true.
Proof. unfold nonslug. by destruct (is_slug_char c). Qed.

Lemma nonslug_true c : nonslug c = true <-> is_slug_char c = false.
Proof. unfold nonslug. by destruct (is_slug_char c). Qed.

Section ReSub.
Local Abbreviation sub := (re_sub_runs nonslug [underscore]).

Lemma re_sub_runs_alphabet b s :
  Forall (fun c => is_slug_char c = true \/ c = underscore) (sub b s).
Proof.
  revert b. induction s as [|c t IH]; intros b; simpl; [done|].
  destruct (nonslug c) eqn:E; simpl.
  - destruct b; [apply IH|]. constructor; [by right | apply IH].
  - apply nonslug_false in E. constructor; [by left | apply IH].
Qed.

Lemma re_sub_runs_keeps b s c :
  c ∈ s -> is_slug_char c = true -> c ∈ sub b s.
Proof.
  revert b. induction s as [|a t IH]; intros b Hin Hc; simpl; [by inversion Hin|].
  apply elem_of_cons in Hin as [<-|Hin].
  - apply nonslug_false in Hc. rewrite Hc. apply elem_of_cons. by left.
  - pose proof (IH true Hin Hc) as IHt. pose proof (IH false Hin Hc) as IHf.
    destruct (nonslug a); [destruct b|]; simpl; rewrite ?elem_of_cons; auto.
Qed.

Lemma re_sub_runs_no_double b s :
  no_double_sep (sub b s) /\ (b = true -> head (sub b s) <> Some underscore).
Proof.
  revert b. induction s as [|c t IH]; intros b; simpl; [done|].
  destruct (nonslug c) eqn:E; simpl.
  - destruct b; [apply IH|]. simpl. split; [|done].
    split; [|apply IH]. intros _. by apply IH.
  - apply nonslug_false in E. split; [split; [|apply IH]|].
    + intros ->. by apply slug_char_not_sep in E.
    + intros _ [= ->]. by apply slug_char_not_sep in E.
Qed.

Lemma re_sub_runs_all_sep b s :
  Forall (fun c => is_slug_char c = false) s ->
  Forall (fun c => is_sep c = true) (sub b s).
Proof.
  intros H. revert b. induction H as [|c t Hc _ IH]; intros b; simpl; [done|].
  apply nonslug_true in Hc. rewrite Hc.
  destruct b; [apply IH|]. constructor; [by apply is_sep_true | apply IH].
Qed.

Lemma re_sub_runs_fixed b s :
  Forall (fun c => is_slug_char c = true \/ c = underscore) s ->
  no_double_sep s -> (b = true -> head s <> Some underscore) ->
  sub b s = s.
Proof.
  intros H. revert b. induction H as [|c t Hc _ IH]; intros b Hd Hb; simpl; [done|].
  destruct Hd as [Hd1 Hd2].
  destruct (nonslug c) eqn:E; simpl.
  - apply nonslug_true in E. destruct Hc as [?| ->]; [congruence|].
    destruct b; [by destruct Hb|]. f_equal. apply IH; auto.
  - f_equal. by apply IH.
Qed.
End ReSub.

Lemma no_double_sep_app_r a s : no_double_sep (a ++ s) -> no_double_sep s.
Proof. induction a as [|c a IH]; simpl; [done|]. intros [_ H]. auto. Qed.

Lemma no_double_sep_app_l s b : no_double_sep (s ++ b) -> no_double_sep s.
Proof.
  induction s as [|c t IH]; simpl; [done|]. intros [H1 H2]. split; [|auto].
  intros Hc Ht. apply (H1 Hc). by destruct t.
Qed.

(** The string [slugify] strips and tests: the lower-cased name with every
    run outside [[a-z0-9]] replaced. *)
Lemma slugify_unfold name :
  slugify name =
    match strip_by is_sep
            (re_sub_runs nonslug [underscore] false (str_lower (str_strip name))) with
    | [] => inl slug_error
    | s => inr s
    end.
Proof.
  unfold slugify. cbv zeta.
  change (str_strip_chars (py "_")
            (re_sub_class_plus (fun c => negb (is_slug_char c)) (py "_")
               (str_lower (str_strip name))))
    with (strip_by is_sep
            (re_sub_runs nonslug [underscore] false (str_lower (str_strip name)))).
  by destruct (strip_by _ _).
Qed.

(** A name whose lower-case form has a character of [[a-z0-9]] gets a
    well-shaped slug. *)
Lemma slugify_shape name :
  (exists c, c ∈ str_lower name /\ is_slug_char c = true) ->
  exists s, slugify name = inr s /\ slug_shape s.
Proof.
  intros (d & Hd & Hs). apply elem_of_str_lower in Hd as (c & Hc & Hdc).
  assert (is_space c = false) as Hsp.
  { destruct (is_space c) eqn:E; [|done]. rewrite lower_cp_space in Hdc by done.
    apply list_elem_of_singleton in Hdc as ->.
    by rewrite slug_char_not_space in E by auto. }
  assert (d ∈ str_lower (str_strip name)) as Hd'.
  { apply elem_of_str_lower. exists c. split; [|done]. by apply strip_by_keeps. }
  rewrite slugify_unfold.
  set (r := re_sub_runs nonslug [underscore] false (str_lower (str_strip name))).
  assert (d ∈ strip_by is_sep r) as Hin.
  { apply strip_by_keeps; [by apply re_sub_runs_keeps|].
    by apply is_sep_false, slug_char_not_sep. }
  destruct (strip_by_sublist is_sep r) as (a & b & Hab).
  pose proof (re_sub_runs_alphabet false (str_lower (str_strip name))) as Halpha.
  pose proof (proj1 (re_sub_runs_no_double false (str_lower (str_strip name)))) as Hnd.
  fold r in Halpha, Hnd. rewrite Hab in Halpha, Hnd.
  apply Forall_app in Halpha as [_ Halpha]. apply Forall_app in Halpha as [Halpha _].
  apply no_double_sep_app_r, no_double_sep_app_l in Hnd.
  pose proof (strip_by_head is_sep r) as Hh. pose proof (strip_by_last is_sep r) as Hl.
  destruct (strip_by is_sep r) as [|x s] eqn:E; [by inversion Hin|].
  exists (x :: s). split; [done|]. split; [done|done| | |done].
  - intros H. apply Hh, is_sep_false in H. done.
  - intros H. apply Hl, is_sep_false in H. done.
Qed.

(** A name whose lower-case form has no character of [[a-z0-9]] is refused. *)
Lemma slugify_refuses name :
  Forall (fun c => is_slug_char c = false) (str_lower name) ->
  slugify name = inl slug_error.
Proof.
  intros H. rewrite slugify_unfold.
  rewrite strip_by_all; [done|]. apply re_sub_runs_all_sep.
  apply Forall_forall. intros d Hd. rewrite Forall_forall in H. apply H.
  apply elem_of_str_lower in Hd as (c & Hc & Hdc). apply elem_of_str_lower.
  exists c. split; [|done].
  unfold str_strip in Hc. destruct (strip_by_sublist is_space name) as (a & b & Hab).
  rewrite Hab. rewrite !elem_of_app. auto.
Qed.

(** A well-shaped slug is its own slug. *)
Lemma slugify_fixed s : slug_shape s -> slugify s = inr s.
Proof.
  intros [Hne Ha Hh Hl Hd]. rewrite slugify_unfold.
  assert (str_strip s = s) as ->.
  { apply strip_by_id; intros c Hc; apply slug_char_not_space.
    - rewrite Forall_forall in Ha. apply Ha. destruct s; [done|].
      injection Hc as ->. apply elem_of_cons. by left.
    - rewrite Forall_forall in Ha. apply Ha. apply last_Some in Hc as [l' ->].
      apply elem_of_app. right. apply elem_of_cons. by left. }
  rewrite str_lower_fixed by done.
  rewrite re_sub_runs_fixed by done.
  rewrite strip_by_id.
  - by destruct s.
  - intros c Hc. apply is_sep_false. congruence.
  - intros c Hc. apply is_sep_false. congruence.
Qed.

(** Which code points leave a character of [[a-z0-9]] when lower-cased. *)
Lemma lower_cp_no_slug c :
  Forall (fun d => is_slug_char d = false) (lower_cp c) <->
  is_ascii_alnum c = false /\ c <> 0x130 /\ c <> 0x212A.
Proof.
  unfold lower_cp.
  destruct (is_upper_ascii c) eqn:Eu.
  { split.
    - intros H. apply Forall_cons in H as [H _]. exfalso. charclass.
    - intros [H _]. exfalso. charclass. }
  destruct (c =? 0x130) eqn:E1.
  { apply N.eqb_eq in E1 as ->. split.
    - intros H. by apply Forall_cons in H as [H _].
    - by intros (_ & H & _). }
  destruct (c =? 0x212A) eqn:E2.
  { apply N.eqb_eq in E2 as ->. split.
    - intros H. by apply Forall_cons in H as [H _].
    - by intros (_ & _ & H). }
  apply N.eqb_neq in E1, E2. split.
  - intros H. apply Forall_cons in H as [H _]. split; [charclass|done].
  - intros (H & _). constructor; [charclass|done].
Qed.

Lemma str_lower_no_slug s :
  Forall (fun d => is_slug_char d = false) (str_lower s) <->
  Forall (fun c => is_ascii_alnum c = false /\ c <> 0x130 /\ c <> 0x212A) s.
Proof.
  induction s as [|c t IH]; [done|].
  unfold str_lower in *. simpl. rewrite Forall_app, Forall_cons, IH.
  by rewrite lower_cp_no_slug.
Qed.

Lemma slug_in_lower_dec s :
  {exists c, c ∈ str_lower s /\ is_slug_char c = true}
  + {Forall (fun c => is_slug_char c = false) (str_lower s)}.
Proof.
  induction (str_lower s) as [|c t [IH|IH]].
  - right. constructor.
  - left. destruct IH as (d & Hd & Hs). exists d. split; [|done].
    apply elem_of_cons. by right.
  - destruct (is_slug_char c) eqn:E.
    + left. exists c. split; [|done]. apply elem_of_cons. by left.
    + right. by constructor.
Qed.

(** * The claims about slugify *)

(** C1.  For every display name whose lower-case form contains an ASCII
    letter or digit, [slugify] returns a slug: a non-empty string over
    [[a-z0-9]] and the separator ["_"], with no separator at either end and
    no two separators side by side.  And [slugify("My Game!!")] is
    ["my_game"]. *)
Theorem slugify_well_shaped name :
  (exists c, c ∈ str_lower name /\ is_ascii_alnum c = true) ->
  (exists s, slugify name = inr s /\ slug_shape s)
  /\ slugify (py "My Game!!") = inr (py "my_game").
Proof.
  intros (d & Hd & Ha). split; [|reflexivity].
  apply slugify_shape. exists d. split; [done|].
  apply elem_of_str_lower in Hd as (c & _ & Hdc).
  by apply (lower_cp_alnum_slug c).
Qed.

Lemma slugify_well_shaped_witness :
  (exists c, c ∈ str_lower (py "Ab  3d") /\ is_ascii_alnum c = true)
  /\ (exists s, slugify (py "Ab  3d") = inr s /\ slug_shape s)
  /\ slugify (py "My Game!!") = inr (py "my_game").
Proof.
  assert (exists c, c ∈ str_lower (py "Ab  3d") /\ is_ascii_alnum c = true) as H.
  { exists 0x61. split; [|reflexivity]. apply list_elem_of_In. simpl. auto. }
  split; [exact H|]. exact (slugify_well_shaped (py "Ab  3d") H).
Defined.

(** C7, as the code has it.  [slugify] raises its ValueError exactly when the
    lower-cased name has no character of [[a-z0-9]], that is when the name has
    no ASCII letter or digit and neither U+0130 nor U+212A; it raises nothing
    else, and on every other name it returns a slug.  ([slugify] is a function
    of the name alone: it reads and changes no state.) *)
Theorem slugify_raises_iff name :
  (slugify name = inl slug_error <->
     Forall (fun c => is_slug_char c = false) (str_lower name))
  /\ (Forall (fun c => is_slug_char c = false) (str_lower name) <->
      Forall (fun c => is_ascii_alnum c = false /\ c <> 0x130 /\ c <> 0x212A) name)
  /\ (forall ex, slugify name = inl ex -> ex = slug_error)
  /\ (slugify name <> inl slug_error -> exists s, slugify name = inr s /\ slug_shape s).
Proof.
  split; [|split; [apply str_lower_no_slug|split]].
  - split; [|apply slugify_refuses].
    intros H. destruct (slug_in_lower_dec name) as [He|Hn]; [|done].
    apply slugify_shape in He as (s & Hs & _). congruence.
  - intros ex H. destruct (slug_in_lower_dec name) as [He|Hn].
    + apply slugify_shape in He as (s & Hs & _). congruence.
    + apply slugify_refuses in Hn. congruence.
  - intros H. destruct (slug_in_lower_dec name) as [He|Hn].
    + by apply slugify_shape.
    + by apply slugify_refuses in Hn.
Qed.

(** C7 as stated fails: the name made of U+212A KELVIN SIGN has no ASCII
    letter or digit, and [slugify] returns ["k"] for it. *)
Lemma slugify_kelvin_sign :
  (forall c, c ∈ [0x212A] -> is_ascii_alnum c = false)
  /\ slugify [0x212A] = inr (py "k").
Proof.
  split; [|reflexivity].
  intros c Hc. apply list_elem_of_singleton in Hc as ->. reflexivity.
Qed.

(** C9.  On a name with an ASCII letter or digit, [slugify] returns a slug
    that it maps to itself: [slugify(slugify(x)) = slugify(x)]. *)
Theorem slugify_idempotent x :
  (exists c, c ∈ x /\ is_ascii_alnum c = true) ->
  exists s, slugify x = inr s /\ slugify s = inr s.
Proof.
  intros (c & Hc & Ha).
  destruct (lower_cp_of_alnum c Ha) as (d & Hd & Hs).
  destruct (slugify_shape x) as (s & Hx & Hshape).
  { exists d. split; [|done]. apply elem_of_str_lower. eauto. }
  exists s. split; [done|]. by apply slugify_fixed.
Qed.

Lemma slugify_idempotent_witness :
  (exists c, c ∈ py "My Game!!" /\ is_ascii_alnum c = true)
  /\ exists s, slugify (py "My Game!!") = inr s /\ slugify s = inr s.
Proof.
  assert (exists c, c ∈ py "My Game!!" /\ is_ascii_alnum c = true) as H.
  { exists 0x4D. split; [|reflexivity]. apply list_elem_of_In. simpl. auto. }
  split; [exact H|]. exact (slugify_idempotent (py "My Game!!") H).
Defined.

(** * Properties of the renderers *)

Lemma starts_with_spec p s : starts_with p s = true <-> exists r, s = p ++ r.
Proof.
  revert s. induction p as [|a p IH]; intros s; simpl.
  - split; [by exists s | done].
  - destruct s as [|b s]; [split; [done | by intros (r & ?)]|].
    rewrite andb_true_iff, N.eqb_eq, IH. split.
    + intros (-> & r & ->). by exists r.
    + intros (r & [= -> ->]). eauto.
Qed.

Lemma containsb_spec needle hay : containsb needle hay = true <-> contains needle hay.
Proof.
  unfold contains. induction hay as [|c t IH]; simpl.
  - rewrite orb_false_r, starts_with_spec. split.
    + intros (r & ->). by exists [], r.
    + intros (a & b & H). symmetry in H.
      apply app_eq_nil in H as (-> & H). apply app_eq_nil in H as (-> & ->).
      by exists [].
  - rewrite orb_true_iff, starts_with_spec, IH. split.
    + intros [(r & ->)|(a & b & ->)]; [by exists [], r | by exists (c :: a), b].
    + intros ([|x a] & b & H); simpl in H.
      * left. by exists b.
      * right. injection H as -> ->. by exists a, b.
Qed.

Lemma not_contains needle hay : containsb needle hay = false -> ~ contains needle hay.
Proof. intros H Hc. apply containsb_spec in Hc. congruence. Qed.

Lemma contains_middle a x b : contains x (a ++ x ++ b).
Proof. by exists a, b. Qed.

Lemma contains_app_l n h a : contains n h -> contains n (a ++ h).
Proof. intros (x & y & ->). exists (a ++ x), y. by rewrite <- app_assoc. Qed.

Lemma contains_app_r n h b : contains n h -> contains n (h ++ b).
Proof. intros (x & y & ->). exists x, (y ++ b). by rewrite <- !app_assoc. Qed.

(** ** Lines *)

Lemma split_lines_nonempty s : split_lines s <> [].
Proof.
  destruct s as [|c t]; simpl; [done|].
  destruct (c =? newline); [done|]. by destruct (split_lines t).
Qed.

Lemma split_lines_cons c t :
  split_lines (c :: t) =
    if c =? newline then [] :: split_lines t
    else (c :: hd [] (split_lines t)) :: tl (split_lines t).
Proof.
  simpl. destruct (c =? newline); [done|].
  pose proof (split_lines_nonempty t). by destruct (split_lines t).
Qed.

Lemma split_lines_app a b :
  split_lines (a ++ b) =
    init_lines a ++ (last_line a ++ first_line b) :: rest_lines b.
Proof.
  unfold init_lines, last_line, first_line, rest_lines.
  induction a as [|c a IH].
  - simpl. pose proof (split_lines_nonempty b). by destruct (split_lines b).
  - rewrite <- app_comm_cons, !split_lines_cons, IH.
    pose proof (split_lines_nonempty a) as Hne.
    destruct (c =? newline).
    + destruct (split_lines a) as [|l ls] eqn:E; [done|]. reflexivity.
    + destruct (split_lines a) as [|l [|l2 ls]] eqn:E; [done| |]; reflexivity.
Qed.

Lemma split_lines_single x : single_line x = true -> split_lines x = [x].
Proof.
  induction x as [|c t IH]; simpl; [done|].
  intros H. apply andb_true_iff in H as [Hc Ht].
  apply negb_true_iff in Hc. rewrite Hc, IH by done. done.
Qed.

Lemma join_lines_cons l ls : join_lines (l :: ls) = l ++ join_rest ls.
Proof.
  revert l. induction ls as [|l2 ls IH]; intros l.
  - simpl. by rewrite app_nil_r.
  - change (join_lines (l :: l2 :: ls)) with (l ++ newline :: join_lines (l2 :: ls)).
    by rewrite IH.
Qed.

Lemma join_lines_hole A l r B :
  join_lines (A ++ (l ++ r) :: B) = join_lines (A ++ [l]) ++ r ++ join_rest B.
Proof.
  destruct A as [|a A].
  - change (join_lines ((l ++ r) :: B) = join_lines [l] ++ r ++ join_rest B).
    rewrite !join_lines_cons. simpl. by rewrite app_nil_r, <- app_assoc.
  - change (join_lines (a :: (A ++ (l ++ r) :: B))
            = join_lines (a :: (A ++ [l])) ++ r ++ join_rest B).
    rewrite !join_lines_cons. unfold join_rest. rewrite !flat_map_app. simpl.
    rewrite ?app_nil_r, <- ?app_assoc. simpl. by rewrite <- ?app_assoc.
Qed.

Lemma join_split s : join_lines (split_lines s) = s.
Proof.
  induction s as [|c t IH]; [done|].
  rewrite split_lines_cons. pose proof (split_lines_nonempty t) as Hne.
  destruct (split_lines t) as [|l ls] eqn:E; [done|].
  rewrite join_lines_cons in IH.
  destruct (c =? newline) eqn:Ec.
  - apply N.eqb_eq in Ec as ->. rewrite join_lines_cons. simpl.
    unfold join_rest in *. simpl. by rewrite IH.
  - simpl hd. simpl tl. rewrite join_lines_cons. simpl. by rewrite IH.
Qed.

(** ** textwrap.dedent around a replacement field *)

Lemma take_blanks_app la r :
  forallb is_blank la = false -> take_blanks (la ++ r) = take_blanks la.
Proof.
  induction la as [|c la IH]; simpl; [done|].
  destruct (is_blank c); simpl; [|done]. intros H. by rewrite IH.
Qed.

Lemma not_blank_app la r :
  forallb is_blank la = false -> forallb is_blank (la ++ r) = false.
Proof. intros H. by rewrite forallb_app, H. Qed.

Lemma blank_line_app la r :
  forallb is_blank la = false -> blank_line (la ++ r) = la ++ r.
Proof. intros H. unfold blank_line. by rewrite not_blank_app. Qed.

Lemma line_indent_app la r :
  forallb is_blank la = false -> line_indent (la ++ r) = line_indent la.
Proof.
  intros H. unfold line_indent. by rewrite not_blank_app, H, take_blanks_app.
Qed.

Lemma starts_nonblank_not_blank l :
  starts_nonblank l = true -> forallb is_blank l = false.
Proof. destruct l as [|c t]; simpl; [done|]. by destruct (is_blank c). Qed.

Lemma starts_nonblank_indent l :
  starts_nonblank l = true -> line_indent l = Some [].
Proof.
  intros H. unfold line_indent. rewrite starts_nonblank_not_blank by done.
  destruct l as [|c t]; simpl in *; [done|]. by destruct (is_blank c).
Qed.

Lemma stable_line_blank l : stable_line l -> blank_line l = l.
Proof.
  intros [->|H]; [done|]. unfold blank_line.
  by rewrite starts_nonblank_not_blank.
Qed.

Lemma starts_with_app m la r :
  (length m <= length la)%nat -> starts_with m (la ++ r) = starts_with m la.
Proof.
  revert la. induction m as [|a m IH]; intros la; simpl; [done|].
  destruct la as [|b la]; simpl; [lia|]. intros H. rewrite IH by lia. done.
Qed.

Lemma cut_margin_app m la r :
  (length m <= length la)%nat -> cut_margin m (la ++ r) = cut_margin m la ++ r.
Proof.
  intros H. unfold cut_margin. rewrite starts_with_app by done.
  destruct (starts_with m la); [|done]. by rewrite drop_app_le.
Qed.

Lemma cut_margin_nil l : cut_margin [] l = l.
Proof. done. Qed.

Lemma map_cut_margin_nil ls : map (cut_margin []) ls = ls.
Proof. induction ls as [|a ls IH]; simpl; [done|]. by rewrite IH. Qed.

(** [textwrap.dedent] cuts the margin it finds, the empty one when it finds
    none. *)
Lemma textwrap_dedent_cut text :
  textwrap_dedent text =
    let ls := map blank_line (split_lines text) in
    join_lines (map (cut_margin (default [] (margin_of ls))) ls).
Proof.
  unfold textwrap_dedent. cbv zeta.
  destruct (margin_of _) as [[|c m]|]; simpl; by rewrite ?map_cut_margin_nil.
Qed.

Lemma margin_of_hole A la r B :
  forallb is_blank la = false ->
  margin_of (A ++ (la ++ r) :: B) = margin_of (A ++ la :: B).
Proof.
  intros H. unfold margin_of. rewrite !omap_app. simpl.
  by rewrite line_indent_app.
Qed.

Lemma margin_step_nil acc : margin_step acc [] = Some [].
Proof. destruct acc as [[|c m]|]; done. Qed.

Lemma margin_fold_nil l acc :
  acc = Some [] \/ [] ∈ l -> fold_left margin_step l acc = Some [].
Proof.
  revert acc. induction l as [|i l IH]; intros acc [H|H]; simpl.
  - done.
  - by inversion H.
  - apply IH. left. by subst.
  - apply IH. apply elem_of_cons in H as [<-|H]; [|by right].
    left. apply margin_step_nil.
Qed.

Lemma margin_of_nil ls l :
  l ∈ ls -> line_indent l = Some [] -> margin_of ls = Some [].
Proof.
  intros Hin Hl. unfold margin_of. apply margin_fold_nil. right.
  apply list_elem_of_omap. eauto.
Qed.

(** The lines of a single-line field in its template. *)
Lemma split_lines_hole pre x post :
  single_line x = true ->
  split_lines (pre ++ x ++ post) =
    init_lines pre ++ (last_line pre ++ x ++ first_line post) :: rest_lines post.
Proof.
  intros Hx. rewrite split_lines_app.
  assert (split_lines (x ++ post) = (x ++ first_line post) :: rest_lines post) as E.
  { rewrite split_lines_app. unfold init_lines, last_line.
    by rewrite (split_lines_single x). }
  unfold first_line at 1, rest_lines at 1. rewrite E. reflexivity.
Qed.

(** A field of one line inside a line that has a character before it stays as
    it is, and so does the margin. *)
Lemma dedent_hole pre x post :
  single_line x = true ->
  forallb is_blank (last_line pre) = false ->
  (length (hole_margin pre post) <= length (last_line pre))%nat ->
  textwrap_dedent (pre ++ x ++ post) =
    hole_before (hole_margin pre post) pre ++ x
      ++ hole_after (hole_margin pre post) post.
Proof.
  intros Hx Hla Hlen. rewrite textwrap_dedent_cut. cbv zeta.
  rewrite split_lines_hole by done.
  rewrite map_app. simpl map. rewrite blank_line_app by done.
  rewrite margin_of_hole by done. fold (hole_margin pre post).
  rewrite map_app. simpl map. rewrite cut_margin_app by done.
  rewrite join_lines_hole. unfold hole_before, hole_after.
  by rewrite <- !app_assoc.
Qed.

Lemma first_line_stable t :
  match t with c2 :: _ => is_blank c2 | [] => false end = false ->
  stable_line (first_line t).
Proof.
  unfold first_line. destruct t as [|c2 t2]; intros H; [by left|].
  rewrite split_lines_cons. destruct (c2 =? newline); [by left|].
  right. simpl. by rewrite H.
Qed.

(** After a line feed that no blank follows, every line is empty or starts
    with a character that is not a blank. *)
Lemma rest_lines_stable s :
  no_blank_after_newline s = true -> Forall stable_line (rest_lines s).
Proof.
  unfold rest_lines. induction s as [|c t IH]; [constructor|].
  intros H. simpl in H. apply andb_true_iff in H as [Hc Ht].
  rewrite split_lines_cons. destruct (c =? newline) eqn:Ec; simpl in *.
  - pose proof (split_lines_nonempty t) as Hne.
    apply negb_true_iff in Hc. apply first_line_stable in Hc.
    unfold first_line in Hc.
    destruct (split_lines t) as [|l ls]; [done|]. constructor; [done | auto].
  - auto.
Qed.

Lemma rest_lines_multiline s : single_line s = false -> rest_lines s <> [].
Proof.
  unfold rest_lines. induction s as [|c t IH]; [done|].
  simpl single_line. rewrite split_lines_cons.
  destruct (c =? newline); simpl.
  - intros _. apply split_lines_nonempty.
  - apply IH.
Qed.

Lemma join_rest_app A B : join_rest (A ++ B) = join_rest A ++ join_rest B.
Proof. apply flat_map_app. Qed.

Lemma map_blank_stable ls : Forall stable_line ls -> map blank_line ls = ls.
Proof.
  induction 1 as [|l ls Hl _ IH]; simpl; [done|].
  by rewrite stable_line_blank, IH.
Qed.

(** A field of several lines, none of which starts with a blank after the
    first: the margin is empty and the field stays as it is. *)
Lemma dedent_hole_multiline pre d post :
  single_line d = false ->
  no_blank_after_newline d = true ->
  forallb is_blank (last_line pre) = false ->
  starts_nonblank (first_line post) = true ->
  textwrap_dedent (pre ++ d ++ post) = hole_before [] pre ++ d ++ hole_after [] post.
Proof.
  intros Hd Hnb Hla Hfl.
  pose proof (rest_lines_stable d Hnb) as Hst.
  pose proof (rest_lines_multiline d Hd) as Hne.
  pose proof (join_split d) as Hjoin.
  pose proof (split_lines_nonempty d) as Hd0.
  unfold rest_lines in Hst, Hne.
  destruct (split_lines d) as [|l0 T] eqn:Ed; [done|]. simpl in Hst, Hne.
  destruct (exists_last Hne) as (M & ld & ->).
  apply Forall_app in Hst as [HM Hld]. apply Forall_cons in Hld as [Hld _].
  assert (split_lines (d ++ post)
          = l0 :: M ++ (ld ++ first_line post) :: rest_lines post) as E.
  { rewrite split_lines_app. unfold init_lines, last_line. rewrite Ed.
    change (l0 :: M ++ [ld]) with ((l0 :: M) ++ [ld]).
    by rewrite removelast_last, last_last. }
  assert (starts_nonblank (ld ++ first_line post) = true) as Hmid.
  { destruct Hld as [->|Hld]; [done|]. by destruct ld. }
  rewrite textwrap_dedent_cut. cbv zeta.
  rewrite split_lines_app.
  assert (first_line (d ++ post) = l0) as -> by (unfold first_line; by rewrite E).
  assert (rest_lines (d ++ post) = M ++ (ld ++ first_line post) :: rest_lines post)
    as -> by (unfold rest_lines; by rewrite E).
  rewrite !map_app. simpl map. rewrite !map_app. simpl map.
  rewrite (blank_line_app (last_line pre)) by done.
  rewrite (map_blank_stable M) by done.
  rewrite (stable_line_blank (ld ++ _)) by (by right).
  erewrite margin_of_nil; cycle 1.
  { apply elem_of_app. right. apply elem_of_cons. right.
    apply elem_of_app. right. apply elem_of_cons. by left. }
  { by apply starts_nonblank_indent. }
  simpl default. rewrite ?map_cut_margin_nil.
  repeat match goal with
         | |- context [cut_margin [] ?x] => change (cut_margin [] x) with x
         end.
  rewrite join_lines_hole. unfold hole_before, hole_after.
  rewrite !map_cut_margin_nil, cut_margin_nil.
  rewrite join_rest_app. rewrite <- Hjoin, join_lines_cons, join_rest_app.
  unfold join_rest. simpl flat_map.
  rewrite ?app_nil_r, <- ?app_assoc. simpl. by rewrite <- ?app_assoc.
Qed.

(** ** str.strip around a replacement field *)

Lemma lstrip_by_app f a r :
  lstrip_by f a <> [] -> lstrip_by f (a ++ r) = lstrip_by f a ++ r.
Proof.
  induction a as [|c a IH]; simpl; [done|]. destruct (f c); [exact IH | done].
Qed.

Lemma rstrip_by_app f a b :
  rstrip_by f b <> [] -> rstrip_by f (a ++ b) = a ++ rstrip_by f b.
Proof.
  intros H. induction a as [|c a IH]; [done|].
  simpl. rewrite IH. destruct (a ++ rstrip_by f b) eqn:E; [|done].
  apply app_eq_nil in E as [_ E]. done.
Qed.

Lemma strip_by_hole f P x Q :
  lstrip_by f P <> [] -> rstrip_by f Q <> [] ->
  strip_by f (P ++ x ++ Q) = lstrip_by f P ++ x ++ rstrip_by f Q.
Proof.
  intros HP HQ. unfold strip_by. rewrite lstrip_by_app by done.
  assert (rstrip_by f (x ++ Q) = x ++ rstrip_by f Q) as E by (by apply rstrip_by_app).
  rewrite rstrip_by_app; rewrite E; [done|].
  intros H. apply app_eq_nil in H as [_ H]. done.
Qed.

(** A renderer with one field: [dedent(pre + x + post).strip() + "\n"]. *)
Lemma render_hole pre x post m :
  textwrap_dedent (pre ++ x ++ post) = hole_before m pre ++ x ++ hole_after m post ->
  lstrip_by is_space (hole_before m pre) <> [] ->
  rstrip_by is_space (hole_after m post) <> [] ->
  str_strip (textwrap_dedent (pre ++ x ++ post)) ++ py "\n" =
    lstrip_by is_space (hole_before m pre) ++ x
      ++ rstrip_by is_space (hole_after m post) ++ py "\n".
Proof.
  intros -> HP HQ. unfold str_strip. rewrite strip_by_hole by done.
  by rewrite <- !app_assoc.
Qed.

Lemma single_line_elem x : single_line x = true <-> newline ∉ x.
Proof.
  unfold single_line. induction x as [|c t IH]; simpl.
  - split; [intros _ H; inversion H | done].
  - rewrite andb_true_iff, negb_true_iff, N.eqb_neq, IH, not_elem_of_cons.
    split; intros [? ?]; split; congruence.
Qed.

(** Both sides are [A ++ x ++ B] with closed [A] and [B]: compare them by
    evaluation. *)
Ltac hole_eq x :=
  match goal with
  | |- ?A ++ x ++ ?B = ?A' ++ x ++ ?B' =>
      replace A with A' by (vm_compute; reflexivity);
      replace B with B' by (vm_compute; reflexivity);
      reflexivity
  end.

(** ** build_main_cpp *)

Lemma build_main_cpp_single_line d :
  single_line d = true -> build_main_cpp d = main_cpp_head ++ d ++ main_cpp_tail.
Proof.
  intros Hd. unfold build_main_cpp.
  match goal with
  | |- str_strip (textwrap_dedent (?pre ++ d ++ ?post)) ++ _ = _ =>
      rewrite (render_hole pre d post (hole_margin pre post));
      [ | apply dedent_hole; [done | by vm_compute | vm_compute; lia]
        | by vm_compute | by vm_compute ]
  end.
  hole_eq d.
Qed.

Lemma contains_hole p q P x Q :
  starts_with (rev p) (rev P) = true -> starts_with q Q = true ->
  contains (p ++ x ++ q) (P ++ x ++ Q).
Proof.
  intros HP HQ. apply starts_with_spec in HP as (r & HP), HQ as (Q0 & ->).
  apply (f_equal (@rev N)) in HP. rewrite rev_involutive, rev_app_distr, rev_involutive in HP.
  subst P. exists (rev r), Q0. by rewrite <- !app_assoc.
Qed.

Lemma build_main_cpp_multiline d :
  single_line d = false -> no_blank_after_newline d = true ->
  exists P Q, build_main_cpp d = P ++ d ++ Q
    /\ starts_with (rev (py "Application app(\x22")) (rev P) = true
    /\ starts_with (py "\x22, 1280, 720);") Q = true.
Proof.
  intros Hd Hnb. unfold build_main_cpp.
  match goal with
  | |- context [str_strip (textwrap_dedent (?pre ++ d ++ ?post))] =>
      rewrite (render_hole pre d post []);
      [ | apply dedent_hole_multiline; [done | done | by vm_compute | by vm_compute]
        | by vm_compute | by vm_compute ];
      exists (lstrip_by is_space (hole_before [] pre)),
        (rstrip_by is_space (hole_after [] post) ++ py "\n")
  end.
  split; [done|]. split; by vm_compute.
Qed.

(** ** build_cmakelists *)

Lemma build_cmakelists_single_line s :
  single_line s = true ->
  build_cmakelists s = cmakelists_head ++ s ++ cmakelists_tail.
Proof.
  intros Hs. unfold build_cmakelists.
  match goal with
  | |- str_strip (textwrap_dedent (?pre ++ s ++ ?post)) ++ _ = _ =>
      rewrite (render_hole pre s post (hole_margin pre post));
      [ | apply dedent_hole; [done | by vm_compute | vm_compute; lia]
        | by vm_compute | by vm_compute ]
  end.
  hole_eq s.
Qed.

Lemma slugify_inr_shape d s : slugify d = inr s -> slug_shape s.
Proof.
  intros H. destruct (slug_in_lower_dec d) as [He|Hn].
  - apply slugify_shape in He as (s' & Hs' & Hshape). congruence.
  - apply slugify_refuses in Hn. congruence.
Qed.

Lemma slug_single_line s : slug_shape s -> single_line s = true.
Proof.
  intros [_ Ha _ _ _]. unfold single_line. apply forallb_forall.
  intros c Hc. rewrite Forall_forall in Ha. apply list_elem_of_In, Ha in Hc.
  apply negb_true_iff, N.eqb_neq. destruct Hc as [Hc| ->]; charclass.
Qed.

(** * The claims about the renderers *)

(** C3.  For every display name with slug [s], the build descriptor is the
    fixed text with [s] as the name of the project (the target is named
    [${PROJECT_NAME}] after it); the text pins the C++ standard to 20 and the
    four dependencies to glfw 3.4, glm 1.0.1, glad v0.1.36 and imgui v1.90.4,
    whatever the display name. *)
Theorem build_cmakelists_pins d s :
  slugify d = inr s ->
  build_cmakelists s = cmakelists_head ++ s ++ cmakelists_tail
  /\ contains (py "project(" ++ s ++ py " VERSION 0.1.0 LANGUAGES CXX)\n")
       (build_cmakelists s)
  /\ contains (py "\nadd_executable(${PROJECT_NAME}\n") cmakelists_tail
  /\ contains (py "\nset(CMAKE_CXX_STANDARD 20)\nset(CMAKE_CXX_STANDARD_REQUIRED ON)\n")
       cmakelists_tail
  /\ contains (py "FetchContent_Declare(\n    glfw\n    GIT_REPOSITORY https://github.com/glfw/glfw.git\n    GIT_TAG 3.4\n)\n")
       cmakelists_tail
  /\ contains (py "FetchContent_Declare(\n    glm\n    GIT_REPOSITORY https://github.com/g-truc/glm.git\n    GIT_TAG 1.0.1\n)\n")
       cmakelists_tail
  /\ contains (py "FetchContent_Declare(\n    glad\n    GIT_REPOSITORY https://github.com/Dav1dde/glad.git\n    GIT_TAG v0.1.36\n")
       cmakelists_tail
  /\ contains (py "FetchContent_Declare(\n    imgui\n    GIT_REPOSITORY https://github.com/ocornut/imgui.git\n    GIT_TAG v1.90.4\n)\n")
       cmakelists_tail.
Proof.
  intros Hs. apply slugify_inr_shape, slug_single_line in Hs.
  rewrite build_cmakelists_single_line by done.
  split; [done|]. split.
  { apply contains_hole; vm_compute; reflexivity. }
  repeat split; apply containsb_spec; vm_compute; reflexivity.
Qed.

Lemma build_cmakelists_pins_witness :
  slugify (py "My Game!!") = inr (py "my_game")
  /\ build_cmakelists (py "my_game") = cmakelists_head ++ py "my_game" ++ cmakelists_tail.
Proof.
  split; [reflexivity|].
  exact (proj1 (build_cmakelists_pins (py "My Game!!") (py "my_game") eq_refl)).
Defined.




(** C10, as the code has it.  Whenever no line feed of the display name is
    followed by a space or a tab, the entry-point source has the display name
    character for character between the quotes of the constructor call:
    double quotes, backslashes and such line feeds are not escaped. *)
Theorem build_main_cpp_no_escaping d :
  no_blank_after_newline d = true ->
  contains (py "Application app(\x22" ++ d ++ py "\x22, 1280, 720);") (build_main_cpp d).
Proof.
  intros Hnb. destruct (single_line d) eqn:Hd.
  - rewrite build_main_cpp_single_line by done.
    apply contains_hole; vm_compute; reflexivity.
  - destruct (build_main_cpp_multiline d Hd Hnb) as (P & Q & -> & HP & HQ).
    by apply contains_hole.
Qed.

Lemma build_main_cpp_no_escaping_witness :
  no_blank_after_newline (py "say \x22hi\x22 \\o/\nnow") = true
  /\ contains (py "Application app(\x22" ++ py "say \x22hi\x22 \\o/\nnow" ++ py "\x22, 1280, 720);")
       (build_main_cpp (py "say \x22hi\x22 \\o/\nnow")).
Proof.
  split; [reflexivity|].
  exact (build_main_cpp_no_escaping (py "say \x22hi\x22 \\o/\nnow") eq_refl).
Defined.

(** C10 as stated fails: of the ten spaces that follow the line feed in the
    display name, [textwrap.dedent] removes eight with the margin. *)
Lemma build_main_cpp_margin_cut :
  ~ contains (py "a\n          b") (build_main_cpp (py "a\n          b"))
  /\ contains (app_constructor_call (py "a\n  b")) (build_main_cpp (py "a\n          b")).
Proof.
  split; [apply not_contains | apply containsb_spec]; vm_compute; reflexivity.
Qed.

(** * Properties of the file operations *)

Lemma safe_write_spec e p c force w :
  safe_write e p c force w =
    match write_refusal e force (w_fs w) p with
    | Some ex => (inl ex, w)
    | None =>
        (inr tt, set_fs w (<[p := File c (write_mode e (w_fs w) p)]> (w_fs w)) (EvWrite p))
    end.
Proof.
  unfold safe_write, write_refusal, write_mode, M_bind, path_exists, raise, write_text.
  destruct (bool_decide (is_Some (w_fs w !! p)) && negb force); [done|].
  destruct (env_write_fault e p); [done|].
  destruct (w_fs w !! p) as [[|c0 m]|]; [done|done|].
  by destruct (w_fs w !! parent p) as [[|c1 m1]|].
Qed.

Lemma run_entry_spec e force en w :
  run_entry e force en w =
    match write_refusal e force (w_fs w) (e_path en) with
    | Some ex => (inl ex, w)
    | None => (inr tt, after_entry e w en)
    end.
Proof.
  unfold run_entry, M_bind. rewrite safe_write_spec.
  destruct (write_refusal _ _ _ _); [done|].
  unfold after_entry, entry_mode, entry_events.
  destruct (e_chmod en) as [m|]; [|done].
  unfold chmod, set_fs. simpl.
  rewrite lookup_insert_eq, insert_insert_eq. by rewrite <- app_assoc.
Qed.

Lemma write_refusal_frame e force fs p q n :
  q <> p -> q <> parent p ->
  write_refusal e force (<[q := n]> fs) p = write_refusal e force fs p.
Proof.
  intros H1 H2. unfold write_refusal.
  by rewrite !lookup_insert_ne by done.
Qed.

Lemma first_refused_frame e force fs q n ens :
  Forall (fun p => p <> q /\ parent p <> q) (map e_path ens) ->
  first_refused e force (<[q := n]> fs) ens = first_refused e force fs ens.
Proof.
  induction ens as [|en rest IH]; simpl; [done|].
  intros H. apply Forall_cons in H as [[H1 H2] H].
  rewrite write_refusal_frame, IH by done. done.
Qed.

(** The [try] block runs its entries up to the first one that is refused. *)
Lemma run_entries_spec e force ens w :
  plan_sep (map e_path ens) ->
  run_entries e force ens w =
    match first_refused e force (w_fs w) ens with
    | Some (k, ex) => (inl ex, after_entries e w (take k ens))
    | None => (inr tt, after_entries e w ens)
    end.
Proof.
  revert w. induction ens as [|en rest IH]; intros w Hsep; [done|].
  destruct Hsep as [Hen Hsep]. simpl run_entries. simpl first_refused.
  unfold M_bind. rewrite run_entry_spec.
  destruct (write_refusal e force (w_fs w) (e_path en)) as [ex|]; [done|].
  rewrite IH by done. unfold after_entry at 1. simpl w_fs.
  rewrite first_refused_frame by done.
  by destruct (first_refused e force (w_fs w) rest) as [[k ex]|].
Qed.

Lemma after_entries_frame e ens w q :
  q ∉ map e_path ens -> w_fs (after_entries e w ens) !! q = w_fs w !! q.
Proof.
  revert w. induction ens as [|en rest IH]; intros w Hq; [done|].
  simpl in Hq. apply not_elem_of_cons in Hq as [Hq1 Hq2].
  unfold after_entries in *. simpl. rewrite IH by done.
  unfold after_entry. simpl. by rewrite lookup_insert_ne.
Qed.

Lemma after_entries_trace e ens w :
  w_trace (after_entries e w ens) = w_trace w ++ flat_map entry_events ens.
Proof.
  revert w. induction ens as [|en rest IH]; intros w; simpl.
  - by rewrite app_nil_r.
  - unfold after_entries in *. simpl. rewrite IH. unfold after_entry. simpl.
    by rewrite <- app_assoc.
Qed.

Lemma after_entries_streams e ens w :
  w_stdin (after_entries e w ens) = w_stdin w
  /\ w_stdout (after_entries e w ens) = w_stdout w.
Proof.
  revert w. induction ens as [|en rest IH]; intros w; [done|].
  unfold after_entries in *. simpl. by destruct (IH (after_entry e w en)) as [-> ->].
Qed.



(** A written file holds what its entry wrote, whatever is written after. *)
Lemma after_entries_lookup e ens w j en :
  plan_sep (map e_path ens) -> ens !! j = Some en ->
  exists m, w_fs (after_entries e w ens) !! e_path en = Some (File (e_contents en) m)
    /\ (forall m', e_chmod en = Some m' -> m = m')
    /\ (e_chmod en = None -> m = write_mode e (w_fs w) (e_path en)).
Proof.
  revert w j. induction ens as [|en0 rest IH]; intros w j Hsep Hj; [done|].
  destruct Hsep as [Hen Hsep]. destruct j as [|j]; simpl in Hj.
  - injection Hj as ->. unfold after_entries. simpl.
    change (fold_left (after_entry e) rest (after_entry e w en))
      with (after_entries e (after_entry e w en) rest).
    rewrite after_entries_frame.
    + unfold after_entry. simpl. rewrite lookup_insert_eq. eexists. split; [done|].
      unfold entry_mode. split; [by intros m' -> | by intros ->].
    + intros Hin. rewrite Forall_forall in Hen. by apply Hen in Hin as [? _].
  - destruct (IH (after_entry e w en0) j Hsep Hj) as (m & Hm & Hc & Hn).
    exists m. split; [done|]. split; [done|]. intros Hnone. rewrite (Hn Hnone).
    unfold write_mode, after_entry. simpl. rewrite lookup_insert_ne; [done|].
    rewrite Forall_forall in Hen. intros Heq.
    assert (e_path en ∈ map e_path rest) as Hin.
    { apply list_elem_of_fmap. exists en. split; [done|]. by apply list_elem_of_lookup_2 in Hj. }
    apply Hen in Hin as [Hne _]. congruence.
Qed.

(** ** The plan of the [try] block *)

Lemma main_files_plan e force d s root w :
  main_files e force d s root w = run_entries e force (file_plan d s root) w.
Proof.
  unfold main_files, file_plan, run_entries, run_entry, M_bind, M_ret. simpl.
  repeat match goal with
         | |- context [safe_write ?e ?p ?c ?f ?w0] =>
             destruct (safe_write e p c f w0) as [[?|[]] ?]; try reflexivity
         | |- context [chmod ?p ?m ?w0] =>
             destruct (chmod p m w0) as [[?|[]] ?]; try reflexivity
         end.
Qed.

Lemma file_plan_paths d s root : map e_path (file_plan d s root) = write_order root.
Proof. unfold file_plan, write_order. simpl. by rewrite <- !app_assoc. Qed.

Lemma parent_app root l : l <> [] -> parent (root ++ l) = root ++ removelast l.
Proof. intros H. unfold parent. by apply removelast_app. Qed.

(** Two paths below the same directory with different closed suffixes. *)
Ltac path_neq :=
  let H := fresh in
  intros H; apply app_inv_head in H; vm_compute in H; discriminate H.

Lemma write_order_sep root : plan_sep (write_order root).
Proof.
  unfold write_order, plan_sep.
  repeat (split; [repeat (apply Forall_cons; split; [split|]); try apply Forall_nil|]);
    try exact I;
    try (rewrite parent_app by discriminate; simpl removelast);
    path_neq.
Qed.

Lemma write_order_NoDup root : NoDup (write_order root).
Proof.
  unfold write_order.
  repeat (apply NoDup_cons_2;
          [rewrite ?not_elem_of_cons; repeat split; try path_neq; apply not_elem_of_nil|]).
  apply NoDup_nil_2.
Qed.


Lemma write_refusal_is_Exception e force fs p ex :
  write_refusal e force fs p = Some ex -> is_Exception (exn_class ex) = true.
Proof.
  unfold write_refusal.
  destruct (_ && _); [by intros [= <-]|].
  destruct (env_write_fault e p); [by intros [= <-]|].
  destruct (fs !! p) as [[|c m]|]; [by intros [= <-]|done|].
  destruct (fs !! parent p) as [[|c m]|]; by intros [= <-].
Qed.

(** ** The phases of main *)

Lemma py_app_nonempty (a b : pystr) : a <> [] -> a ++ b <> [].
Proof. by destruct a. Qed.

(** [x or f(input(prompt))]: the streams move, nothing else; a value that is
    given and not empty is taken as it is. *)
Lemma or_else_input x prompt f w r w1 :
  or_else x (s <- input prompt ;; M_ret (f s)) w = (r, w1) ->
  w_fs w1 = w_fs w /\ w_trace w1 = w_trace w
  /\ match r with
     | inl ex => ex = Exn EOFError (py "EOF when reading a line")
     | inr v =>
         (forall n, x = Some n -> n <> [] -> v = n /\ w1 = w)
         /\ (match x with Some (_ :: _) => False | _ => True end ->
             exists l rest, w_stdin w = l :: rest /\ v = f l)
     end.
Proof.
  unfold or_else, M_bind, input, M_ret.
  destruct x as [[|c n]|]; [| |]; destruct (w_stdin w) as [|l rest] eqn:Ein;
    intros [= <- <-]; simpl; repeat split; try done; eauto.
  all: congruence.
Qed.

(** Reading the inputs touches the streams only; it returns a name that is
    not empty and a base directory that exists, or ends the run with a
    message. *)
Lemma main_inputs_spec e a w r w1 :
  main_inputs e a w = (r, w1) ->
  w_fs w1 = w_fs w /\ w_trace w1 = w_trace w
  /\ match r with
     | inl ex => exn_class ex <> ValueError /\ stderr_last_line ex <> []
     | inr (d, base) =>
         d <> [] /\ is_Some (w_fs w !! base)
         /\ (forall n, args_name a = Some n -> n <> [] -> d = n)
         /\ (match args_name a with Some (_ :: _) => False | _ => True end ->
             exists l rest, w_stdin w = l :: rest /\ d = str_strip l)
     end.
Proof.
  unfold main_inputs. unfold M_bind at 1.
  destruct (or_else (args_name a) _ w) as [[ex|d] w0] eqn:E0;
    apply or_else_input in E0 as (Hfs0 & Htr0 & H0).
  { intros [= <- <-]. subst ex. repeat split; done. }
  destruct H0 as [Hgiven Hprompt].
  destruct d as [|c d].
  { intros [= <- <-]. repeat split; done. }
  unfold M_bind at 1.
  destruct (or_else (args_location a) _ w0) as [[ex|b] w2] eqn:E2;
    apply or_else_input in E2 as (Hfs2 & Htr2 & H2).
  { intros [= <- <-]. subst ex. repeat split; try congruence; done. }
  unfold M_bind, path_exists, sys_exit, raise, M_ret.
  destruct (bool_decide (is_Some (w_fs w2 !! env_resolve e b))) eqn:Eb; simpl.
  - intros [= <- <-]. apply bool_decide_eq_true in Eb. rewrite Hfs2, Hfs0 in Eb.
    repeat split; try congruence; try done.
    all: try (intros n Hn Hne; by destruct (Hgiven n Hn Hne)).
  - intros [= <- <-]. repeat split; try congruence; done.
Qed.


Lemma parent_snoc (p : path) x : parent (p ++ [x]) = p.
Proof. apply removelast_last. Qed.

Lemma snoc_neq (p : path) x : p ++ [x] <> p.
Proof.
  intros H. apply (f_equal length) in H. rewrite length_app in H. simpl in H. lia.
Qed.

(** In a well-formed file system nothing lies below a path that is absent. *)
Lemma wf_absent_under fs root k :
  fs_wf fs -> fs !! root = None -> fs !! (root ++ k) = None.
Proof.
  intros Hwf Hroot. induction k as [|x k IH] using rev_ind.
  - by rewrite app_nil_r.
  - destruct (fs !! (root ++ k ++ [x])) as [n|] eqn:E; [|done].
    assert (fs !! parent (root ++ k ++ [x]) = Some Dir) as Hp.
    { apply Hwf; [by destruct root, k | by rewrite E]. }
    rewrite app_assoc, parent_snoc in Hp. congruence.
Qed.

Lemma os_mkdir_new p w :
  w_fs w !! p = None -> w_fs w !! parent p = Some Dir ->
  os_mkdir p w = (inr tt, set_fs w (<[p := Dir]> (w_fs w)) (EvMkdir p)).
Proof. intros H1 H2. unfold os_mkdir. by rewrite H1, H2. Qed.

Lemma mkdir_no_parents_new p exist_ok w :
  w_fs w !! p = None -> w_fs w !! parent p = Some Dir ->
  mkdir_no_parents p exist_ok w
    = (inr tt, set_fs w (<[p := Dir]> (w_fs w)) (EvMkdir p)).
Proof.
  intros H1 H2. unfold mkdir_no_parents, try_except. by rewrite os_mkdir_new.
Qed.

(** [mkdir(parents=True, exist_ok=False)] on a path that exists. *)
Lemma Path_mkdir_exists p w :
  is_Some (w_fs w !! p) ->
  Path_mkdir p true false w
    = (inl (os_error FileExistsError (py "17") (py "File exists") p), w).
Proof.
  intros [n Hn]. unfold Path_mkdir.
  destruct (length p); simpl; unfold try_except, os_mkdir; rewrite Hn; simpl;
    unfold M_bind, path_is_dir, raise; by destruct n.
Qed.

(** [mkdir(parents=True, exist_ok=False)] on a fresh path whose parent
    exists. *)
Lemma Path_mkdir_fresh (base : path) s w r w' :
  w_fs w !! (base ++ [s]) = None -> is_Some (w_fs w !! base) ->
  Path_mkdir (base ++ [s]) true false w = (r, w') ->
  match r with
  | inr _ =>
      w_fs w !! base = Some Dir
      /\ w' = set_fs w (<[base ++ [s] := Dir]> (w_fs w)) (EvMkdir (base ++ [s]))
  | inl ex => exn_class ex = NotADirectoryError /\ w' = w
  end.
Proof.
  intros Hroot [n Hbase]. unfold Path_mkdir.
  rewrite length_app, Nat.add_1_r. simpl.
  unfold try_except, os_mkdir. rewrite Hroot, parent_snoc, Hbase.
  destruct n as [|c m]; [by intros [= <- <-]|].
  simpl. unfold M_bind, path_is_dir, raise. rewrite ?Hroot. simpl.
  by intros [= <- <-].
Qed.

(** The directory phase on a fresh project directory. *)
Lemma main_directories_fresh force (base : path) s w r w2 :
  fs_wf (w_fs w) ->
  w_fs w !! (base ++ [s]) = None -> is_Some (w_fs w !! base) ->
  main_directories force (base ++ [s]) w = (r, w2) ->
  match r with
  | inr _ =>
      w_fs w2 = <[(base ++ [s]) ++ [py "cmake"] := Dir]>
                  (<[(base ++ [s]) ++ [py "src"] := Dir]>
                     (<[base ++ [s] := Dir]> (w_fs w)))
  | inl ex => w_fs w2 = w_fs w /\ w_trace w2 = w_trace w
  end.
Proof.
  intros Hwf Hroot Hbase. unfold main_directories.
  unfold M_bind at 1. unfold try_except at 1.
  destruct (Path_mkdir (base ++ [s]) true false w) as [[ex|[]] w1] eqn:E1;
    apply Path_mkdir_fresh in E1; try done.
  { destruct E1 as [Hc ->]. rewrite Hc. simpl. by intros [= <- <-]. }
  destruct E1 as [Hb ->].
  unfold M_bind at 1. unfold Path_mkdir at 1.
  rewrite mkdir_no_parents_new; cycle 1.
  { simpl. rewrite lookup_insert_ne by apply not_eq_sym, snoc_neq.
    by apply wf_absent_under. }
  { rewrite parent_snoc. simpl. by rewrite lookup_insert_eq. }
  unfold Path_mkdir. rewrite mkdir_no_parents_new; cycle 1.
  { simpl. rewrite lookup_insert_ne by path_neq.
    rewrite lookup_insert_ne by apply not_eq_sym, snoc_neq.
    by apply wf_absent_under. }
  { rewrite parent_snoc. simpl.
    rewrite lookup_insert_ne by apply snoc_neq. by rewrite lookup_insert_eq. }
  by intros [= <- <-].
Qed.

(** Without [--force] the directory phase only passes a fresh path. *)
Lemma main_directories_no_force root w w2 :
  main_directories false root w = (inr tt, w2) -> w_fs w !! root = None.
Proof.
  intros H. destruct (w_fs w !! root) as [n|] eqn:E; [|done]. exfalso.
  unfold main_directories in H. unfold M_bind at 1 in H. unfold try_except at 1 in H.
  rewrite Path_mkdir_exists in H by (by rewrite E). simpl in H. done.
Qed.

(** [main] after its inputs: the directory phase, the [try] block, the
    report. *)
Lemma main_unfold e a w d base w1 s :
  main_inputs e a w = (inr (d, base), w1) ->
  slugify d = inr s ->
  main e a w =
    match main_directories (args_force a) (base ++ [s]) w1 with
    | (inl ex, w2) => (inl ex, w2)
    | (inr _, w2) =>
        match first_refused e (args_force a) (w_fs w2) (file_plan d s (base ++ [s])) with
        | Some (k, ex) =>
            (inl (Exn SystemExit (py "Failed to write project files: " ++ exn_str ex)),
             after_entries e w2 (take k (file_plan d s (base ++ [s]))))
        | None =>
            (print (py "✅ Created project at " ++ path_str (base ++ [s])) ;;;
             print (py "Next steps:") ;;;
             print (py "  cd " ++ path_str (base ++ [s])) ;;;
             print (py "  cmake -S . -B build") ;;;
             print (py "  cmake --build build") ;;;
             print (py "  ./build/" ++ s))
              (after_entries e w2 (file_plan d s (base ++ [s])))
        end
    end.
Proof.
  intros Hin Hs. unfold main. unfold M_bind at 1. rewrite Hin. simpl fst. simpl snd.
  unfold M_bind at 1. unfold lift. rewrite Hs.
  unfold M_bind at 1.
  destruct (main_directories _ _ w1) as [[ex|[]] w2]; [done|].
  unfold M_bind at 1. unfold try_except.
  rewrite main_files_plan, run_entries_spec
    by (rewrite file_plan_paths; apply write_order_sep).
  destruct (first_refused _ _ _ _) as [[k ex]|] eqn:E; [|done].
  assert (is_Exception (exn_class ex) = true) as ->; [|done].
  clear -E. revert k E.
  induction (file_plan d s (base ++ [s])) as [|en rest IH]; intros k; simpl; [done|].
  destruct (write_refusal _ _ _ (e_path en)) as [ex'|] eqn:Er.
  - intros [= <- <-]. by apply write_refusal_is_Exception in Er.
  - destruct (first_refused _ _ _ rest) as [[k' ex']|]; [|done].
    intros [= <- <-]. by apply (IH k').
Qed.

Lemma report_frame (l1 l2 l3 l4 l5 l6 : pystr) w :
  exists w',
    (print l1 ;;; print l2 ;;; print l3 ;;; print l4 ;;; print l5 ;;; print l6) w
      = (inr tt, w')
    /\ w_fs w' = w_fs w /\ w_trace w' = w_trace w.
Proof. unfold M_bind, print. simpl. eauto. Qed.

Lemma ldiff_no_exec u : N.land (N.ldiff mode_0o666 u) mode_exec_bits = 0.
Proof.
  apply N.bits_inj. intros n. rewrite N.land_spec, N.ldiff_spec, N.bits_0.
  assert (N.testbit mode_0o666 n && N.testbit mode_exec_bits n = false) as H.
  { rewrite <- N.land_spec. change (N.land mode_0o666 mode_exec_bits) with 0.
    apply N.bits_0. }
  destruct (N.testbit mode_0o666 n), (N.testbit mode_exec_bits n),
    (N.testbit u n); done.
Qed.

(** Only the build script is made executable. *)
Lemma file_plan_chmod d s root j en :
  file_plan d s root !! j = Some en ->
  (e_chmod en = Some mode_0o755 /\ e_path en = root ++ [py "build.sh"])
  \/ (e_chmod en = None /\ e_path en <> root ++ [py "build.sh"]).
Proof.
  unfold file_plan.
  do 9 (destruct j as [|j];
        [intros [= <-]; simpl;
         first [ left; split; reflexivity
               | right; split; [reflexivity | rewrite <- ?app_assoc; path_neq] ] |]).
  done.
Qed.

(** A run whose result is known ends in the world it ends in. *)
Lemma run_result {A} (x : (exn + A) * world) r : fst x = r -> x = (r, snd x).
Proof. intros <-. by destruct x. Qed.



(** * The claims about main *)



(** C5.  When the project directory exists and [--force] is not given, the
    run ends with the message that the directory exists (status 1); the file
    system is as it was: no subdirectory was made and no file written. *)
Theorem main_existing_project_dir e a w d base w1 s :
  args_force a = false ->
  main_inputs e a w = (inr (d, base), w1) ->
  slugify d = inr s ->
  is_Some (w_fs w !! (base ++ [s])) ->
  main e a w =
    (inl (Exn SystemExit
            (py "Project directory already exists: " ++ path_str (base ++ [s])
             ++ py " (use --force to reuse it)")), w1)
  /\ exit_status (fst (main e a w)) = 1
  /\ w_fs w1 = w_fs w /\ w_trace w1 = w_trace w.
Proof.
  intros Hforce Hin Hs Hroot.
  pose proof (main_inputs_spec _ _ _ _ _ Hin) as (Hfs & Htr & _).
  assert (main e a w =
    (inl (Exn SystemExit
            (py "Project directory already exists: " ++ path_str (base ++ [s])
             ++ py " (use --force to reuse it)")), w1)) as Hmain.
  { rewrite (main_unfold e a w d base w1 s) by done.
    unfold main_directories. unfold M_bind at 1. unfold try_except at 1.
    rewrite Path_mkdir_exists by (by rewrite Hfs). rewrite Hforce. reflexivity. }
  rewrite Hmain. done.
Qed.

Lemma main_existing_project_dir_witness :
  main demo_env (demo_args (py "My Game!!") false) (demo_world [(demo_root, Dir)]) =
    (inl (Exn SystemExit
            (py "Project directory already exists: " ++ path_str ([py "tmp"] ++ [py "my_game"])
             ++ py " (use --force to reuse it)")), demo_world [(demo_root, Dir)])
  /\ exit_status (fst (main demo_env (demo_args (py "My Game!!") false)
                         (demo_world [(demo_root, Dir)]))) = 1
  /\ w_fs (demo_world [(demo_root, Dir)]) = w_fs (demo_world [(demo_root, Dir)])
  /\ w_trace (demo_world [(demo_root, Dir)]) = w_trace (demo_world [(demo_root, Dir)]).
Proof.
  apply (main_existing_project_dir demo_env (demo_args (py "My Game!!") false)
           (demo_world [(demo_root, Dir)]) (py "My Game!!") [py "tmp"]
           (demo_world [(demo_root, Dir)]) (py "my_game")).
  - reflexivity.
  - vm_compute. reflexivity.
  - reflexivity.
  - vm_compute. eexists. reflexivity.
Defined.



Lemma write_order_under root p :
  p ∈ write_order root ->
  (exists t, p = root ++ t)
  /\ p <> root /\ p <> root ++ [py "src"] /\ p <> root ++ [py "cmake"].
Proof.
  unfold write_order. rewrite !elem_of_cons, elem_of_nil.
  intros H. repeat destruct H as [->|H]; try done;
    (split; [eauto|]); repeat split; try path_neq;
    intros H; apply (f_equal length) in H; rewrite length_app in H; simpl in H; lia.
Qed.

(** Below a fresh project directory the directory phase leaves the three
    directories and nothing else. *)
Lemma fresh_dirs_lookup (fs : gmap path node) root t :
  fs_wf fs -> fs !! root = None ->
  root ++ t <> root -> root ++ t <> root ++ [py "src"] ->
  root ++ t <> root ++ [py "cmake"] ->
  <[root ++ [py "cmake"] := Dir]>
    (<[root ++ [py "src"] := Dir]> (<[root := Dir]> fs)) !! (root ++ t) = None.
Proof.
  intros Hwf Hroot H1 H2 H3. rewrite !lookup_insert_ne by done.
  by apply wf_absent_under.
Qed.

(** C2, as the code has it.  After a successful run that found no project
    directory (as every successful run without [--force] does), the files
    below the project directory are exactly the nine of the layout, each with
    the text rendered for it, and the build script is the only one of them
    with an execute bit. *)
Theorem main_creates_nine_files e a w d base w1 s w' :
  fs_wf (w_fs w) ->
  main_inputs e a w = (inr (d, base), w1) ->
  slugify d = inr s ->
  args_force a = false \/ w_fs w !! (base ++ [s]) = None ->
  main e a w = (inr tt, w') ->
  length (write_order (base ++ [s])) = 9%nat
  /\ NoDup (write_order (base ++ [s]))
  /\ (forall p, (base ++ [s]) `prefix_of` p ->
        (is_file (w_fs w' !! p) <-> p ∈ write_order (base ++ [s])))
  /\ (forall j en, file_plan d s (base ++ [s]) !! j = Some en ->
        exists m, w_fs w' !! e_path en = Some (File (e_contents en) m))
  /\ (forall p, p ∈ write_order (base ++ [s]) ->
        (is_executable (w_fs w' !! p) = true <-> p = (base ++ [s]) ++ [py "build.sh"])).
Proof.
  intros Hwf Hin Hs Hfresh Hmain.
  pose proof (main_inputs_spec _ _ _ _ _ Hin) as (Hfs1 & _ & _ & Hbase & _).
  set (root := base ++ [s]) in *. set (plan := file_plan d s root).
  assert (map e_path plan = write_order root) as Hpaths by apply file_plan_paths.
  assert (plan_sep (map e_path plan)) as Hsep
    by (rewrite Hpaths; apply write_order_sep).
  rewrite (main_unfold e a w d base w1 s) in Hmain by done. fold root plan in Hmain.
  destruct (main_directories (args_force a) root w1) as [[ex|[]] w2] eqn:Hd; [done|].
  destruct (first_refused e (args_force a) (w_fs w2) plan) as [[k ex]|]; [done|].
  match type of Hmain with
  | ?m ?w0 = _ =>
      destruct (report_frame (py "✅ Created project at " ++ path_str root)
                  (py "Next steps:") (py "  cd " ++ path_str root)
                  (py "  cmake -S . -B build") (py "  cmake --build build")
                  (py "  ./build/" ++ s) w0) as (w3 & Hrep & Hfs3 & _)
  end.
  rewrite Hrep in Hmain. injection Hmain as ->.
  assert (w_fs w1 !! root = None) as Hroot.
  { destruct Hfresh as [Hforce|Hnone]; [|by rewrite Hfs1].
    rewrite Hforce in Hd. by apply main_directories_no_force in Hd. }
  pose proof (main_directories_fresh _ _ _ _ _ _
                ltac:(by rewrite Hfs1) Hroot ltac:(by rewrite Hfs1) Hd) as Hw2.
  simpl in Hw2. fold root in Hw2.
  assert (forall p, p ∈ write_order root -> w_fs w2 !! p = None) as Hnew.
  { intros p Hp. apply write_order_under in Hp as ((t & ->) & H1 & H2 & H3).
    rewrite Hw2. apply fresh_dirs_lookup; try done. by rewrite Hfs1. }
  assert (forall p, p ∈ write_order root ->
            exists j en, plan !! j = Some en /\ e_path en = p) as Hentry.
  { intros p Hp. rewrite <- Hpaths in Hp. apply list_elem_of_lookup in Hp as [j Hj].
    change (map e_path plan) with (e_path <$> plan) in Hj.
    rewrite list_lookup_fmap in Hj. destruct (plan !! j) as [en|] eqn:E; [|done].
    injection Hj as <-. eauto. }
  split; [done|]. split; [apply write_order_NoDup|]. split; [|split].
  - intros p [t ->]. rewrite Hfs3. split.
    + intros (c & m & Hp). destruct (decide (root ++ t ∈ write_order root)); [done|].
      exfalso. rewrite after_entries_frame in Hp by (by rewrite Hpaths).
      rewrite Hw2 in Hp.
      destruct (decide (root ++ t = root ++ [py "cmake"])) as [E|E1];
        [rewrite E, lookup_insert_eq in Hp; done|].
      rewrite lookup_insert_ne in Hp by done.
      destruct (decide (root ++ t = root ++ [py "src"])) as [E|E2];
        [rewrite E, lookup_insert_eq in Hp; done|].
      rewrite lookup_insert_ne in Hp by done.
      destruct (decide (root ++ t = root)) as [E|E3];
        [rewrite E, lookup_insert_eq in Hp; done|].
      rewrite lookup_insert_ne in Hp by done.
      rewrite wf_absent_under in Hp; [done| by rewrite Hfs1 | done].
    + intros Hp. destruct (Hentry _ Hp) as (j & en & Hj & <-).
      destruct (after_entries_lookup e plan w2 j en Hsep Hj) as (m & Hm & _).
      by exists (e_contents en), m.
  - intros j en Hj. rewrite Hfs3.
    destruct (after_entries_lookup e plan w2 j en Hsep Hj) as (m & Hm & _). eauto.
  - intros p Hp. rewrite Hfs3.
    destruct (Hentry _ Hp) as (j & en & Hj & <-).
    destruct (after_entries_lookup e plan w2 j en Hsep Hj) as (m & Hm & Hc & Hn).
    rewrite Hm.
    destruct (file_plan_chmod d s root j en Hj) as [[Hch Hpath]|[Hch Hpath]].
    + rewrite (Hc _ Hch). split; [done | by intros _].
    + rewrite (Hn Hch). unfold write_mode. rewrite (Hnew _ Hp).
      unfold is_executable. rewrite ldiff_no_exec. split; [done | by intros ?].
Qed.

Lemma main_creates_nine_files_witness :
  length (write_order ([py "tmp"] ++ [py "my_game"])) = 9%nat
  /\ NoDup (write_order ([py "tmp"] ++ [py "my_game"]))
  /\ (forall p, ([py "tmp"] ++ [py "my_game"]) `prefix_of` p ->
        (is_file (w_fs (snd (main demo_env (demo_args (py "My Game!!") false)
                               (demo_world []))) !! p)
         <-> p ∈ write_order ([py "tmp"] ++ [py "my_game"])))
  /\ (forall j en,
        file_plan (py "My Game!!") (py "my_game") ([py "tmp"] ++ [py "my_game"]) !! j
          = Some en ->
        exists m, w_fs (snd (main demo_env (demo_args (py "My Game!!") false)
                               (demo_world []))) !! e_path en
                  = Some (File (e_contents en) m))
  /\ (forall p, p ∈ write_order ([py "tmp"] ++ [py "my_game"]) ->
        (is_executable (w_fs (snd (main demo_env (demo_args (py "My Game!!") false)
                                     (demo_world []))) !! p) = true
         <-> p = ([py "tmp"] ++ [py "my_game"]) ++ [py "build.sh"])).
Proof.
  apply (main_creates_nine_files demo_env (demo_args (py "My Game!!") false)
           (demo_world []) (py "My Game!!") [py "tmp"] (demo_world []) (py "my_game")).
  - intros p Hp [n Hn]. revert Hn. unfold demo_world. simpl w_fs.
    rewrite !lookup_insert. repeat case_decide; subst; try done.
  - vm_compute. reflexivity.
  - reflexivity.
  - left. reflexivity.
  - apply run_result. vm_compute. reflexivity.
Defined.

(** C2 as stated fails: a run with [--force] reuses a project directory that
    holds a file of its own; the run succeeds and that file is still there,
    a tenth file below the project directory. *)
Lemma main_force_keeps_other_files :
  fst (main demo_env (demo_args (py "My Game!!") true) demo_used_world) = inr tt
  /\ demo_root `prefix_of` (demo_root ++ [py "notes.txt"])
  /\ ((demo_root ++ [py "notes.txt"]) ∉ write_order demo_root)
  /\ w_fs (snd (main demo_env (demo_args (py "My Game!!") true) demo_used_world))
       !! (demo_root ++ [py "notes.txt"]) = Some (File (py "mine") 0x1A4).
Proof.
  split; [vm_compute; reflexivity|]. split; [by eexists|].
  split; [|vm_compute; reflexivity].
  unfold write_order. rewrite !not_elem_of_cons.
  repeat split; try path_neq. apply not_elem_of_nil.
Qed.

(** * Further properties of slugify *)

Lemma filter_lstrip_by f g s :
  (forall c, f c = true -> g c = false) ->
  List.filter g (lstrip_by f s) = List.filter g s.
Proof.
  intros H. induction s as [|c t IH]; simpl; [done|].
  destruct (f c) eqn:E; [|done]. by rewrite (H c E).
Qed.

Lemma filter_rstrip_by f g s :
  (forall c, f c = true -> g c = false) ->
  List.filter g (rstrip_by f s) = List.filter g s.
Proof.
  intros H. induction s as [|c t IH]; simpl; [done|].
  destruct (rstrip_by f t) as [|a r] eqn:E.
  - simpl in IH. rewrite <- IH. destruct (f c) eqn:Ef; simpl.
    + by rewrite (H c Ef).
    + by destruct (g c).
  - simpl. simpl in IH. by rewrite IH.
Qed.

Lemma filter_strip_by f g s :
  (forall c, f c = true -> g c = false) ->
  List.filter g (strip_by f s) = List.filter g s.
Proof.
  intros H. unfold strip_by. by rewrite filter_rstrip_by, filter_lstrip_by.
Qed.

Lemma slug_chars_re_sub b s :
  slug_chars (re_sub_runs nonslug [underscore] b s) = slug_chars s.
Proof.
  unfold slug_chars. revert b. induction s as [|c t IH]; intros b; simpl; [done|].
  destruct (nonslug c) eqn:E.
  - apply nonslug_true in E. rewrite E.
    destruct b; simpl; [apply IH|]. change (is_slug_char underscore) with false.
    apply IH.
  - apply nonslug_false in E. simpl. by rewrite E, IH.
Qed.

Lemma slug_chars_app a b : slug_chars (a ++ b) = slug_chars a ++ slug_chars b.
Proof. apply List.filter_app. Qed.

Lemma slug_chars_lower_space c :
  is_space c = true -> slug_chars (lower_cp c) = [].
Proof.
  intros H. rewrite lower_cp_space by done. unfold slug_chars. simpl.
  destruct (is_slug_char c) eqn:E; [|done].
  by rewrite slug_char_not_space in H by auto.
Qed.

Lemma slug_chars_lower_lstrip s :
  slug_chars (str_lower (lstrip_by is_space s)) = slug_chars (str_lower s).
Proof.
  induction s as [|c t IH]; simpl; [done|].
  destruct (is_space c) eqn:E; [|done].
  unfold str_lower in *. simpl. by rewrite slug_chars_app, slug_chars_lower_space, IH.
Qed.

Lemma slug_chars_lower_rstrip s :
  slug_chars (str_lower (rstrip_by is_space s)) = slug_chars (str_lower s).
Proof.
  unfold str_lower. induction s as [|c t IH]; simpl; [done|].
  rewrite slug_chars_app, <- IH.
  destruct (rstrip_by is_space t) as [|a r] eqn:E.
  - destruct (is_space c) eqn:Ec; simpl.
    + by rewrite slug_chars_lower_space.
    + by rewrite !app_nil_r.
  - change (flat_map lower_cp (c :: a :: r))
      with (lower_cp c ++ flat_map lower_cp (a :: r)).
    by rewrite slug_chars_app.
Qed.

(** X1.  A slug keeps the characters of [[a-z0-9]] of the lower-cased name,
    all of them and in their order; what [slugify] adds or removes is
    anything else. *)
Theorem slugify_keeps_alnum name s :
  slugify name = inr s -> slug_chars s = slug_chars (str_lower name).
Proof.
  rewrite slugify_unfold.
  destruct (strip_by is_sep _) as [|c r] eqn:E; [done|]. intros [= <-].
  rewrite <- E. unfold slug_chars at 1. rewrite filter_strip_by.
  - fold (slug_chars (re_sub_runs nonslug [underscore] false (str_lower (str_strip name)))).
    rewrite slug_chars_re_sub. unfold str_strip, strip_by.
    by rewrite slug_chars_lower_rstrip, slug_chars_lower_lstrip.
  - intros x Hx. apply is_sep_true in Hx as ->. reflexivity.
Qed.

Lemma slugify_keeps_alnum_witness :
  slugify (py "  C++ & Qt6!") = inr (py "c_qt6")
  /\ slug_chars (py "c_qt6") = slug_chars (str_lower (py "  C++ & Qt6!")).
Proof.
  split; [reflexivity|].
  exact (slugify_keeps_alnum (py "  C++ & Qt6!") (py "c_qt6") eq_refl).
Defined.

Lemma lower_cp_ascii_lower c : lower_cp (ascii_lower c) = lower_cp c.
Proof.
  unfold ascii_lower. destruct (is_upper_ascii c) eqn:E; [|done].
  unfold lower_cp. rewrite E.
  assert (is_upper_ascii (c + 0x20) = false) as -> by charclass.
  assert ((c + 0x20 =? 0x130) = false) as -> by charclass.
  assert ((c + 0x20 =? 0x212A) = false) as -> by charclass.
  done.
Qed.

Lemma is_space_ascii_lower c : is_space (ascii_lower c) = is_space c.
Proof.
  unfold ascii_lower. destruct (is_upper_ascii c) eqn:E; [|done].
  assert (is_space c = false) as -> by (destruct (is_space c) eqn:E'; [charclass|done]).
  destruct (is_space (c + 0x20)) eqn:E'; [charclass|done].
Qed.

Lemma lstrip_by_map f h s :
  (forall c, f (h c) = f c) -> lstrip_by f (map h s) = map h (lstrip_by f s).
Proof.
  intros H. induction s as [|c t IH]; simpl; [done|]. rewrite H.
  by destruct (f c).
Qed.

Lemma rstrip_by_map f h s :
  (forall c, f (h c) = f c) -> rstrip_by f (map h s) = map h (rstrip_by f s).
Proof.
  intros H. induction s as [|c t IH]; simpl; [done|]. rewrite IH, H.
  destruct (rstrip_by f t); simpl; [by destruct (f c)|done].
Qed.

(** X2.  The case of ASCII letters does not matter to [slugify]: a name and
    the name with its ASCII capitals lower-cased have the same slug, or are
    both refused. *)
Theorem slugify_ascii_case name : slugify (map ascii_lower name) = slugify name.
Proof.
  rewrite !slugify_unfold. unfold str_strip, strip_by.
  rewrite lstrip_by_map, rstrip_by_map by apply is_space_ascii_lower.
  assert (forall s, str_lower (map ascii_lower s) = str_lower s) as ->; [|done].
  intros s. unfold str_lower. induction s as [|c t IH]; simpl; [done|].
  by rewrite lower_cp_ascii_lower, IH.
Qed.

(** ** The slug as the words of the name *)

Lemma slug_words_nil s : slug_words s = [] <-> has_word s = false.
Proof.
  unfold has_word. induction s as [|c t IH]; simpl; [done|].
  destruct (is_slug_char c); simpl; [|done].
  split; [|done]. destruct (starts_slug t); [|done].
  by destruct (slug_words t).
Qed.

Lemma starts_slug_has_word t : starts_slug t = true -> has_word t = true.
Proof. destruct t as [|c t]; simpl; [done|]. by intros ->. Qed.

Lemma join_sep_push c ws : ws <> [] -> join_sep (push_char c ws) = c :: join_sep ws.
Proof. destruct ws as [|w [|w2 ws]]; done. Qed.

Lemma join_sep_cons w ws :
  ws <> [] -> join_sep (w :: ws) = w ++ underscore :: join_sep ws.
Proof. by destruct ws. Qed.

Lemma junk_ends_nonslug t : has_word t = false -> t <> [] -> ends_nonslug t = true.
Proof.
  unfold has_word. induction t as [|c t IH]; [done|]. simpl.
  intros H _. apply orb_false_iff in H as [Hc Ht].
  destruct t as [|c2 t]; [by apply nonslug_true | by apply IH].
Qed.

Lemma sub_trail_cons c u :
  u <> [] ->
  sub_trail (c :: u)
  = if ends_nonslug u && (is_slug_char c || has_word u) then [underscore] else [].
Proof. by destruct u. Qed.

Lemma slug_words_cons c u :
  slug_words (c :: u)
  = if is_slug_char c then
      if starts_slug u then push_char c (slug_words u) else [c] :: slug_words u
    else slug_words u.
Proof. done. Qed.

Lemma re_sub_runs_cons b c u :
  re_sub_runs nonslug [underscore] b (c :: u)
  = if is_slug_char c then c :: re_sub_runs nonslug [underscore] false u
    else (if b then [] else [underscore]) ++ re_sub_runs nonslug [underscore] true u.
Proof. simpl. unfold nonslug. by destruct (is_slug_char c), b. Qed.

Lemma sub_lead_cons b c u :
  sub_lead b (c :: u) = if is_slug_char c || b then [] else [underscore].
Proof. unfold sub_lead. simpl. unfold nonslug. by destruct b, (is_slug_char c). Qed.

Lemma starts_slug_words u : starts_slug u = true -> slug_words u <> [].
Proof.
  intros H Hn%slug_words_nil. apply starts_slug_has_word in H. congruence.
Qed.

(** What the substitution of [slugify] returns: the words joined by the
    separator, with one separator before them when the string starts outside
    [[a-z0-9]] and one after them when it ends there. *)
Lemma re_sub_runs_words b s :
  re_sub_runs nonslug [underscore] b s
  = sub_lead b s ++ join_sep (slug_words s) ++ sub_trail s.
Proof.
  revert b. induction s as [|c u IH]; intros b; [by destruct b|].
  rewrite re_sub_runs_cons, sub_lead_cons, slug_words_cons.
  destruct u as [|c2 t].
  { unfold sub_trail, has_word. simpl. unfold nonslug.
    destruct (is_slug_char c), b; done. }
  rewrite sub_trail_cons by done. rewrite !IH.
  assert (has_word (c2 :: t) = is_slug_char c2 || has_word t) as Hu by done.
  assert (starts_slug (c2 :: t) = is_slug_char c2) as Hs by done.
  assert (sub_lead false (c2 :: t) = if is_slug_char c2 then [] else [underscore]) as Hl.
  { rewrite sub_lead_cons. by rewrite orb_false_r. }
  assert (sub_lead true (c2 :: t) = []) as Hlt.
  { rewrite sub_lead_cons. by rewrite orb_true_r. }
  pose proof (starts_slug_words (c2 :: t)) as Hsw.
  pose proof (slug_words_nil (c2 :: t)) as Hnil.
  pose proof (junk_ends_nonslug (c2 :: t)) as Hjunk.
  assert (c2 :: t <> []) as Hne by done.
  unfold sub_trail in *.
  remember (c2 :: t) as u eqn:Eu. clear Eu IH.
  rewrite Hl, Hlt, Hs.
  destruct (is_slug_char c) eqn:Ec; simpl orb.
  - destruct (is_slug_char c2) eqn:Ec2.
    + rewrite join_sep_push by auto.
      rewrite Hu. simpl orb. rewrite andb_true_r. reflexivity.
    + destruct (has_word u) eqn:Hw.
      * rewrite join_sep_cons by (intros Hn; apply Hnil in Hn; congruence).
        rewrite andb_true_r. simpl app. by rewrite <- ?app_assoc.
      * rewrite (proj2 Hnil) by done.
        rewrite andb_false_r, andb_true_r, Hjunk by done. reflexivity.
  - by destruct b.
Qed.

Lemma lstrip_by_lead f lead s :
  Forall (fun c => f c = true) lead -> lstrip_by f (lead ++ s) = lstrip_by f s.
Proof. induction 1 as [|c l Hc _ IH]; simpl; [done|]. by rewrite Hc. Qed.

Lemma rstrip_by_trail f s trail :
  Forall (fun c => f c = true) trail -> rstrip_by f (s ++ trail) = rstrip_by f s.
Proof.
  intros H. induction s as [|c s IH]; simpl.
  - by apply rstrip_by_all.
  - by rewrite IH.
Qed.

(** Stripping gives back a core that has nothing to strip at its ends. *)
Lemma strip_by_core f lead core trail :
  Forall (fun c => f c = true) lead -> Forall (fun c => f c = true) trail ->
  (forall c, head core = Some c -> f c = false) ->
  (forall c, last core = Some c -> f c = false) ->
  strip_by f (lead ++ core ++ trail) = core.
Proof.
  intros Hlead Htrail Hh Hl. unfold strip_by.
  rewrite lstrip_by_lead by done.
  destruct core as [|c core].
  - simpl. rewrite lstrip_by_all by done. done.
  - rewrite lstrip_by_id by (intros x [= <-]; by apply Hh).
    rewrite rstrip_by_trail by done. by apply rstrip_by_id.
Qed.

Lemma push_char_words c ws :
  Forall (fun w => w <> [] /\ Forall (fun x => is_slug_char x = true) w) ws ->
  is_slug_char c = true ->
  Forall (fun w => w <> [] /\ Forall (fun x => is_slug_char x = true) w) (push_char c ws).
Proof.
  intros H Hc. destruct H as [|w ws [Hw1 Hw2] Hws]; simpl.
  - repeat constructor; done.
  - constructor; [|done]. split; [done|]. by constructor.
Qed.

(** The words are not empty and lie in [[a-z0-9]]. *)
Lemma slug_words_slug s :
  Forall (fun w => w <> [] /\ Forall (fun x => is_slug_char x = true) w) (slug_words s).
Proof.
  induction s as [|c t IH]; [constructor|]. rewrite slug_words_cons.
  destruct (is_slug_char c) eqn:Ec; [|done].
  destruct (starts_slug t).
  - by apply push_char_words.
  - constructor; [|done]. split; [done|]. by repeat constructor.
Qed.

Lemma join_sep_ends ws :
  Forall (fun w => w <> [] /\ Forall (fun x => is_slug_char x = true) w) ws ->
  (forall c, head (join_sep ws) = Some c -> is_sep c = false)
  /\ (forall c, last (join_sep ws) = Some c -> is_sep c = false).
Proof.
  induction 1 as [|w ws [Hne Hw] Hws [IHh IHl]]; [done|].
  assert (forall c, c ∈ w -> is_sep c = false) as Hsep.
  { intros c Hc. rewrite Forall_forall in Hw.
    apply is_sep_false, slug_char_not_sep. by apply Hw. }
  destruct ws as [|w2 ws].
  - simpl. split; intros c Hc; apply Hsep.
    + destruct w; [done|]. injection Hc as ->. apply elem_of_cons. by left.
    + apply last_Some in Hc as [l' ->]. apply elem_of_app. right.
      apply elem_of_cons. by left.
  - rewrite join_sep_cons by done. split; intros c Hc.
    + apply Hsep. destruct w; [done|]. injection Hc as ->. apply elem_of_cons. by left.
    + apply IHl. rewrite last_app in Hc.
      destruct (last (underscore :: join_sep (w2 :: ws))) as [x|] eqn:E;
        [|by apply last_None in E].
      injection Hc as ->. rewrite last_cons in E.
      destruct (last (join_sep (w2 :: ws))) as [y|] eqn:E2; [congruence|].
      apply last_None in E2. exfalso.
      inversion Hws as [|? ? [Hne2 _] _]; subst.
      destruct ws; simpl in E2; [done|]. by destruct w2.
Qed.

Lemma slug_words_junk_l j s :
  Forall (fun c => is_slug_char c = false) j -> slug_words (j ++ s) = slug_words s.
Proof.
  induction 1 as [|c j Hc _ IH]; [done|].
  rewrite <- app_comm_cons, slug_words_cons. by rewrite Hc.
Qed.

Lemma slug_words_junk_r s j :
  Forall (fun c => is_slug_char c = false) j -> slug_words (s ++ j) = slug_words s.
Proof.
  intros Hj. induction s as [|c t IH].
  - simpl. rewrite <- (app_nil_r j). by rewrite slug_words_junk_l.
  - rewrite <- app_comm_cons, !slug_words_cons, IH.
    assert (starts_slug (t ++ j) = starts_slug t) as ->; [|done].
    destruct t as [|c2 t]; [|done]. simpl. by destruct Hj.
Qed.

Lemma lstrip_by_split f s :
  exists k, s = k ++ lstrip_by f s /\ Forall (fun c => f c = true) k.
Proof.
  induction s as [|c t (k & Hk & Hf)]; simpl; [by exists []|].
  destruct (f c) eqn:E; [|by exists []].
  exists (c :: k). split; [by rewrite <- app_comm_cons, <- Hk | by constructor].
Qed.

Lemma rstrip_by_split f s :
  exists k, s = rstrip_by f s ++ k /\ Forall (fun c => f c = true) k.
Proof.
  induction s as [|c t (k & Hk & Hf)]; simpl; [by exists []|].
  destruct (rstrip_by f t) as [|a r] eqn:E.
  - simpl in Hk. subst t. destruct (f c) eqn:Ec.
    + exists (c :: k). split; [done | by constructor].
    + by exists k.
  - exists k. by rewrite <- app_comm_cons, <- Hk.
Qed.

Lemma str_lower_spaces k :
  Forall (fun c => is_space c = true) k ->
  Forall (fun c => is_slug_char c = false) (str_lower k).
Proof.
  unfold str_lower. induction 1 as [|c k Hc _ IH]; simpl; [done|].
  rewrite lower_cp_space by done. constructor; [|done].
  destruct (is_slug_char c) eqn:E; [|done].
  by rewrite slug_char_not_space in Hc by auto.
Qed.

Lemma slug_words_lower_strip name :
  slug_words (str_lower (str_strip name)) = slug_words (str_lower name).
Proof.
  unfold str_strip, strip_by.
  destruct (lstrip_by_split is_space name) as (a & Ha & Hfa).
  destruct (rstrip_by_split is_space (lstrip_by is_space name)) as (b & Hb & Hfb).
  rewrite Ha at 2. rewrite Hb at 2. unfold str_lower.
  rewrite !flat_map_app.
  rewrite slug_words_junk_l by (by apply str_lower_spaces).
  by rewrite slug_words_junk_r by (by apply str_lower_spaces).
Qed.

(** X3.  The slug is the words of the lower-cased name -- its maximal runs
    of characters of [[a-z0-9]] -- joined by ["_"]; a name without a word is
    refused. *)
Theorem slugify_words name :
  slugify name =
    match slug_words (str_lower name) with
    | [] => inl slug_error
    | ws => inr (join_sep ws)
    end.
Proof.
  rewrite slugify_unfold, re_sub_runs_words, slug_words_lower_strip.
  pose proof (slug_words_slug (str_lower name)) as Hws.
  destruct (join_sep_ends _ Hws) as [Hh Hl].
  rewrite strip_by_core; try done.
  - destruct (slug_words (str_lower name)) as [|w ws] eqn:E; [done|].
    destruct (join_sep (w :: ws)) as [|c r] eqn:Ej; [|done].
    exfalso. inversion Hws as [|? ? [Hne _] _]; subst.
    destruct ws; simpl in Ej; [done|]. by destruct w.
  - unfold sub_lead. destruct (_ && _); repeat constructor.
  - unfold sub_trail. destruct (_ && _); repeat constructor.
Qed.

(** * Further properties of the file operations *)

Lemma fs_step_wf P fs fs' : fs_wf fs -> fs_step P fs fs' -> fs_wf fs'.
Proof.
  intros Hwf [q n _ Hq Hpar ->|q c m c' m' _ Hq ->] x Hx Hsome.
  - assert (parent q <> q) as Hpq by congruence.
    destruct (decide (x = q)) as [->|Hne].
    + by rewrite lookup_insert_ne.
    + rewrite lookup_insert_ne in Hsome by done.
      pose proof (Hwf x Hx Hsome) as Hp.
      rewrite lookup_insert_ne; [done|]. congruence.
  - destruct (decide (x = q)) as [->|Hne].
    + pose proof (Hwf q Hx ltac:(by rewrite Hq)) as Hp.
      rewrite lookup_insert_ne; [done|]. congruence.
    + rewrite lookup_insert_ne in Hsome by done.
      pose proof (Hwf x Hx Hsome) as Hp.
      rewrite lookup_insert_ne; [done|]. congruence.
Qed.

Lemma fs_step_frame P fs fs' x :
  fs_step P fs fs' -> ~ P x -> fs' !! x = fs !! x.
Proof.
  intros [q n Hp _ _ ->|q c m c' m' Hp _ ->] Hx;
    rewrite lookup_insert_ne; by try congruence.
Qed.

(** A change keeps every directory, keeps every file a file, and removes
    nothing. *)
Lemma fs_step_keeps P fs fs' x :
  fs_step P fs fs' ->
  (fs !! x = Some Dir -> fs' !! x = Some Dir)
  /\ (is_file (fs !! x) -> is_file (fs' !! x)).
Proof.
  intros [q n _ Hq _ ->|q c m c' m' _ Hq ->];
    (destruct (decide (x = q)) as [->|Hne];
     [rewrite lookup_insert_eq | rewrite lookup_insert_ne by done]);
    split; try done; rewrite ?Hq; try done.
  - by intros (? & ? & ?).
  - intros _. by exists c', m'.
Qed.

Lemma fs_grows_wf P fs fs' : fs_wf fs -> fs_grows P fs fs' -> fs_wf fs'.
Proof. intros Hwf H. induction H; eauto using fs_step_wf. Qed.

Lemma fs_grows_frame P fs fs' x :
  fs_grows P fs fs' -> ~ P x -> fs' !! x = fs !! x.
Proof.
  intros H Hx. induction H as [|a b c Hab _ IH]; [done|].
  by rewrite IH, (fs_step_frame P a b).
Qed.

Lemma fs_grows_keeps P fs fs' x :
  fs_grows P fs fs' ->
  (fs !! x = Some Dir -> fs' !! x = Some Dir)
  /\ (is_file (fs !! x) -> is_file (fs' !! x)).
Proof.
  intros H. induction H as [|a b c Hab _ [IH1 IH2]]; [done|].
  destruct (fs_step_keeps P a b x Hab) as [H1 H2]. split; auto.
Qed.

Lemma fs_grows_step P fs fs' : fs_step P fs fs' -> fs_grows P fs fs'.
Proof. apply rtc_once. Qed.

Lemma fs_grows_trans P a b c : fs_grows P a b -> fs_grows P b c -> fs_grows P a c.
Proof. apply rtc_trans. Qed.

(** [os.mkdir] makes one new directory or changes nothing. *)
Lemma os_mkdir_grows (P : path -> Prop) p w r w' :
  P p -> os_mkdir p w = (r, w') ->
  fs_grows P (w_fs w) (w_fs w')
  /\ w_stdin w' = w_stdin w /\ w_stdout w' = w_stdout w
  /\ written (w_trace w') = written (w_trace w)
  /\ match r with
     | inr _ => w_fs w' !! p = Some Dir
     | inl ex => w' = w /\ is_OSError (exn_class ex) = true
                 /\ (exn_class ex = FileExistsError <-> is_Some (w_fs w !! p))
                 /\ (exn_class ex = FileNotFoundError -> w_fs w !! parent p = None)
     end.
Proof.
  intros HP. unfold os_mkdir.
  destruct (w_fs w !! p) as [n|] eqn:Ep.
  { intros [= <- <-]. repeat split; try done. }
  destruct (w_fs w !! parent p) as [[|c m]|] eqn:Epar; intros [= <- <-]; simpl.
  - split; [apply fs_grows_step; by eapply step_new|].
    repeat split; try done.
    + unfold written. rewrite omap_app. simpl. by rewrite app_nil_r.
    + by rewrite lookup_insert_eq.
  - repeat split; try done; by intros [? ?].
  - repeat split; try done; by intros [? ?].
Qed.

(** [mkdir(exist_ok=True)] on one level. *)
Lemma mkdir_no_parents_grows (P : path -> Prop) p w r w' :
  P p -> mkdir_no_parents p true w = (r, w') ->
  fs_grows P (w_fs w) (w_fs w')
  /\ w_stdin w' = w_stdin w /\ w_stdout w' = w_stdout w
  /\ written (w_trace w') = written (w_trace w)
  /\ match r with
     | inr _ => w_fs w' !! p = Some Dir
     | inl ex => w' = w /\ is_OSError (exn_class ex) = true
     end.
Proof.
  intros HP. unfold mkdir_no_parents, try_except.
  destruct (os_mkdir p w) as [[ex|[]] w1] eqn:E;
    pose proof (os_mkdir_grows P p w _ _ HP E) as (Hg & Hi & Ho & Htr & H).
  - destruct H as (-> & Hos & Hex & _). rewrite Hos.
    destruct (exn_kind_eqb (exn_class ex) FileNotFoundError).
    { intros [= <- <-]. repeat split; try done. }
    unfold M_bind, path_is_dir, raise, M_ret. simpl.
    destruct (w_fs w !! p) as [[|c m]|] eqn:Ep; simpl; intros [= <- <-];
      repeat split; done.
  - intros [= <- <-]. repeat split; done.
Qed.

Lemma fs_grows_some P fs fs' x :
  fs_grows P fs fs' -> is_Some (fs !! x) -> is_Some (fs' !! x).
Proof.
  intros H [n Hn]. destruct (fs_grows_keeps P fs fs' x H) as [H1 H2].
  destruct n as [|c m].
  - rewrite H1; eauto.
  - destruct H2 as (c' & m' & ->); [by exists c, m|eauto].
Qed.

Lemma fs_step_weaken (P Q : path -> Prop) fs fs' :
  (forall q, P q -> Q q) -> fs_step P fs fs' -> fs_step Q fs fs'.
Proof.
  intros HPQ [q n HP ? ? ?|q c m c' m' HP ? ?].
  - eapply step_new; eauto.
  - eapply step_rewrite; eauto.
Qed.

Lemma fs_grows_weaken (P Q : path -> Prop) fs fs' :
  (forall q, P q -> Q q) -> fs_grows P fs fs' -> fs_grows Q fs fs'.
Proof.
  intros HPQ H. induction H as [|a b c Hab _ IH]; [apply rtc_refl|].
  eapply rtc_l; [|exact IH]. by eapply fs_step_weaken.
Qed.

Lemma in_project_root root : in_project root root.
Proof. apply elem_of_cons. by left. Qed.

Lemma in_project_src root : in_project root (root ++ [py "src"]).
Proof. unfold in_project, project_paths. rewrite !elem_of_cons. auto. Qed.

Lemma in_project_cmake root : in_project root (root ++ [py "cmake"]).
Proof. unfold in_project, project_paths. rewrite !elem_of_cons. auto. Qed.

Lemma in_project_file root p : p ∈ write_order root -> in_project root p.
Proof. unfold in_project, project_paths. rewrite !elem_of_cons. auto. Qed.

(** [mkdir(parents=True, exist_ok=False)] of a directory whose parent exists. *)
Lemma Path_mkdir_root_grows (P : path -> Prop) (base : path) s w r w' :
  P (base ++ [s]) -> is_Some (w_fs w !! base) ->
  Path_mkdir (base ++ [s]) true false w = (r, w') ->
  fs_grows P (w_fs w) (w_fs w')
  /\ w_stdin w' = w_stdin w /\ w_stdout w' = w_stdout w
  /\ written (w_trace w') = written (w_trace w)
  /\ match r with
     | inr _ => w_fs w !! (base ++ [s]) = None /\ w_fs w' !! (base ++ [s]) = Some Dir
     | inl ex => w' = w
                 /\ (exn_class ex = FileExistsError <-> is_Some (w_fs w !! (base ++ [s])))
     end.
Proof.
  intros HP Hbase H.
  destruct (w_fs w !! (base ++ [s])) as [n|] eqn:Eroot.
  - rewrite Path_mkdir_exists in H by (by rewrite Eroot).
    injection H as <- <-. repeat split; by eauto.
  - pose proof (Path_mkdir_fresh base s w r w' Eroot Hbase H) as Hf.
    destruct r as [ex|[]].
    + destruct Hf as [Hc ->].
      repeat split; try done; try (by intros [? ?]).
      intros Hx. by rewrite Hx in Hc.
    + destruct Hf as [Hb ->]. simpl. split.
      { apply fs_grows_step. eapply step_new; [done|done| |done]. by rewrite parent_snoc. }
      repeat split; try done.
      * unfold written. rewrite omap_app. simpl. by rewrite app_nil_r.
      * by rewrite lookup_insert_eq.
Qed.

(** Lines 627-635 change the file system only by making the project's
    directories; after them the three directories exist. *)
Lemma main_directories_grows (P : path -> Prop) force (base : path) s w r w2 :
  P (base ++ [s]) -> P ((base ++ [s]) ++ [py "src"]) ->
  P ((base ++ [s]) ++ [py "cmake"]) ->
  is_Some (w_fs w !! base) ->
  main_directories force (base ++ [s]) w = (r, w2) ->
  fs_grows P (w_fs w) (w_fs w2)
  /\ w_stdin w2 = w_stdin w /\ w_stdout w2 = w_stdout w
  /\ written (w_trace w2) = written (w_trace w)
  /\ match r with
     | inr _ =>
         is_Some (w_fs w2 !! (base ++ [s]))
         /\ w_fs w2 !! ((base ++ [s]) ++ [py "src"]) = Some Dir
         /\ w_fs w2 !! ((base ++ [s]) ++ [py "cmake"]) = Some Dir
         /\ (force = false -> w_fs w !! (base ++ [s]) = None)
     | inl ex =>
         exn_class ex = SystemExit ->
           force = false /\ is_Some (w_fs w !! (base ++ [s])) /\ w2 = w
           /\ exn_str ex = py "Project directory already exists: "
                ++ path_str (base ++ [s]) ++ py " (use --force to reuse it)"
     end.
Proof.
  intros HP1 HP2 HP3 Hbase. unfold main_directories.
  set (root := base ++ [s]).
  unfold M_bind at 1. unfold try_except.
  destruct (Path_mkdir root true false w) as [r1 w1] eqn:E1.
  pose proof (Path_mkdir_root_grows P base s w r1 w1 HP1 Hbase E1) as (Hg1 & Hi1 & Ho1 & Ht1 & H1).
  assert (forall w1' : world,
    fs_grows P (w_fs w) (w_fs w1') ->
    w_stdin w1' = w_stdin w -> w_stdout w1' = w_stdout w ->
    written (w_trace w1') = written (w_trace w) ->
    is_Some (w_fs w1' !! root) ->
    (force = false -> w_fs w !! root = None) ->
    (Path_mkdir (root ++ [py "src"]) false true ;;;
     Path_mkdir (root ++ [py "cmake"]) false true) w1' = (r, w2) ->
    fs_grows P (w_fs w) (w_fs w2)
    /\ w_stdin w2 = w_stdin w /\ w_stdout w2 = w_stdout w
    /\ written (w_trace w2) = written (w_trace w)
    /\ match r with
       | inr _ =>
           is_Some (w_fs w2 !! root)
           /\ w_fs w2 !! (root ++ [py "src"]) = Some Dir
           /\ w_fs w2 !! (root ++ [py "cmake"]) = Some Dir
           /\ (force = false -> w_fs w !! root = None)
       | inl ex => exn_class ex = SystemExit ->
           force = false /\ is_Some (w_fs w !! root) /\ w2 = w
           /\ exn_str ex = py "Project directory already exists: "
                ++ path_str root ++ py " (use --force to reuse it)"
       end) as Hrest.
  { intros w1' Hg Hi Ho Ht Hroot Hforce. unfold M_bind, Path_mkdir.
    destruct (mkdir_no_parents (root ++ [py "src"]) true w1') as [r2 w2'] eqn:E2.
    pose proof (mkdir_no_parents_grows P _ _ _ _ HP2 E2)
      as (Hg2 & Hi2 & Ho2 & Ht2 & H2).
    destruct r2 as [ex2|[]].
    { intros [= <- <-]. destruct H2 as [-> Hos].
      repeat split; try done; exfalso; by rewrite H in Hos. }
    destruct (mkdir_no_parents (root ++ [py "cmake"]) true w2') as [r3 w3] eqn:E3.
    pose proof (mkdir_no_parents_grows P _ _ _ _ HP3 E3)
      as (Hg3 & Hi3 & Ho3 & Ht3 & H3).
    assert (fs_grows P (w_fs w) (w_fs w3)) as Hg13
      by (eapply fs_grows_trans; [exact Hg|]; eapply fs_grows_trans; eauto).
    destruct r3 as [ex3|[]]; intros [= <- <-].
    { destruct H3 as [-> Hos].
      split; [by eapply fs_grows_trans|].
      repeat split; try congruence; exfalso; by rewrite H in Hos. }
    split; [done|].
    split; [congruence|]. split; [congruence|]. split; [congruence|].
    split; [|split; [|split; [done|done]]].
    - eapply fs_grows_some; [|exact Hroot].
      eapply fs_grows_trans; eauto.
    - by apply (fs_grows_keeps _ _ _ _ Hg3). }
  destruct r1 as [ex1|[]].
  - destruct H1 as [-> Hex].
    destruct (exn_kind_eqb (exn_class ex1) FileExistsError) eqn:Ek.
    + assert (exn_class ex1 = FileExistsError) as Hc
        by (by destruct (exn_class ex1)).
      apply Hex in Hc.
      destruct force; simpl.
      * apply Hrest; try done.
      * intros [= <- <-]. repeat split; done.
    + intros [= <- <-].
      split; [done|]. split; [done|]. split; [done|]. split; [done|].
      intros Hx. exfalso.
      destruct (w_fs w !! root) eqn:Er.
      { assert (exn_class ex1 = FileExistsError) as Hc by (apply Hex; eauto).
        by rewrite Hc in Ek. }
      pose proof (Path_mkdir_fresh base s w _ _ Er Hbase E1) as [Hc _].
      congruence.
  - destruct H1 as [Hn Hd]. apply Hrest; try done; by rewrite Hd.
Qed.

Lemma write_refusal_None e force fs p :
  write_refusal e force fs p = None ->
  env_write_fault e p = None
  /\ ((is_file (fs !! p) /\ force = true)
      \/ (fs !! p = None /\ fs !! parent p = Some Dir)).
Proof.
  unfold write_refusal.
  destruct (fs !! p) as [[|c m]|] eqn:Ep; simpl.
  - destruct force; simpl; [|done]. by destruct (env_write_fault e p).
  - destruct force; simpl; [|done].
    destruct (env_write_fault e p); [done|]. intros _. split; [done|].
    left. split; [by exists c, m|done].
  - destruct (env_write_fault e p); [done|].
    destruct (fs !! parent p) as [[|c m]|]; try done. intros _. by split; [|right].
Qed.

Lemma after_entry_step (P : path -> Prop) e force w en :
  P (e_path en) -> write_refusal e force (w_fs w) (e_path en) = None ->
  fs_step P (w_fs w) (w_fs (after_entry e w en)).
Proof.
  intros HP H. apply write_refusal_None in H as [_ [[(c & m & Hf) _]|[Hn Hpar]]]; simpl.
  - by eapply step_rewrite.
  - by eapply step_new.
Qed.

(** The writes of the [try] block change the file system one file at a time. *)
Lemma run_entries_grows (P : path -> Prop) e force ens w r w' :
  Forall P (map e_path ens) -> run_entries e force ens w = (r, w') ->
  fs_grows P (w_fs w) (w_fs w').
Proof.
  revert w. induction ens as [|en ens IH]; intros w HP; simpl.
  { intros [= <- <-]. apply rtc_refl. }
  apply Forall_cons in HP as [Hen HP].
  unfold M_bind. rewrite run_entry_spec.
  destruct (write_refusal e force (w_fs w) (e_path en)) as [ex|] eqn:Er.
  { intros [= <- <-]. apply rtc_refl. }
  intros H. eapply rtc_l; [by eapply after_entry_step|]. by eapply IH.
Qed.

Lemma write_order_in_project root : Forall (in_project root) (write_order root).
Proof. apply Forall_forall. intros p Hp. by apply in_project_file. Qed.

Lemma report_spec root s w :
  (print (py "✅ Created project at " ++ path_str root) ;;;
   print (py "Next steps:") ;;;
   print (py "  cd " ++ path_str root) ;;;
   print (py "  cmake -S . -B build") ;;;
   print (py "  cmake --build build") ;;;
   print (py "  ./build/" ++ s)) w
  = (inr tt, World (w_fs w) (w_stdin w) (w_stdout w ++ report root s) (w_trace w)).
Proof.
  unfold M_bind, print, report. cbn [w_fs w_stdin w_stdout w_trace].
  do 2 f_equal. rewrite <- !app_assoc. reflexivity.
Qed.

(** What a run does once the display name has a slug and the base directory
    exists: lines 624-655. *)
Lemma main_outcome e a w d base w1 s r w' :
  main_inputs e a w = (inr (d, base), w1) -> slugify d = inr s ->
  main e a w = (r, w') ->
  fs_grows (in_project (base ++ [s])) (w_fs w) (w_fs w')
  /\ w_stdin w' = w_stdin w1
  /\ w_stdout w' = w_stdout w1
       ++ match r with inr _ => report (base ++ [s]) s | inl _ => [] end
  /\ match r with
     | inr _ =>
         is_Some (w_fs w' !! (base ++ [s]))
         /\ (args_force a = false -> w_fs w !! (base ++ [s]) = None)
         /\ forall j en, file_plan d s (base ++ [s]) !! j = Some en ->
              exists m, w_fs w' !! e_path en = Some (File (e_contents en) m)
                        /\ forall m', e_chmod en = Some m' -> m = m'
     | inl _ => True
     end.
Proof.
  intros Hi Hs. rewrite (main_unfold e a w d base w1 s Hi Hs).
  pose proof (main_inputs_spec e a w _ _ Hi) as (Hfs1 & _ & _ & Hbase & _).
  rewrite <- Hfs1 in Hbase.
  destruct (main_directories (args_force a) (base ++ [s]) w1) as [r2 w2] eqn:Ed.
  pose proof (main_directories_grows (in_project (base ++ [s])) _ base s w1 r2 w2
                (in_project_root _) (in_project_src _) (in_project_cmake _) Hbase Ed)
    as (Hg2 & Hi2 & Ho2 & _ & H2).
  rewrite Hfs1 in Hg2.
  destruct r2 as [ex2|[]].
  { intros [= <- <-]. rewrite app_nil_r. done. }
  destruct H2 as (Hroot & _ & _ & Hforce).
  set (plan := file_plan d s (base ++ [s])) in *.
  assert (plan_sep (map e_path plan)) as Hsep
    by (unfold plan; rewrite file_plan_paths; apply write_order_sep).
  pose proof (run_entries_spec e (args_force a) plan w2 Hsep) as Hrun.
  assert (forall r3 w3, run_entries e (args_force a) plan w2 = (r3, w3) ->
            fs_grows (in_project (base ++ [s])) (w_fs w) (w_fs w3)) as Hg3.
  { intros r3 w3 H3. eapply fs_grows_trans; [exact Hg2|].
    eapply run_entries_grows; [|exact H3].
    unfold plan. rewrite file_plan_paths. apply write_order_in_project. }
  destruct (first_refused e (args_force a) (w_fs w2) plan) as [[k ex]|] eqn:Ef.
  - intros [= <- <-].
    destruct (after_entries_streams e (take k plan) w2) as [Hsi Hso].
    rewrite app_nil_r. repeat split; try congruence. by eapply Hg3.
  - rewrite report_spec.
    destruct (after_entries_streams e plan w2) as [Hsi Hso].
    assert (forall j en, plan !! j = Some en ->
              exists m, w_fs (after_entries e w2 plan) !! e_path en
                        = Some (File (e_contents en) m)
                        /\ forall m', e_chmod en = Some m' -> m = m') as Hfiles.
    { intros j en Hj.
      destruct (after_entries_lookup e plan w2 j en Hsep Hj) as (m & Hm & Hc & _).
      eauto. }
    specialize (Hg3 _ _ Hrun).
    assert (fs_grows (in_project (base ++ [s])) (w_fs w2) (w_fs (after_entries e w2 plan)))
      as Hg23.
    { eapply run_entries_grows; [|exact Hrun].
      unfold plan. rewrite file_plan_paths. apply write_order_in_project. }
    clear Hrun. revert Hsi Hso Hfiles Hg3 Hg23.
    generalize (after_entries e w2 plan). intros w3 Hsi Hso Hfiles Hg3 Hg23.
    intros [= <- <-]. simpl.
    split; [done|]. split; [congruence|]. split; [congruence|].
    split; [|split].
    + by eapply fs_grows_some.
    + intros Hf. rewrite <- Hfs1. auto.
    + done.
Qed.

Lemma main_early e a w r w' :
  project_dir_of e a w = None -> main e a w = (r, w') -> w_fs w' = w_fs w.
Proof.
  unfold project_dir_of, main. unfold M_bind at 1.
  destruct (main_inputs e a w) as [[ex|[d base]] w1] eqn:Ei;
    pose proof (main_inputs_spec e a w _ _ Ei) as (Hfs1 & _).
  { by intros _ [= <- <-]. }
  simpl. destruct (slugify d) as [ex|s]; [|done].
  unfold M_bind, lift. by intros _ [= <- <-].
Qed.

Lemma main_late e a w root r w' :
  project_dir_of e a w = Some root -> main e a w = (r, w') ->
  fs_grows (in_project root) (w_fs w) (w_fs w').
Proof.
  unfold project_dir_of.
  destruct (main_inputs e a w) as [[ex|[d base]] w1] eqn:Ei; [done|].
  destruct (slugify d) as [ex|s] eqn:Es; [done|].
  intros [= <-] H. by destruct (main_outcome e a w d base w1 s r w' Ei Es H).
Qed.

(** With both arguments on the command line nothing is asked. *)
Lemma main_inputs_args e a d loc w :
  args_name a = Some d -> d <> [] -> args_location a = Some loc -> loc <> [] ->
  main_inputs e a w =
    if bool_decide (is_Some (w_fs w !! env_resolve e loc)) then
      (inr (d, env_resolve e loc), w)
    else
      (inl (Exn SystemExit (py "Base directory does not exist: "
                            ++ path_str (env_resolve e loc))), w).
Proof.
  intros Hn Hd Hloc Hl. unfold main_inputs. rewrite Hn, Hloc.
  destruct d as [|c d]; [done|]. destruct loc as [|c' loc]; [done|].
  unfold M_bind, or_else, M_ret, path_exists, sys_exit, raise. simpl.
  by destruct (bool_decide _).
Qed.

Lemma slugify_inr_nonempty d s : slugify d = inr s -> d <> [].
Proof. intros H ->. by vm_compute in H. Qed.

Lemma main_directories_conflict root w :
  is_Some (w_fs w !! root) ->
  main_directories false root w
    = (inl (Exn SystemExit (py "Project directory already exists: " ++ path_str root
                            ++ py " (use --force to reuse it)")), w).
Proof.
  intros H. unfold main_directories. unfold M_bind at 1. unfold try_except.
  by rewrite Path_mkdir_exists.
Qed.


Lemma first_refused_None e force fs ens :
  (forall en, en ∈ ens -> write_refusal e force fs (e_path en) = None) ->
  first_refused e force fs ens = None.
Proof.
  induction ens as [|en ens IH]; intros H; simpl; [done|].
  rewrite H by (apply elem_of_cons; by left).
  rewrite IH; [done|]. intros en' Hen'. apply H. apply elem_of_cons. by right.
Qed.


(** * Further properties of safe_write and main *)



(** X5 (safe_write, lines 22-25): without [force] a call that returns found
    no entry at the path, in a directory that exists; the same call with
    [force] does the same. *)
Theorem safe_write_no_clobber e p c w w' :
  safe_write e p c false w = (inr tt, w') ->
  w_fs w !! p = None /\ w_fs w !! parent p = Some Dir
  /\ safe_write e p c true w = (inr tt, w').
Proof.
  rewrite !safe_write_spec.
  destruct (write_refusal e false (w_fs w) p) as [ex|] eqn:Er; [done|].
  intros [= <-].
  apply write_refusal_None in Er as [Hfault [[_ ?]|[Hn Hpar]]]; [done|].
  split; [done|]. split; [done|].
  unfold write_refusal. by rewrite Hn, Hfault, Hpar.
Qed.

Lemma safe_write_no_clobber_witness :
  w_fs (demo_world []) !! [py "tmp"; py "a.txt"] = None
  /\ w_fs (demo_world []) !! parent [py "tmp"; py "a.txt"] = Some Dir
  /\ safe_write demo_env [py "tmp"; py "a.txt"] (py "text") true (demo_world [])
     = (inr tt,
        snd (safe_write demo_env [py "tmp"; py "a.txt"] (py "text") false (demo_world []))).
Proof.
  apply (safe_write_no_clobber demo_env [py "tmp"; py "a.txt"] (py "text") (demo_world [])).
  apply run_result. vm_compute. reflexivity.
Defined.

(** X6 (main, lines 607-655): whatever the outcome, a run keeps the file
    system well formed: every entry still lies in a directory. *)
Theorem main_keeps_wf e a w r w' :
  fs_wf (w_fs w) -> main e a w = (r, w') -> fs_wf (w_fs w').
Proof.
  intros Hwf H. destruct (project_dir_of e a w) as [root|] eqn:Ep.
  - eapply fs_grows_wf; [exact Hwf|]. by eapply main_late.
  - by rewrite (main_early e a w r w' Ep H).
Qed.

Lemma main_keeps_wf_witness :
  fs_wf (w_fs (snd (main demo_env (demo_args (py "My Game!!") true) demo_used_world))).
Proof.
  apply (main_keeps_wf demo_env (demo_args (py "My Game!!") true) demo_used_world
           (fst (main demo_env (demo_args (py "My Game!!") true) demo_used_world))).
  - intros p Hp [n Hn]. revert Hn. unfold demo_used_world, demo_world. simpl w_fs.
    rewrite !lookup_insert. repeat case_decide; subst; try done.
  - apply surjective_pairing.
Defined.

(** X7 (main, lines 607-655): whatever the outcome, a run removes nothing:
    a directory stays a directory and a file stays a file. *)
Theorem main_never_removes e a w r w' q :
  main e a w = (r, w') ->
  (w_fs w !! q = Some Dir -> w_fs w' !! q = Some Dir)
  /\ (is_file (w_fs w !! q) -> is_file (w_fs w' !! q)).
Proof.
  intros H. destruct (project_dir_of e a w) as [root|] eqn:Ep.
  - eapply fs_grows_keeps. by eapply main_late.
  - by rewrite (main_early e a w r w' Ep H).
Qed.

Lemma main_never_removes_witness :
  (w_fs demo_used_world !! demo_root = Some Dir ->
   w_fs (snd (main demo_env (demo_args (py "My Game!!") true) demo_used_world))
     !! demo_root = Some Dir)
  /\ (is_file (w_fs demo_used_world !! demo_root) ->
      is_file (w_fs (snd (main demo_env (demo_args (py "My Game!!") true) demo_used_world))
                 !! demo_root)).
Proof.
  apply (main_never_removes demo_env (demo_args (py "My Game!!") true) demo_used_world
           (fst (main demo_env (demo_args (py "My Game!!") true) demo_used_world))).
  apply surjective_pairing.
Defined.

(** X8 (main, lines 607-655): whatever the outcome, a run changes nothing but
    the twelve paths of its project: the project directory, [src], [cmake]
    and the nine files.  Before line 625 is reached it changes nothing. *)
Theorem main_outside_untouched e a w r w' q :
  main e a w = (r, w') ->
  (forall root, project_dir_of e a w = Some root -> q ∉ project_paths root) ->
  w_fs w' !! q = w_fs w !! q.
Proof.
  intros H Hq. destruct (project_dir_of e a w) as [root|] eqn:Ep.
  - eapply fs_grows_frame; [by eapply main_late|]. by apply Hq.
  - by rewrite (main_early e a w r w' Ep H).
Qed.

Lemma main_outside_untouched_witness :
  w_fs (snd (main demo_env (demo_args (py "My Game!!") true) demo_used_world))
    !! (demo_root ++ [py "notes.txt"])
  = w_fs demo_used_world !! (demo_root ++ [py "notes.txt"]).
Proof.
  apply (main_outside_untouched demo_env (demo_args (py "My Game!!") true) demo_used_world
           (fst (main demo_env (demo_args (py "My Game!!") true) demo_used_world))).
  - apply surjective_pairing.
  - intros root Hr. vm_compute in Hr. injection Hr as <-.
    unfold project_paths, write_order. rewrite !elem_of_cons, elem_of_nil.
    intros H. repeat (destruct H as [H|H]; [vm_compute in H; discriminate H|]).
    exact H.
Defined.

(** X9 (main, lines 607-655): with both arguments on the command line a run
    reads nothing from standard input, and prints the six lines of the report
    when it succeeds and nothing when it does not. *)
Theorem main_report e a w d loc r w' :
  args_name a = Some d -> d <> [] -> args_location a = Some loc -> loc <> [] ->
  main e a w = (r, w') ->
  w_stdin w' = w_stdin w
  /\ w_stdout w' = w_stdout w ++
       match r, slugify d with
       | inr _, inr s => report (env_resolve e loc ++ [s]) s
       | _, _ => []
       end.
Proof.
  intros Hn Hd Hloc Hl.
  pose proof (main_inputs_args e a d loc w Hn Hd Hloc Hl) as Hi.
  destruct (bool_decide (is_Some (w_fs w !! env_resolve e loc))).
  - destruct (slugify d) as [ex|s] eqn:Es.
    + unfold main. unfold M_bind at 1. rewrite Hi. simpl. rewrite Es.
      unfold M_bind, lift. intros [= <- <-]. by rewrite app_nil_r.
    + intros H.
      destruct (main_outcome e a w d _ w s r w' Hi Es H) as (_ & Hsi & Hso & _).
      split; [done|]. rewrite Hso. by destruct r.
  - unfold main. unfold M_bind at 1. rewrite Hi. intros [= <- <-].
    by rewrite app_nil_r.
Qed.

Lemma main_report_witness :
  w_stdin (snd (main demo_env (demo_args (py "My Game!!") false) (demo_world [])))
  = w_stdin (demo_world [])
  /\ w_stdout (snd (main demo_env (demo_args (py "My Game!!") false) (demo_world [])))
     = w_stdout (demo_world []) ++
       match (inr tt : exn + unit), slugify (py "My Game!!") with
       | inr _, inr s => report (env_resolve demo_env (py "/tmp") ++ [s]) s
       | _, _ => []
       end.
Proof.
  apply (main_report demo_env (demo_args (py "My Game!!") false) (demo_world [])
           (py "My Game!!") (py "/tmp") (inr tt)).
  - reflexivity.
  - vm_compute. discriminate.
  - reflexivity.
  - vm_compute. discriminate.
  - apply run_result. vm_compute. reflexivity.
Defined.



(** X11 (main, lines 607-655): after a run that succeeded, the same command
    without [--force] ends with the conflict message and changes nothing. *)
Theorem main_second_run e a w d loc s w' :
  args_name a = Some d -> d <> [] -> args_location a = Some loc -> loc <> [] ->
  slugify d = inr s ->
  main e a w = (inr tt, w') ->
  main e (Args (Some d) (Some loc) false) w'
    = (inl (Exn SystemExit (py "Project directory already exists: "
                            ++ path_str (env_resolve e loc ++ [s])
                            ++ py " (use --force to reuse it)")), w').
Proof.
  intros Hn Hd Hloc Hl Hs H.
  pose proof (main_inputs_args e a d loc w Hn Hd Hloc Hl) as Hi.
  destruct (bool_decide (is_Some (w_fs w !! env_resolve e loc))) eqn:Eb.
  2:{ revert H. unfold main. unfold M_bind at 1. by rewrite Hi. }
  apply bool_decide_eq_true_1 in Eb.
  destruct (main_outcome e a w d _ w s _ w' Hi Hs H) as (Hg & _ & _ & Hroot & _).
  pose proof (main_inputs_args e (Args (Some d) (Some loc) false) d loc w'
                eq_refl Hd eq_refl Hl) as Hi'.
  rewrite bool_decide_eq_true_2 in Hi' by (by eapply fs_grows_some).
  rewrite (main_unfold e _ w' d _ w' s Hi' Hs).
  cbn [args_force]. by rewrite main_directories_conflict.
Qed.

Lemma main_second_run_witness :
  main demo_env (Args (Some (py "My Game!!")) (Some (py "/tmp")) false)
    (snd (main demo_env (demo_args (py "My Game!!") false) (demo_world [])))
  = (inl (Exn SystemExit (py "Project directory already exists: "
                          ++ path_str (env_resolve demo_env (py "/tmp") ++ [py "my_game"])
                          ++ py " (use --force to reuse it)")),
     snd (main demo_env (demo_args (py "My Game!!") false) (demo_world []))).
Proof.
  apply (main_second_run demo_env (demo_args (py "My Game!!") false) (demo_world [])
           (py "My Game!!") (py "/tmp") (py "my_game")).
  - reflexivity.
  - vm_compute. discriminate.
  - reflexivity.
  - vm_compute. discriminate.
  - vm_compute. reflexivity.
  - apply run_result. vm_compute. reflexivity.
Defined.











(** * Templates with several replacement fields *)

Lemma split_lines_hd_tl c : split_lines c = first_line c :: rest_lines c.
Proof.
  unfold first_line, rest_lines. pose proof (split_lines_nonempty c).
  by destruct (split_lines c).
Qed.

Lemma init_lines_multiline c :
  rest_lines c <> [] -> init_lines c = first_line c :: removelast (rest_lines c).
Proof.
  intros H. unfold init_lines. rewrite split_lines_hd_tl.
  destruct (rest_lines c); [done|]. reflexivity.
Qed.

Lemma last_line_multiline c :
  rest_lines c <> [] -> last_line c = List.last (rest_lines c) [].
Proof.
  intros H. unfold last_line. rewrite split_lines_hd_tl.
  destruct (rest_lines c); [done|]. reflexivity.
Qed.

Lemma rest_lines_last c :
  rest_lines c <> [] -> rest_lines c = removelast (rest_lines c) ++ [last_line c].
Proof.
  intros H. rewrite (last_line_multiline c H). by apply app_removelast_last.
Qed.

Lemma lines_hole c x R :
  single_line x = true -> rest_lines c <> [] ->
  first_line (c ++ x ++ R) = first_line c
  /\ rest_lines (c ++ x ++ R)
     = removelast (rest_lines c) ++ (last_line c ++ x ++ first_line R) :: rest_lines R.
Proof.
  intros Hx Hc. unfold first_line at 1, rest_lines at 1.
  rewrite split_lines_hole by done. by rewrite init_lines_multiline.
Qed.

Lemma lines_app c R :
  rest_lines c <> [] ->
  first_line (c ++ R) = first_line c
  /\ rest_lines (c ++ R)
     = removelast (rest_lines c) ++ (last_line c ++ first_line R) :: rest_lines R.
Proof.
  intros Hc. unfold first_line at 1, rest_lines at 1.
  rewrite split_lines_app. by rewrite init_lines_multiline.
Qed.

(** A further field in the text after a field: what [textwrap.dedent] makes of
    the text splits at it, when the field stands behind a character of its
    line that is not a blank. *)
Lemma hole_after_hole m c x R :
  single_line x = true -> rest_lines c <> [] ->
  forallb is_blank (last_line c) = false ->
  (length m <= length (last_line c))%nat ->
  hole_after m (c ++ x ++ R) = hole_after m c ++ x ++ hole_after m R.
Proof.
  intros Hx Hc Hb Hlen. unfold hole_after.
  destruct (lines_hole c x R Hx Hc) as [-> ->].
  rewrite (rest_lines_last c Hc) at 2.
  rewrite !map_app. simpl map. rewrite !join_rest_app. simpl join_rest.
  rewrite blank_line_app by done. rewrite cut_margin_app by done.
  assert (blank_line (last_line c) = last_line c) as ->.
  { rewrite <- (app_nil_r (last_line c)) at 1. rewrite blank_line_app by done.
    apply app_nil_r. }
  rewrite ?app_nil_r. rewrite <- ?app_assoc. simpl. by rewrite <- ?app_assoc.
Qed.

(** Such a field does not change the margin. *)
Lemma hole_margin_hole pre c x R :
  single_line x = true -> rest_lines c <> [] ->
  forallb is_blank (last_line c) = false ->
  hole_margin pre (c ++ x ++ R) = hole_margin pre (c ++ R).
Proof.
  intros Hx Hc Hb. unfold hole_margin.
  destruct (lines_hole c x R Hx Hc) as [_ ->].
  destruct (lines_app c R Hc) as [_ ->].
  rewrite !map_app. simpl map.
  rewrite !blank_line_app by done.
  set (A := map blank_line (init_lines pre)).
  set (B := map blank_line (removelast (rest_lines c))).
  set (C := map blank_line (rest_lines R)).
  change (A ++ last_line pre :: B ++ (last_line c ++ x ++ first_line R) :: C)
    with (A ++ (last_line pre :: B) ++ (last_line c ++ x ++ first_line R) :: C).
  change (A ++ last_line pre :: B ++ (last_line c ++ first_line R) :: C)
    with (A ++ (last_line pre :: B) ++ (last_line c ++ first_line R) :: C).
  rewrite !(app_assoc A).
  by rewrite !margin_of_hole.
Qed.

(** [str.strip] around two fields. *)
Lemma render_holes P x Q :
  lstrip_by is_space P <> [] -> rstrip_by is_space Q <> [] ->
  str_strip (P ++ x ++ Q) ++ py "\n"
    = lstrip_by is_space P ++ x ++ rstrip_by is_space Q ++ py "\n".
Proof.
  intros HP HQ. unfold str_strip. rewrite strip_by_hole by done.
  by rewrite <- !app_assoc.
Qed.

Ltac closed_eq := vm_compute; reflexivity.

(** * build_readme and build_build_script *)

(** X16 (build_readme, lines 323-355): for a display name and a slug without
    a line feed the README is its fixed text with the name as the title and
    the slug in the run command. *)
Theorem build_readme_single_line d s :
  single_line d = true -> single_line s = true ->
  build_readme d s = readme_head ++ d ++ readme_mid ++ s ++ readme_tail.
Proof.
  intros Hd Hs. unfold build_readme.
  match goal with
  | |- str_strip (textwrap_dedent (?p1 ++ d ++ ?p2 ++ s ++ ?p3)) ++ _ = _ =>
      set (P1 := p1); set (P2 := p2); set (P3 := p3)
  end.
  assert (hole_margin P1 (P2 ++ s ++ P3) = hole_margin P1 (P2 ++ P3)) as Hm
    by (apply hole_margin_hole; [done | by vm_compute | by vm_compute]).
  rewrite dedent_hole; [|done | by vm_compute | rewrite Hm; vm_compute; lia].
  rewrite Hm. set (m := hole_margin P1 (P2 ++ P3)).
  rewrite hole_after_hole; [|done | by vm_compute | by vm_compute | vm_compute; lia].
  replace (hole_before m P1 ++ d ++ hole_after m P2 ++ s ++ hole_after m P3)
    with (hole_before m P1 ++ (d ++ hole_after m P2 ++ s) ++ hole_after m P3)
    by (by rewrite <- !app_assoc).
  rewrite render_holes; [|by vm_compute | by vm_compute].
  rewrite <- !app_assoc.
  replace (lstrip_by is_space (hole_before m P1)) with readme_head by closed_eq.
  replace (hole_after m P2) with readme_mid by closed_eq.
  replace (rstrip_by is_space (hole_after m P3) ++ py "\n") with readme_tail by closed_eq.
  reflexivity.
Qed.

Lemma build_readme_single_line_witness :
  build_readme (py "My Game!!") (py "my_game")
    = readme_head ++ py "My Game!!" ++ readme_mid ++ py "my_game" ++ readme_tail.
Proof.
  apply (build_readme_single_line (py "My Game!!") (py "my_game")); reflexivity.
Defined.

(** X17 (build_build_script, lines 358-524): for a slug without a line feed
    the build script is its fixed text with the slug at its three places: the
    two defaults of [APP_PATH] and the local [slug] of [resolve_executable]. *)
Theorem build_build_script_single_line s :
  single_line s = true ->
  build_build_script s
    = build_script_head ++ s ++ build_script_mid1 ++ s ++ build_script_mid2 ++ s
        ++ build_script_tail.
Proof.
  intros Hs. unfold build_build_script.
  match goal with
  | |- str_strip (textwrap_dedent (?p1 ++ s ++ ?p2 ++ s ++ ?p3 ++ s ++ ?p4)) ++ _ = _ =>
      set (P1 := p1); set (P2 := p2); set (P3 := p3); set (P4 := p4)
  end.
  assert (hole_margin P1 (P2 ++ s ++ P3 ++ s ++ P4) = hole_margin P1 ((P2 ++ P3) ++ P4))
    as Hm.
  { rewrite hole_margin_hole; [|done | by vm_compute | by vm_compute].
    rewrite (app_assoc P2 P3).
    apply hole_margin_hole; [done | by vm_compute | by vm_compute]. }
  rewrite dedent_hole; [|done | by vm_compute | rewrite Hm; vm_compute; lia].
  rewrite Hm. set (m := hole_margin P1 ((P2 ++ P3) ++ P4)).
  rewrite hole_after_hole; [|done | by vm_compute | by vm_compute | vm_compute; lia].
  rewrite hole_after_hole; [|done | by vm_compute | by vm_compute | vm_compute; lia].
  replace (hole_before m P1 ++ s ++ hole_after m P2 ++ s ++ hole_after m P3 ++ s
             ++ hole_after m P4)
    with (hole_before m P1 ++ (s ++ hole_after m P2 ++ s ++ hole_after m P3 ++ s)
            ++ hole_after m P4)
    by (by rewrite <- !app_assoc).
  rewrite render_holes; [|by vm_compute | by vm_compute].
  rewrite <- !app_assoc.
  replace (lstrip_by is_space (hole_before m P1)) with build_script_head by closed_eq.
  replace (hole_after m P2) with build_script_mid1 by closed_eq.
  replace (hole_after m P3) with build_script_mid2 by closed_eq.
  replace (rstrip_by is_space (hole_after m P4) ++ py "\n") with build_script_tail
    by closed_eq.
  reflexivity.
Qed.

Lemma build_build_script_single_line_witness :
  build_build_script (py "my_game")
    = build_script_head ++ py "my_game" ++ build_script_mid1 ++ py "my_game"
        ++ build_script_mid2 ++ py "my_game" ++ build_script_tail.
Proof.
  apply (build_build_script_single_line (py "my_game")). reflexivity.
Defined.

(** * What textwrap.dedent and str.strip never remove *)

Lemma is_blank_space c : is_blank c = true -> is_space c = true.
Proof.
  unfold is_blank. intros H. apply orb_true_iff in H as [H|H];
    apply N.eqb_eq in H; by subst.
Qed.

Lemma not_space_not_blank c : is_space c = false -> is_blank c = false.
Proof.
  intros H. destruct (is_blank c) eqn:E; [|done].
  apply is_blank_space in E. congruence.
Qed.

Lemma not_space_not_newline c : is_space c = false -> (c =? newline) = false.
Proof.
  intros H. destruct (c =? newline) eqn:E; [|done].
  apply N.eqb_eq in E. by subst.
Qed.

Lemma blank_single_line b : forallb is_blank b = true -> single_line b = true.
Proof.
  unfold single_line. induction b as [|c b IH]; simpl; [done|].
  intros H. apply andb_true_iff in H as [Hc Hb]. rewrite IH by done.
  destruct (c =? newline) eqn:E; [|done].
  apply N.eqb_eq in E. by subst.
Qed.

Lemma visible_app a b : visible (a ++ b) = visible a ++ visible b.
Proof. apply List.filter_app. Qed.

Lemma visible_blank l : forallb is_blank l = true -> visible l = [].
Proof.
  induction l as [|c l IH]; simpl; [done|].
  intros H. apply andb_true_iff in H as [Hc Hl]. rewrite Hc. simpl. auto.
Qed.

Lemma visible_blank_line l : visible (blank_line l) = visible l.
Proof.
  unfold blank_line. destruct (forallb is_blank l) eqn:E; [|done].
  by rewrite (visible_blank l).
Qed.

Lemma take_blanks_blank l : forallb is_blank (take_blanks l) = true.
Proof.
  induction l as [|c l IH]; simpl; [done|].
  destruct (is_blank c) eqn:E; simpl; [|done]. by rewrite E.
Qed.

Lemma common_prefix_blank a b :
  forallb is_blank a = true -> forallb is_blank (common_prefix a b) = true.
Proof.
  revert b. induction a as [|x a IH]; intros [|y b]; simpl; try done.
  intros H. apply andb_true_iff in H as [Hx Ha].
  destruct (x =? y); simpl; [|done]. by rewrite Hx, IH.
Qed.

Lemma margin_fold_blank l acc m :
  Forall (fun i => forallb is_blank i = true) l ->
  (forall a, acc = Some a -> forallb is_blank a = true) ->
  fold_left margin_step l acc = Some m -> forallb is_blank m = true.
Proof.
  intros Hl. revert acc. induction Hl as [|i l Hi _ IH]; intros acc Hacc; simpl.
  { intros ->. by apply Hacc. }
  apply IH. intros a. destruct acc as [a0|]; simpl.
  - specialize (Hacc a0 eq_refl).
    destruct (starts_with a0 i); [by intros [= <-]|].
    destruct (starts_with i a0); intros [= <-]; [done|].
    by apply common_prefix_blank.
  - by intros [= <-].
Qed.

Lemma margin_of_blank ls m : margin_of ls = Some m -> forallb is_blank m = true.
Proof.
  unfold margin_of. apply margin_fold_blank; [|done].
  apply Forall_forall. intros i Hi.
  apply list_elem_of_omap in Hi as (l & _ & Hl). unfold line_indent in Hl.
  destruct (forallb is_blank l); [done|]. injection Hl as <-.
  apply take_blanks_blank.
Qed.

Lemma visible_cut_margin m l :
  forallb is_blank m = true -> visible (cut_margin m l) = visible l.
Proof.
  intros Hm. unfold cut_margin. destruct (starts_with m l) eqn:E; [|done].
  apply starts_with_spec in E as [r ->].
  rewrite drop_app_length, visible_app. by rewrite (visible_blank m).
Qed.

Lemma visible_join_rest f ls :
  (forall l, visible (f l) = visible l) ->
  visible (join_rest (map f ls)) = visible (join_rest ls).
Proof.
  intros Hf. induction ls as [|l ls IH]; [done|].
  change (visible (newline :: f l ++ join_rest (map f ls))
          = visible (newline :: l ++ join_rest ls)).
  change (newline :: visible (f l ++ join_rest (map f ls))
          = newline :: visible (l ++ join_rest ls)).
  by rewrite !visible_app, Hf, IH.
Qed.

Lemma visible_join f ls :
  (forall l, visible (f l) = visible l) ->
  visible (join_lines (map f ls)) = visible (join_lines ls).
Proof.
  intros Hf. destruct ls as [|l ls]; [done|].
  change (map f (l :: ls)) with (f l :: map f ls).
  rewrite !join_lines_cons, !visible_app, Hf. by rewrite visible_join_rest.
Qed.

(** [textwrap.dedent] removes spaces and tabs only. *)
Lemma visible_dedent t : visible (textwrap_dedent t) = visible t.
Proof.
  rewrite textwrap_dedent_cut. cbv zeta.
  rewrite visible_join.
  - rewrite visible_join by apply visible_blank_line. by rewrite join_split.
  - intros l. apply visible_cut_margin.
    destruct (margin_of _) as [m|] eqn:E; [|done]. by apply margin_of_blank in E.
Qed.

Lemma starts_visible_spec s :
  starts_visible s = true ->
  exists b c r, s = b ++ c :: r /\ forallb is_blank b = true /\ is_space c = false.
Proof.
  induction s as [|x s IH]; simpl; [done|].
  destruct (is_blank x) eqn:E.
  - intros H. destruct (IH H) as (b & c & r & -> & Hb & Hc).
    exists (x :: b), c, r. simpl. by rewrite E, Hb.
  - intros H. exists [], x, s. by apply negb_true_iff in H.
Qed.

Lemma starts_visible_app a r : starts_visible a = true -> starts_visible (a ++ r) = true.
Proof.
  induction a as [|x a IH]; simpl; [done|]. by destruct (is_blank x).
Qed.

Lemma ends_visible_line_spec s :
  ends_visible_line s = true ->
  exists r c b, s = r ++ c :: newline :: b
                /\ forallb is_blank b = true /\ is_space c = false.
Proof.
  unfold ends_visible_line.
  destruct (lstrip_by_split is_blank (rev s)) as (k & Hk & Hblank).
  destruct (lstrip_by is_blank (rev s)) as [|n [|c t]]; [done|done|].
  intros H. apply andb_true_iff in H as [Hn Hc].
  apply N.eqb_eq in Hn as ->. apply negb_true_iff in Hc.
  exists (rev t), c, (rev k). split; [|split; [|done]].
  - rewrite <- (rev_involutive s), Hk. rewrite rev_app_distr. simpl.
    by rewrite <- !app_assoc.
  - apply forallb_forall. intros x Hx. apply in_rev in Hx.
    by apply (proj1 (List.Forall_forall _ _) Hblank).
Qed.

Lemma ends_visible_line_app a b :
  ends_visible_line b = true -> ends_visible_line (a ++ b) = true.
Proof.
  unfold ends_visible_line. rewrite rev_app_distr.
  destruct (lstrip_by is_blank (rev b)) as [|n [|c t]] eqn:E; [done|done|].
  intros H. rewrite lstrip_by_app by (by rewrite E). by rewrite E.
Qed.

Lemma blank_prefix m b c f r :
  forallb is_blank m = true -> is_blank c = false ->
  b ++ c :: f = m ++ r -> exists b1, b = m ++ b1 /\ r = b1 ++ c :: f.
Proof.
  revert b. induction m as [|x m IH]; intros b Hm Hc H; simpl in *.
  { by exists b. }
  apply andb_true_iff in Hm as [Hx Hm].
  destruct b as [|y b]; simpl in H.
  - injection H as -> _. congruence.
  - injection H as -> H. destruct (IH b Hm Hc H) as (b1 & -> & ->). by exists b1.
Qed.

Lemma forallb_blank_app a b :
  forallb is_blank (a ++ b) = true ->
  forallb is_blank a = true /\ forallb is_blank b = true.
Proof. rewrite forallb_app. apply andb_true_iff. Qed.

(** The first line keeps its first visible character. *)
Lemma dedent_starts t :
  starts_visible t = true ->
  exists b c r, textwrap_dedent t = b ++ c :: r
                /\ forallb is_blank b = true /\ is_space c = false.
Proof.
  intros H. apply starts_visible_spec in H as (b0 & c0 & ta & -> & Hb & Hc).
  pose proof (not_space_not_blank c0 Hc) as Hc'.
  rewrite textwrap_dedent_cut. cbv zeta.
  rewrite split_lines_app.
  unfold init_lines, last_line.
  rewrite (split_lines_single b0) by (by apply blank_single_line).
  simpl removelast. simpl List.last. simpl app.
  unfold first_line, rest_lines. rewrite split_lines_cons.
  rewrite (not_space_not_newline c0 Hc). simpl hd. simpl tl.
  set (f := hd [] (split_lines ta)). set (R := tl (split_lines ta)).
  set (l0 := b0 ++ c0 :: f).
  assert (forallb is_blank l0 = false) as Hl0.
  { unfold l0. rewrite forallb_app. simpl. rewrite Hc'. simpl. apply andb_false_r. }
  simpl map. unfold blank_line at 1 3. rewrite Hl0.
  set (m := default [] _).
  assert (forallb is_blank m = true) as Hm.
  { unfold m. destruct (margin_of _) as [m'|] eqn:E; [|done].
    by apply margin_of_blank in E. }
  rewrite join_lines_cons.
  unfold cut_margin at 1. destruct (starts_with m l0) eqn:Es.
  - apply starts_with_spec in Es as [r Hr].
    destruct (blank_prefix m b0 c0 f r Hm Hc' Hr) as (b1 & Hb0 & ->).
    rewrite Hr, drop_app_length. exists b1, c0. eexists.
    split; [by rewrite <- app_assoc|]. split; [|done].
    rewrite Hb0 in Hb. by apply forallb_blank_app in Hb as [_ ?].
  - exists b0, c0. eexists. split; [unfold l0; by rewrite <- app_assoc|]. done.
Qed.

Lemma blank_prefix_last m l c r :
  forallb is_blank m = true -> is_blank c = false ->
  l ++ [c] = m ++ r -> exists r', r = r' ++ [c].
Proof.
  intros Hm Hc H. destruct r as [|y r _] using rev_ind.
  - rewrite app_nil_r in H. subst m. apply forallb_blank_app in Hm as [_ Hm].
    simpl in Hm. by rewrite Hc in Hm.
  - rewrite app_assoc in H. apply app_inj_tail in H as [_ ->]. by exists r.
Qed.

(** The last line that is not blank keeps its last character, and the blank
    line after it becomes empty. *)
Lemma dedent_ends t :
  ends_visible_line t = true ->
  exists d c, textwrap_dedent t = d ++ [c; newline] /\ is_space c = false.
Proof.
  intros H. apply ends_visible_line_spec in H as (r & c & bz & -> & Hb & Hc).
  pose proof (not_space_not_blank c Hc) as Hc'.
  rewrite textwrap_dedent_cut. cbv zeta.
  assert (split_lines (r ++ c :: newline :: bz)
          = init_lines r ++ [last_line r ++ [c]; bz]) as ->.
  { change (r ++ c :: newline :: bz) with (r ++ [c] ++ newline :: bz).
    rewrite split_lines_hole by (simpl; by rewrite (not_space_not_newline c Hc)).
    unfold first_line, rest_lines. rewrite split_lines_cons. simpl.
    by rewrite (split_lines_single bz) by (by apply blank_single_line). }
  rewrite map_app. simpl map.
  assert (blank_line (last_line r ++ [c]) = last_line r ++ [c]) as ->.
  { unfold blank_line. rewrite forallb_app. simpl. rewrite Hc'. simpl.
    by rewrite andb_false_r. }
  assert (blank_line bz = []) as -> by (unfold blank_line; by rewrite Hb).
  set (m := default [] _).
  assert (forallb is_blank m = true) as Hm.
  { unfold m. destruct (margin_of _) as [m'|] eqn:E; [|done].
    by apply margin_of_blank in E. }
  rewrite map_app. simpl map.
  assert (cut_margin m [] = []) as ->.
  { unfold cut_margin. destruct (starts_with m []); [|done]. by rewrite drop_nil. }
  assert (exists x, cut_margin m (last_line r ++ [c]) = x ++ [c]) as [x ->].
  { unfold cut_margin. destruct (starts_with m (last_line r ++ [c])) eqn:Es; [|eauto].
    apply starts_with_spec in Es as [r' Hr].
    destruct (blank_prefix_last m _ c r' Hm Hc' Hr) as [r'' ->].
    rewrite Hr, drop_app_length. eauto. }
  rewrite join_lines_hole. simpl join_rest.
  eexists. exists c. split; [reflexivity|done].
Qed.

Lemma ends_overlap (b : pystr) c0 r d cp n :
  b ++ c0 :: r = d ++ [cp; n] -> c0 <> n ->
  exists r', c0 :: r = r' ++ [cp; n].
Proof.
  intros H Hne. destruct r as [|x r1 _] using rev_ind.
  - change (d ++ [cp; n]) with (d ++ [cp] ++ [n]) in H. rewrite app_assoc in H.
    apply app_inj_tail in H as [_ ?]. done.
  - change (b ++ c0 :: r1 ++ [x]) with (b ++ (c0 :: r1) ++ [x]) in H.
    change (d ++ [cp; n]) with (d ++ [cp] ++ [n]) in H. rewrite !app_assoc in H.
    apply app_inj_tail in H as [H ->].
    destruct r1 as [|y r2 _] using rev_ind.
    + apply app_inj_tail in H as [_ ->]. by exists [].
    + change (b ++ c0 :: r2 ++ [y]) with (b ++ (c0 :: r2) ++ [y]) in H.
      rewrite app_assoc in H. apply app_inj_tail in H as [_ ->].
      exists (c0 :: r2). simpl. by rewrite <- app_assoc.
Qed.

(** Every renderer returns [textwrap.dedent(template).strip() + "\n"]: when
    the template starts, after blanks, with a character that is not white
    space and ends with such a character, a line feed and blanks, the result
    has the characters of the template but for spaces and tabs. *)
Lemma visible_render t :
  starts_visible t = true -> ends_visible_line t = true ->
  visible (str_strip (textwrap_dedent t) ++ py "\n") = visible t.
Proof.
  intros Hs He. rewrite <- (visible_dedent t).
  destruct (dedent_starts t Hs) as (b & c0 & r & Hd & Hb & Hc0).
  destruct (dedent_ends t He) as (d & cp & Hd' & Hcp).
  rewrite Hd in Hd'.
  destruct (ends_overlap b c0 r d cp newline Hd') as [r' Hr].
  { intros ->. done. }
  assert (str_strip (b ++ c0 :: r) ++ py "\n" = c0 :: r) as Hstrip.
  { unfold str_strip, strip_by.
    rewrite lstrip_by_lead.
    2:{ apply Forall_forall. intros x Hx. apply is_blank_space.
        rewrite forallb_forall in Hb. apply Hb. by apply list_elem_of_In. }
    simpl lstrip_by. rewrite Hc0. rewrite Hr.
    rewrite rstrip_by_app by (simpl; by rewrite Hcp).
    simpl rstrip_by. rewrite Hcp. by rewrite <- app_assoc. }
  rewrite Hd, Hstrip, visible_app. by rewrite (visible_blank b).
Qed.

(** X18 (build_main_cpp, lines 122-142): whatever the display name -- also
    one with line feeds, quotes or backslashes -- the entry-point source has
    the characters of its fixed text with the name in the title, in order;
    only spaces and tabs can differ. *)
Theorem build_main_cpp_visible d :
  visible (build_main_cpp d) = visible (main_cpp_head ++ d ++ main_cpp_tail).
Proof.
  unfold build_main_cpp.
  match goal with
  | |- visible (str_strip (textwrap_dedent (?p1 ++ d ++ ?p2)) ++ _) = _ =>
      set (P1 := p1); set (P2 := p2)
  end.
  rewrite visible_render.
  - rewrite !visible_app.
    replace (visible P1) with (visible main_cpp_head) by closed_eq.
    by replace (visible P2) with (visible main_cpp_tail) by closed_eq.
  - apply starts_visible_app. closed_eq.
  - rewrite app_assoc. apply ends_visible_line_app. closed_eq.
Qed.

(** X19 (build_readme, lines 323-355): whatever the display name and the
    slug, the README has the characters of its fixed text with the name and
    the slug at their places, in order; only spaces and tabs can differ. *)
Theorem build_readme_visible d s :
  visible (build_readme d s)
    = visible (readme_head ++ d ++ readme_mid ++ s ++ readme_tail).
Proof.
  unfold build_readme.
  match goal with
  | |- visible (str_strip (textwrap_dedent (?p1 ++ d ++ ?p2 ++ s ++ ?p3)) ++ _) = _ =>
      set (P1 := p1); set (P2 := p2); set (P3 := p3)
  end.
  rewrite visible_render.
  - rewrite !visible_app.
    replace (visible P1) with (visible readme_head) by closed_eq.
    replace (visible P2) with (visible readme_mid) by closed_eq.
    by replace (visible P3) with (visible readme_tail) by closed_eq.
  - apply starts_visible_app. closed_eq.
  - rewrite !app_assoc. apply ends_visible_line_app. closed_eq.
Qed.

(** * Further properties of main: the record of a run, and [--force] *)

Lemma mkdir_no_parents_inr p w w' :
  mkdir_no_parents p true w = (inr tt, w') ->
  w' = if absent (w_fs w) p then set_fs w (<[p := Dir]> (w_fs w)) (EvMkdir p) else w.
Proof.
  unfold mkdir_no_parents, try_except, os_mkdir, absent.
  destruct (w_fs w !! p) as [[|c m]|] eqn:Ep; simpl.
  - unfold M_bind, path_is_dir, M_ret. rewrite Ep. simpl. by intros [= <-].
  - unfold M_bind, path_is_dir, raise. rewrite Ep. simpl. by intros [=].
  - destruct (w_fs w !! parent p) as [[|c m]|] eqn:Epar; simpl.
    + by intros [= <-].
    + unfold M_bind, path_is_dir, raise. rewrite Ep. simpl. by intros [=].
    + by intros [=].
Qed.

Lemma mkdir_no_parents_exists p w :
  w_fs w !! p = Some Dir -> mkdir_no_parents p true w = (inr tt, w).
Proof.
  intros H. unfold mkdir_no_parents, try_except, os_mkdir. rewrite H. simpl.
  unfold M_bind, path_is_dir, M_ret. by rewrite H.
Qed.

Lemma root_mkdir_inr force (base : path) s w w1 :
  is_Some (w_fs w !! base) ->
  try_except (Path_mkdir (base ++ [s]) true false)
    (fun k => exn_kind_eqb k FileExistsError)
    (fun _ =>
       if negb force then
         sys_exit (py "Project directory already exists: " ++ path_str (base ++ [s])
                   ++ py " (use --force to reuse it)")
       else M_ret tt) w = (inr tt, w1) ->
  w1 = if absent (w_fs w) (base ++ [s])
       then set_fs w (<[base ++ [s] := Dir]> (w_fs w)) (EvMkdir (base ++ [s]))
       else w.
Proof.
  intros Hbase. unfold try_except, absent.
  destruct (w_fs w !! (base ++ [s])) as [n|] eqn:Er.
  - rewrite Path_mkdir_exists by (by rewrite Er).
    change (exn_kind_eqb (exn_class (os_error FileExistsError (py "17") (py "File exists")
                                       (base ++ [s]))) FileExistsError) with true.
    cbv iota. destruct force; simpl; [|by intros [=]]. by intros [= <-].
  - destruct (Path_mkdir (base ++ [s]) true false w) as [r w'] eqn:E.
    pose proof (Path_mkdir_fresh base s w r w' Er Hbase E) as H.
    destruct r as [ex|[]].
    + destruct H as [Hc ->]. rewrite Hc. simpl. by intros [=].
    + destruct H as [_ ->]. by intros [= <-].
Qed.

Lemma absent_insert_ne fs (p q : path) n : q <> p -> absent (<[q := n]> fs) p = absent fs p.
Proof. intros H. unfold absent. by rewrite lookup_insert_ne. Qed.

(** Lines 627-635, when they succeed, made the directories that were missing,
    in the order of the source. *)
Lemma main_directories_inr force (base : path) s w w2 :
  is_Some (w_fs w !! base) ->
  main_directories force (base ++ [s]) w = (inr tt, w2) ->
  w_trace w2
    = w_trace w
      ++ map EvMkdir
           (List.filter (absent (w_fs w))
              [base ++ [s]; (base ++ [s]) ++ [py "src"]; (base ++ [s]) ++ [py "cmake"]]).
Proof.
  intros Hbase. unfold main_directories. set (root := base ++ [s]).
  unfold M_bind at 1.
  destruct (try_except _ _ _ w) as [[ex|[]] w1] eqn:E1; [by intros [=]|].
  apply root_mkdir_inr in E1; [|done]. fold root in E1.
  unfold M_bind, Path_mkdir.
  destruct (mkdir_no_parents (root ++ [py "src"]) true w1) as [[ex|[]] w1'] eqn:E2;
    [by intros [=]|].
  destruct (mkdir_no_parents (root ++ [py "cmake"]) true w1') as [[ex|[]] w1''] eqn:E3;
    [by intros [=]|].
  intros [= <-].
  apply mkdir_no_parents_inr in E2, E3.
  assert (root ++ [py "src"] <> root) as Hsr by apply snoc_neq.
  assert (root ++ [py "cmake"] <> root) as Hcr by apply snoc_neq.
  assert (root ++ [py "cmake"] <> root ++ [py "src"]) as Hcs.
  { intros H. apply app_inv_head in H. by vm_compute in H. }
  assert (absent (w_fs w1) (root ++ [py "src"]) = absent (w_fs w) (root ++ [py "src"])) as Ha2.
  { rewrite E1. destruct (absent (w_fs w) root); [|done]. simpl.
    by apply absent_insert_ne. }
  assert (absent (w_fs w1') (root ++ [py "cmake"]) = absent (w_fs w) (root ++ [py "cmake"]))
    as Ha3.
  { rewrite E2, Ha2. rewrite E1.
    destruct (absent (w_fs w) (root ++ [py "src"])), (absent (w_fs w) root); simpl;
      rewrite ?absent_insert_ne; done. }
  rewrite Ha3 in E3. rewrite Ha2 in E2. subst w1'' w1' w1. simpl List.filter.
  destruct (absent (w_fs w) root), (absent (w_fs w) (root ++ [py "src"])),
    (absent (w_fs w) (root ++ [py "cmake"])); simpl;
    rewrite <- ?app_assoc, ?app_nil_r; reflexivity.
Qed.

(** X20 (main, lines 627-648): a run that succeeds made exactly those of the
    project directory, [src] and [cmake] that were missing, then wrote the
    nine files in the order of the source, changing the mode of [build.sh]
    right after writing it; it did nothing else to the file system. *)
Theorem main_success_trace e a w d loc s w' :
  args_name a = Some d -> args_location a = Some loc -> loc <> [] ->
  slugify d = inr s ->
  main e a w = (inr tt, w') ->
  w_trace w'
    = w_trace w
      ++ map EvMkdir
           (List.filter (absent (w_fs w))
              [env_resolve e loc ++ [s];
               (env_resolve e loc ++ [s]) ++ [py "src"];
               (env_resolve e loc ++ [s]) ++ [py "cmake"]])
      ++ flat_map entry_events (file_plan d s (env_resolve e loc ++ [s])).
Proof.
  intros Hn Hloc Hl Hs.
  pose proof (main_inputs_args e a d loc w Hn (slugify_inr_nonempty d s Hs) Hloc Hl) as Hi.
  destruct (bool_decide (is_Some (w_fs w !! env_resolve e loc))) eqn:Eb.
  2:{ unfold main. unfold M_bind at 1. rewrite Hi. by intros [=]. }
  apply bool_decide_eq_true_1 in Eb.
  rewrite (main_unfold e a w d _ w s Hi Hs).
  destruct (main_directories (args_force a) (env_resolve e loc ++ [s]) w)
    as [[ex|[]] w2] eqn:Ed; [by intros [=]|].
  apply main_directories_inr in Ed; [|done].
  destruct (first_refused _ _ _ _) as [[k ex]|]; [by intros [=]|].
  rewrite report_spec.
  pose proof (after_entries_trace e (file_plan d s (env_resolve e loc ++ [s])) w2) as Ht.
  revert Ht. generalize (after_entries e w2 (file_plan d s (env_resolve e loc ++ [s]))).
  intros w3 Ht [= <-]. simpl w_trace. by rewrite Ht, Ed, <- app_assoc.
Qed.

Lemma main_success_trace_witness :
  w_trace (snd (main demo_env (demo_args (py "My Game!!") true) demo_used_world))
    = w_trace demo_used_world
      ++ map EvMkdir
           (List.filter (absent (w_fs demo_used_world))
              [env_resolve demo_env (py "/tmp") ++ [py "my_game"];
               (env_resolve demo_env (py "/tmp") ++ [py "my_game"]) ++ [py "src"];
               (env_resolve demo_env (py "/tmp") ++ [py "my_game"]) ++ [py "cmake"]])
      ++ flat_map entry_events
           (file_plan (py "My Game!!") (py "my_game")
              (env_resolve demo_env (py "/tmp") ++ [py "my_game"])).
Proof.
  apply (main_success_trace demo_env (demo_args (py "My Game!!") true) demo_used_world
           (py "My Game!!") (py "/tmp") (py "my_game")).
  - reflexivity.
  - reflexivity.
  - vm_compute. discriminate.
  - vm_compute. reflexivity.
  - apply run_result. vm_compute. reflexivity.
Defined.

Lemma first_refused_None_inv e force fs ens :
  first_refused e force fs ens = None ->
  forall en, en ∈ ens -> write_refusal e force fs (e_path en) = None.
Proof.
  induction ens as [|en0 ens IH]; simpl.
  { intros _ en Hen. by apply elem_of_nil in Hen. }
  destruct (write_refusal e force fs (e_path en0)) eqn:E0; [done|].
  destruct (first_refused e force fs ens) as [[k ex]|] eqn:E; [done|].
  intros _ en Hen. apply elem_of_cons in Hen as [->|Hen]; [done|]. by apply IH.
Qed.

Lemma main_directories_exist root w :
  w_fs w !! root = Some Dir ->
  w_fs w !! (root ++ [py "src"]) = Some Dir ->
  w_fs w !! (root ++ [py "cmake"]) = Some Dir ->
  main_directories true root w = (inr tt, w).
Proof.
  intros Hr Hs Hc. unfold main_directories. unfold M_bind at 1. unfold try_except.
  rewrite Path_mkdir_exists by (by rewrite Hr).
  change (exn_kind_eqb (exn_class (os_error FileExistsError (py "17") (py "File exists") root))
            FileExistsError) with true.
  cbv beta iota. change (negb true) with false. cbv iota. unfold M_ret at 1.
  unfold M_bind, Path_mkdir.
  rewrite mkdir_no_parents_exists by done. by rewrite mkdir_no_parents_exists.
Qed.

Lemma after_entries_id e w plan :
  plan_sep (map e_path plan) ->
  (forall j en, plan !! j = Some en ->
     w_fs w !! e_path en = Some (File (e_contents en) (entry_mode e (w_fs w) en))) ->
  w_fs (after_entries e w plan) = w_fs w.
Proof.
  intros Hsep H. apply map_eq. intros q.
  destruct (decide (q ∈ map e_path plan)) as [Hq|Hq].
  - apply list_elem_of_fmap in Hq as (en & -> & Hen).
    apply list_elem_of_lookup in Hen as [j Hj].
    destruct (after_entries_lookup e plan w j en Hsep Hj) as (m & Hm & Hc & Hnc).
    rewrite Hm, (H j en Hj). do 2 f_equal. unfold entry_mode.
    destruct (e_chmod en) as [m'|]; [by apply Hc|by apply Hnc].
  - by apply after_entries_frame.
Qed.

(** X21 (main, lines 607-655): on the file system [--force] is idempotent.
    After a run that succeeded, the same command with [--force] succeeds too
    and leaves every file and directory as the first run left it. *)
Theorem main_force_idempotent e a w d loc w' :
  fs_wf (w_fs w) ->
  args_name a = Some d -> d <> [] -> args_location a = Some loc -> loc <> [] ->
  main e a w = (inr tt, w') ->
  exists w'',
    main e (Args (Some d) (Some loc) true) w' = (inr tt, w'')
    /\ w_fs w'' = w_fs w'.
Proof.
  intros Hwf Hn Hd Hloc Hl H.
  pose proof (main_inputs_args e a d loc w Hn Hd Hloc Hl) as Hi.
  set (base := env_resolve e loc) in *.
  destruct (bool_decide (is_Some (w_fs w !! base))) eqn:Eb.
  2:{ revert H. unfold main. unfold M_bind at 1. rewrite Hi. by intros [=]. }
  apply bool_decide_eq_true_1 in Eb.
  destruct (slugify d) as [ex|s] eqn:Es.
  { revert H. unfold main. unfold M_bind at 1. rewrite Hi. simpl. rewrite Es.
    unfold M_bind, lift. by intros [=]. }
  set (root := base ++ [s]). set (plan := file_plan d s root).
  destruct (main_outcome e a w d base w s _ w' Hi Es H) as (Hg & _ & _ & _ & _ & Hfiles).
  fold root plan in Hfiles.
  assert (forall en, en ∈ plan -> env_write_fault e (e_path en) = None) as Hfault.
  { revert H. rewrite (main_unfold e a w d base w s Hi Es). fold root plan.
    destruct (main_directories (args_force a) root w) as [[ex|[]] w2]; [by intros [=]|].
    destruct (first_refused e (args_force a) (w_fs w2) plan) as [[k ex]|] eqn:Ef;
      [by intros [=]|].
    intros _ en Hen.
    by destruct (write_refusal_None _ _ _ _ (first_refused_None_inv _ _ _ _ Ef en Hen)). }
  pose proof (fs_grows_wf _ _ _ Hwf Hg) as Hwf'.
  assert (forall j en, plan !! j = Some en ->
            w_fs w' !! parent (e_path en) = Some Dir) as Hpar.
  { intros j en Hj. destruct (Hfiles j en Hj) as (m & Hm & _).
    apply Hwf'; [|by rewrite Hm].
    assert (e_path en ∈ write_order root) as Hin.
    { rewrite <- (file_plan_paths d s root). apply list_elem_of_fmap.
      exists en. split; [done|]. by eapply list_elem_of_lookup_2. }
    destruct (write_order_under root _ Hin) as ((t & Ht) & Hne & _).
    intros Hnil. rewrite Hnil in Ht. symmetry in Ht. apply app_eq_nil in Ht as [Ht _].
    unfold root in Ht. apply app_eq_nil in Ht as [_ Ht]. discriminate Ht. }
  assert (w_fs w' !! root = Some Dir) as Hroot.
  { specialize (Hpar 0%nat _ eq_refl). cbn [e_path] in Hpar. by rewrite parent_snoc in Hpar. }
  assert (w_fs w' !! (root ++ [py "src"]) = Some Dir) as Hsrc.
  { specialize (Hpar 1%nat _ eq_refl). cbn [e_path] in Hpar. by rewrite parent_snoc in Hpar. }
  assert (w_fs w' !! (root ++ [py "cmake"]) = Some Dir) as Hcmake.
  { specialize (Hpar 6%nat _ eq_refl). cbn [e_path] in Hpar. by rewrite parent_snoc in Hpar. }
  pose proof (main_inputs_args e (Args (Some d) (Some loc) true) d loc w'
                eq_refl Hd eq_refl Hl) as Hi'.
  fold base in Hi'.
  rewrite bool_decide_eq_true_2 in Hi' by (by eapply fs_grows_some).
  rewrite (main_unfold e _ w' d base w' s Hi' Es). fold root plan. cbn [args_force].
  rewrite main_directories_exist by done.
  assert (plan_sep (map e_path plan)) as Hsep
    by (unfold plan; rewrite file_plan_paths; apply write_order_sep).
  rewrite first_refused_None.
  2:{ intros en Hen. pose proof Hen as Hen'. apply list_elem_of_lookup in Hen' as [j Hj].
      destruct (Hfiles j en Hj) as (m & Hm & _).
      unfold write_refusal. by rewrite andb_false_r, (Hfault en Hen), Hm. }
  rewrite report_spec. eexists. split; [reflexivity|]. cbn [w_fs].
  apply after_entries_id; [done|].
  intros j en Hj. destruct (Hfiles j en Hj) as (m & Hm & Hc).
  rewrite Hm. do 2 f_equal. unfold entry_mode.
  destruct (e_chmod en) as [m'|]; [by apply Hc|].
  unfold write_mode. by rewrite Hm.
Qed.

Lemma main_force_idempotent_witness :
  exists w'',
    main demo_env (Args (Some (py "My Game!!")) (Some (py "/tmp")) true)
      (snd (main demo_env (demo_args (py "My Game!!") false) (demo_world [])))
    = (inr tt, w'')
    /\ w_fs w''
       = w_fs (snd (main demo_env (demo_args (py "My Game!!") false) (demo_world []))).
Proof.
  apply (main_force_idempotent demo_env (demo_args (py "My Game!!") false) (demo_world [])
           (py "My Game!!") (py "/tmp")).
  - intros p Hp [n Hn]. revert Hn. unfold demo_world. simpl w_fs.
    rewrite !lookup_insert. repeat case_decide; subst; try done.
  - reflexivity.
  - vm_compute. discriminate.
  - reflexivity.
  - vm_compute. discriminate.
  - apply run_result. vm_compute. reflexivity.
Defined.

Lemma main_directories_fresh_force f1 f2 (base : path) s w :
  w_fs w !! (base ++ [s]) = None -> is_Some (w_fs w !! base) ->
  main_directories f1 (base ++ [s]) w = main_directories f2 (base ++ [s]) w.
Proof.
  intros Hr Hbase. unfold main_directories. unfold M_bind at 1 3. unfold try_except.
  destruct (Path_mkdir (base ++ [s]) true false w) as [r w'] eqn:E.
  pose proof (Path_mkdir_fresh base s w r w' Hr Hbase E) as H.
  destruct r as [ex|[]]; [|done].
  destruct H as [Hc _]. by rewrite Hc.
Qed.

Lemma first_refused_force e f1 f2 fs ens :
  (forall en, en ∈ ens -> fs !! e_path en = None) ->
  first_refused e f1 fs ens = first_refused e f2 fs ens.
Proof.
  induction ens as [|en ens IH]; intros H; simpl; [done|].
  assert (write_refusal e f1 fs (e_path en) = write_refusal e f2 fs (e_path en)) as ->.
  { unfold write_refusal. rewrite H by (apply elem_of_cons; by left). done. }
  rewrite IH; [done|]. intros en' Hen'. apply H. apply elem_of_cons. by right.
Qed.

(** X22 (main, lines 627-648): [--force] matters only when the project
    directory exists.  When nothing is at its path the run is the same with
    and without the flag: same outcome, same files, same output. *)
Theorem main_force_irrelevant e a w root :
  fs_wf (w_fs w) ->
  project_dir_of e a w = Some root -> w_fs w !! root = None ->
  main e (Args (args_name a) (args_location a) (negb (args_force a))) w = main e a w.
Proof.
  intros Hwf. unfold project_dir_of.
  destruct (main_inputs e a w) as [[ex|[d base]] w1] eqn:Ei; [done|].
  destruct (slugify d) as [ex|s] eqn:Es; [done|].
  intros [= <-] Hroot.
  pose proof (main_inputs_spec e a w _ _ Ei) as (Hfs1 & _ & _ & Hbase & _).
  assert (main_inputs e (Args (args_name a) (args_location a) (negb (args_force a))) w
          = (inr (d, base), w1)) as Ei' by exact Ei.
  rewrite (main_unfold e _ w d base w1 s Ei' Es), (main_unfold e a w d base w1 s Ei Es).
  cbn [args_force].
  rewrite <- Hfs1 in Hroot, Hbase, Hwf.
  rewrite (main_directories_fresh_force (negb (args_force a)) (args_force a)) by done.
  destruct (main_directories (args_force a) (base ++ [s]) w1) as [[ex|[]] w2] eqn:Ed;
    [done|].
  pose proof (main_directories_fresh _ base s w1 _ w2 Hwf Hroot Hbase Ed) as Hfs2.
  simpl in Hfs2.
  rewrite (first_refused_force e (negb (args_force a)) (args_force a)); [done|].
  intros en Hen.
  assert (e_path en ∈ write_order (base ++ [s])) as Hin.
  { rewrite <- (file_plan_paths d s (base ++ [s])). apply list_elem_of_fmap. eauto. }
  destruct (write_order_under _ _ Hin) as ((t & ->) & H1 & H2 & H3).
  rewrite Hfs2. by apply fresh_dirs_lookup.
Qed.

Lemma main_force_irrelevant_witness :
  main demo_env
    (Args (args_name (demo_args (py "My Game!!") false))
       (args_location (demo_args (py "My Game!!") false))
       (negb (args_force (demo_args (py "My Game!!") false))))
    (demo_world [])
  = main demo_env (demo_args (py "My Game!!") false) (demo_world []).
Proof.
  apply (main_force_irrelevant demo_env (demo_args (py "My Game!!") false) (demo_world [])
           demo_root).
  - intros p Hp [n Hn]. revert Hn. unfold demo_world. simpl w_fs.
    rewrite !lookup_insert. repeat case_decide; subst; try done.
  - vm_compute. reflexivity.
  - vm_compute. reflexivity.
Defined.


